(** * Sobel edge filter: CPU sweep (OpenMP) and GPU grid-stride kernel

    A shallow embedding of the two programs of the repository,
    [conv_harness_cpu] (OpenMP sweep) and [sobel_gpu] (CUDA kernel), with
    the script [sobel_gpu_run.sh] that sweeps the launch shapes, and the
    properties of their common stencil, of the two drivers, of the byte
    conversions and of the runs of the programs.

    Conventions of the embedding:
    - a C [int] is a [Z] with its 32-bit two's-complement wrap-around
      written out ([wrap32]); the CUDA built-ins ([threadIdx.x] ...) are
      [unsigned int], wrapped with [uwrap32];
    - a C [float] is an IEEE-754 binary32 number, a [double] a binary64
      number, both as [spec_float] with the operations of the standard
      library specialised to the two formats (round to nearest even). In
      host code every operation of the source rounds on its own. In device
      code [nvcc] contracts a product and the sum that follows it into one
      fused multiply-add unless it is told not to ([--fmad=false]): how the
      device code was compiled is a parameter of the kernel ([fmad]);
    - a buffer is a [list]; an access outside the buffer has no defined
      behaviour in C, and is [None] here. *)

From Stdlib Require Import ZArith Lia Bool String Ascii DecimalString.
From Stdlib Require DecimalZ.
From Stdlib Require Import Floats.SpecFloat.
From stdpp Require Import base tactics option list list_numbers.

Local Open Scope Z_scope.

(** ** Machine integers *)

Module Int.

Definition INT_MAX : Z := 2147483647.
Definition INT_MIN : Z := -2147483648.

(** conversion to [int]: two's complement on 32 bits *)
Definition wrap32 (z : Z) : Z := (z + 2147483648) mod 4294967296 - 2147483648.

(** conversion to [unsigned int] *)
Definition uwrap32 (z : Z) : Z := z mod 4294967296.

End Int.
Import Int.

(** ** Floating-point numbers *)

Module F32.

Definition float : Type := spec_float.

Definition prec : Z := 24.
Definition emax : Z := 128.

Definition add : float -> float -> float := SFadd prec emax.
Definition mul : float -> float -> float := SFmul prec emax.
Definition sqrt : float -> float := SFsqrt prec emax.

(** an integer constant or an integer converted to [float] *)
Definition of_Z (z : Z) : float := binary_normalize prec emax z 0 false.

Definition zero : float := S754_zero false.
Definition one : float := Eval vm_compute in of_Z 1.

Definition valid (x : float) : bool := valid_binary prec emax x.

(** the fused multiply-add [x * y + z]: the exact product enters the sum,
    and the sum is rounded once *)
Definition fma (x y z : float) : float :=
  match x, y with
  | S754_finite sx mx ex, S754_finite sy my ey =>
      match z with
      | S754_zero _ => mul x y
      | _ => SFadd prec emax z (S754_finite (xorb sx sy) (mx * my) (ex + ey))
      end
  | _, _ => add z (mul x y)
  end.

End F32.

Module F64.

Definition prec : Z := 53.
Definition emax : Z := 1024.

Definition mul : spec_float -> spec_float -> spec_float := SFmul prec emax.
Definition div : spec_float -> spec_float -> spec_float := SFdiv prec emax.
Definition of_Z (z : Z) : spec_float := binary_normalize prec emax z 0 false.

(** the promotion of a [float] to [double] (exact) *)
Definition of_f32 (x : F32.float) : spec_float :=
  match x with
  | S754_finite s m e => binary_normalize prec emax (cond_Zopp s (Zpos m)) e s
  | _ => x
  end.

(** the conversion of a [double] to [float] (rounds to nearest even) *)
Definition to_f32 (x : spec_float) : F32.float :=
  match x with
  | S754_finite s m e =>
      binary_normalize F32.prec F32.emax (cond_Zopp s (Zpos m)) e s
  | _ => x
  end.

(** a [double] truncated toward zero, where it is finite *)
Definition trunc (x : spec_float) : option Z :=
  match x with
  | S754_zero _ => Some 0
  | S754_finite s m e =>
      Some (cond_Zopp s (if 0 <=? e then Zpos m * 2 ^ e
                         else Zpos m / 2 ^ (- e)))
  | _ => None
  end.

End F64.

Abbreviation float := F32.float.

(** ** Buffers *)

(** [s[k]] *)
Definition read {A} (s : list A) (k : Z) : option A :=
  if 0 <=? k then s !! Z.to_nat k else None.

(** [d[k] = v] *)
Definition write {A} (d : list A) (k : Z) (v : A) : option (list A) :=
  if (0 <=? k) && (k <? Z.of_nat (length d))
  then Some (<[Z.to_nat k := v]> d) else None.

(** a loop whose body can fail *)
Fixpoint foldlM {A B} (f : B -> A -> option B) (b : B) (l : list A)
  : option B :=
  match l with
  | [] => Some b
  | a :: l' => match f b a with
               | Some b' => foldlM f b' l'
               | None => None
               end
  end.

(** ** The fixed kernel weights

    [float Gx[] = {1.0, 0.0, -1.0, 2.0, 0.0, -2.0, 1.0, 0.0, -1.0}] and
    [float Gy[] = {1.0, 2.0, 1.0, 0.0, 0.0, 0.0, -1.0, -2.0, -1.0}],
    the same in both programs. *)

Definition Gx : list float :=
  Eval vm_compute in map F32.of_Z [1; 0; -1; 2; 0; -2; 1; 0; -1].
Definition Gy : list float :=
  Eval vm_compute in map F32.of_Z [1; 2; 1; 0; 0; 0; -1; -2; -1].

(** ** The stencil evaluator *)

(** the offsets [-1, 0, 1] of [for (int y = -1; y <= 1; y++)] *)
Definition offsets : list Z := [-1; 0; 1].

(** [neighbor_i >= 0 && neighbor_i < nrows && neighbor_j >= 0 &&
    neighbor_j < ncols] *)
Definition in_bounds (neighbor_i neighbor_j ncols nrows : Z) : bool :=
  (0 <=? neighbor_i) && (neighbor_i <? nrows) &&
  (0 <=? neighbor_j) && (neighbor_j <? ncols).

(** [neighbor_i * ncols + neighbor_j] *)
Definition neighbor_index (neighbor_i neighbor_j ncols : Z) : Z :=
  wrap32 (wrap32 (neighbor_i * ncols) + neighbor_j).

(** [(y + 1) * 3 + (x + 1)] *)
Definition weight_index (y x : Z) : Z :=
  wrap32 (wrap32 (wrap32 (y + 1) * 3) + wrap32 (x + 1)).

(** one pass of the body of the two nested loops, for one weight table:
    [t += g[(y + 1) * 3 + (x + 1)] * s[neighbor_index]] under the bounds
    check *)
Definition stencil_step (s : list float) (i j ncols nrows : Z)
    (g : list float) (y : Z) (t : float) (x : Z) : option float :=
  let neighbor_i := wrap32 (i + y) in
  let neighbor_j := wrap32 (j + x) in
  if in_bounds neighbor_i neighbor_j ncols nrows then
    w ← read g (weight_index y x);
    v ← read s (neighbor_index neighbor_i neighbor_j ncols);
    Some (F32.add t (F32.mul w v))
  else Some t.

(** the nested loops over [y] and [x] of the CPU evaluator, for one weight
    table *)
Definition stencil_sum (s : list float) (i j ncols nrows : Z)
    (g : list float) : option float :=
  foldlM (fun t y => foldlM (stencil_step s i j ncols nrows g y) t offsets)
         F32.zero offsets.

Module Cpu.

(** [sobel_filtered_pixel], CPU program: a pass for [gx] into [t], a second
    pass for [gy] into [ty], then [sqrt(t * t + ty * ty)] *)
Definition sobel_filtered_pixel (s : list float) (i j ncols nrows : Z)
    (gx gy : list float) : option float :=
  t ← stencil_sum s i j ncols nrows gx;
  ty ← stencil_sum s i j ncols nrows gy;
  Some (F32.sqrt (F32.add (F32.mul t t) (F32.mul ty ty))).

End Cpu.

(** how [nvcc] compiled the arithmetic of the device code *)
Inductive fmad : Type :=
  (* [--fmad=false]: every product and every sum rounds on its own *)
  | Fmad_off
  (* [--fmad=true], the default: [t += w * v] is one fused multiply-add,
     and so is [Gx * Gx + Gy * Gy], in which the compiler fuses the sum
     with the square of [Gx] ([gx_fused]) or with the square of [Gy] *)
  | Fmad_on (gx_fused : bool).

(** [t + w * v] in device code *)
Definition mul_add (c : fmad) (w v t : float) : float :=
  match c with
  | Fmad_off => F32.add t (F32.mul w v)
  | Fmad_on _ => F32.fma w v t
  end.

(** [a * a + b * b] in device code *)
Definition sum_of_squares (c : fmad) (a b : float) : float :=
  match c with
  | Fmad_off => F32.add (F32.mul a a) (F32.mul b b)
  | Fmad_on true => F32.fma a a (F32.mul b b)
  | Fmad_on false => F32.fma b b (F32.mul a a)
  end.

Module Gpu.

(** the body of the nested loops of the GPU evaluator: both sums in one
    pass; the arithmetic is that of the source, operation by operation
    (device code compiled with [--fmad=false]) *)
Definition stencil_step2 (s : list float) (i j ncols nrows : Z)
    (gx gy : list float) (y : Z) (acc : float * float) (x : Z)
  : option (float * float) :=
  let neighbor_i := wrap32 (i + y) in
  let neighbor_j := wrap32 (j + x) in
  if in_bounds neighbor_i neighbor_j ncols nrows then
    let k := neighbor_index neighbor_i neighbor_j ncols in
    wx ← read gx (weight_index y x);
    v ← read s k;
    wy ← read gy (weight_index y x);
    v' ← read s k;
    Some (F32.add (fst acc) (F32.mul wx v), F32.add (snd acc) (F32.mul wy v'))
  else Some acc.

(** [sobel_filtered_pixel], GPU program, operation by operation *)
Definition sobel_filtered_pixel (s : list float) (i j ncols nrows : Z)
    (gx gy : list float) : option float :=
  acc ← foldlM (fun acc y =>
                  foldlM (stencil_step2 s i j ncols nrows gx gy y) acc offsets)
               (F32.zero, F32.zero) offsets;
  Some (F32.sqrt (F32.add (F32.mul (fst acc) (fst acc))
                          (F32.mul (snd acc) (snd acc)))).

(** the body of the nested loops as the device runs it: the same accesses,
    with the arithmetic of the compiled code *)
Definition device_step2 (c : fmad) (s : list float) (i j ncols nrows : Z)
    (gx gy : list float) (y : Z) (acc : float * float) (x : Z)
  : option (float * float) :=
  let neighbor_i := wrap32 (i + y) in
  let neighbor_j := wrap32 (j + x) in
  if in_bounds neighbor_i neighbor_j ncols nrows then
    let k := neighbor_index neighbor_i neighbor_j ncols in
    wx ← read gx (weight_index y x);
    v ← read s k;
    wy ← read gy (weight_index y x);
    v' ← read s k;
    Some (mul_add c wx v (fst acc), mul_add c wy v' (snd acc))
  else Some acc.

(** [sobel_filtered_pixel] as the device runs it *)
Definition device_pixel (c : fmad) (s : list float) (i j ncols nrows : Z)
    (gx gy : list float) : option float :=
  acc ← foldlM (fun acc y =>
                  foldlM (device_step2 c s i j ncols nrows gx gy y) acc offsets)
               (F32.zero, F32.zero) offsets;
  Some (F32.sqrt (sum_of_squares c (fst acc) (snd acc))).

End Gpu.

(** ** The CPU sweep driver *)

(** [out[i * ncols + j] = sobel_filtered_pixel(in, i, j, ncols, nrows, Gx, Gy)] *)
Definition sweep_pixel (inp : list float) (ncols nrows : Z)
    (out : list float) (ij : Z * Z) : option (list float) :=
  let '(i, j) := ij in
  v ← Cpu.sobel_filtered_pixel inp i j ncols nrows Gx Gy;
  write out (wrap32 (wrap32 (i * ncols) + j)) v.

(** [do_sobel_filtering], read as the sequential program: the loop over
    [i] in [0, nrows) and, inside, the loop over [j] in [0, ncols) *)
Definition do_sobel_filtering (inp out : list float) (ncols nrows : Z)
  : option (list float) :=
  foldlM (fun out i =>
            foldlM (fun out j => sweep_pixel inp ncols nrows out (i, j))
                   out (seqZ 0 ncols))
         out (seqZ 0 nrows).

(** the iterations of the loop nest, in program order *)
Definition all_pixels (ncols nrows : Z) : list (Z * Z) :=
  i ← seqZ 0 nrows; (fun j => (i, j)) <$> seqZ 0 ncols.

(** [do_sobel_filtering] under [#pragma omp parallel for]: the rows are
    handed to the threads of the team and the stores of the threads
    interleave; [order] is the order in which the pixels are stored in one
    execution. OpenMP promises that every iteration runs once, so [order] is
    a permutation of [all_pixels]. *)
Definition do_sobel_filtering_omp (order : list (Z * Z))
    (inp out : list float) (ncols nrows : Z) : option (list float) :=
  foldlM (sweep_pixel inp ncols nrows) out order.

(** ** The GPU dispatch driver *)

(** how a unit of work ends: [Fault] is an access outside a buffer or a
    division by zero, [Timeout] is a loop still running when the fuel is
    spent *)
Inductive outcome (A : Type) : Type :=
  | Done (a : A)
  | Fault
  | Timeout.
Arguments Done {A} a.
Arguments Fault {A}.
Arguments Timeout {A}.

(** the body of the [while] loop of [sobel_kernel_gpu], in device code
    compiled as [c] says *)
Definition kernel_body (c : fmad) (s : list float) (nrows ncols : Z)
    (gx gy : list float) (idx : Z) (d : list float) : option (list float) :=
  if ncols =? 0 then None else
  let i := wrap32 (Z.quot idx ncols) in
  let j := wrap32 (Z.rem idx ncols) in
  let output_index := wrap32 (wrap32 (i * ncols) + j) in
  v ← Gpu.device_pixel c s i j ncols nrows gx gy;
  write d output_index v.

(** [while (idx < n) { ...; idx += stride; }] *)
Fixpoint kernel_loop (c : fmad) (fuel : nat) (s : list float)
    (n nrows ncols : Z) (gx gy : list float) (stride idx : Z) (d : list float)
  : outcome (list float) :=
  if idx <? n then
    match fuel with
    | O => Timeout
    | S fuel' =>
        match kernel_body c s nrows ncols gx gy idx d with
        | Some d' =>
            kernel_loop c fuel' s n nrows ncols gx gy stride
                        (wrap32 (idx + stride)) d'
        | None => Fault
        end
    end
  else Done d.

(** the CUDA built-in variables of one execution unit *)
Record unit_ids : Type := {
  threadIdx : Z;
  blockIdx : Z;
  blockDim : Z;
  gridDim : Z
}.

(** [int idx = threadIdx.x + blockIdx.x * blockDim.x] *)
Definition unit_start (u : unit_ids) : Z :=
  wrap32 (uwrap32 (threadIdx u + uwrap32 (blockIdx u * blockDim u))).

(** [int stride = blockDim.x * gridDim.x] *)
Definition unit_stride (u : unit_ids) : Z :=
  wrap32 (uwrap32 (blockDim u * gridDim u)).

(** [sobel_kernel_gpu], as run by one execution unit *)
Definition sobel_kernel_gpu (c : fmad) (fuel : nat) (u : unit_ids)
    (s d : list float) (n nrows ncols : Z) (gx gy : list float)
  : outcome (list float) :=
  kernel_loop c fuel s n nrows ncols gx gy (unit_stride u) (unit_start u) d.

(** the execution units of [<<<nBlocks, nThreadsPerBlock>>>], block by
    block *)
Definition units (nBlocks nThreadsPerBlock : Z) : list unit_ids :=
  b ← seqZ 0 nBlocks;
  (fun t => {| threadIdx := t; blockIdx := b;
               blockDim := nThreadsPerBlock; gridDim := nBlocks |})
    <$> seqZ 0 nThreadsPerBlock.

(** a kernel launch followed by [cudaDeviceSynchronize]: the units of
    [us] run to completion one after the other, each with [fuel] loop
    iterations at most. The device runs the units in an order of its own:
    a property of a launch is stated for every order of the units, and
    where a unit faults or does not end, which of [Fault] and [Timeout] is
    returned depends on the order. *)
Fixpoint launch (c : fmad) (fuel : nat) (us : list unit_ids)
    (s d : list float) (n nrows ncols : Z) (gx gy : list float)
  : outcome (list float) :=
  match us with
  | [] => Done d
  | u :: us' =>
      match sobel_kernel_gpu c fuel u s d n nrows ncols gx gy with
      | Done d' => launch c fuel us' s d' n nrows ncols gx gy
      | Fault => Fault
      | Timeout => Timeout
      end
  end.

(** the indices at which one unit runs the loop body *)
Fixpoint grid_stride (fuel : nat) (n stride idx : Z) : outcome (list Z) :=
  if idx <? n then
    match fuel with
    | O => Timeout
    | S fuel' =>
        match grid_stride fuel' n stride (wrap32 (idx + stride)) with
        | Done l => Done (idx :: l)
        | Fault => Fault
        | Timeout => Timeout
        end
    end
  else Done [].

(** ** The evaluator in the words of the specification *)

(** the nine offsets [(dy, dx)], in the order of the loops *)
Definition neighbourhood : list (Z * Z) :=
  dy ← offsets; (fun dx => (dy, dx)) <$> offsets.

(** the offsets whose neighbour lies in [[0,rows) x [0,cols)] *)
Definition contributing (row col cols rows : Z) : list (Z * Z) :=
  filter (fun d => in_bounds (row + fst d) (col + snd d) cols rows = true)
         neighbourhood.

(** for every contributing offset, the index [(dy+1)*3+(dx+1)] of its
    weight and the index of its neighbour in the source buffer *)
Definition taps (row col cols rows : Z) : list (Z * Z) :=
  (fun d => ((fst d + 1) * 3 + (snd d + 1),
             neighbor_index (row + fst d) (col + snd d) cols))
    <$> contributing row col cols rows.

(** the sum of [g[weight index] * source[neighbour index]] over a list of
    taps, accumulated in the order of the list *)
Definition weighted_sum (source g : list float) (ts : list (Z * Z))
  : option float :=
  foldlM (fun t tap =>
            w ← read g (fst tap);
            v ← read source (snd tap);
            Some (F32.add t (F32.mul w v)))
         F32.zero ts.

(** the evaluator in the words of the specification: both sums run over
    the contributing offsets only, and the result is
    [sqrt(Gx_sum^2 + Gy_sum^2)] *)
Definition evaluate (source : list float) (row col cols rows : Z)
    (gx gy : list float) : option float :=
  Gx_sum ← weighted_sum source gx (taps row col cols rows);
  Gy_sum ← weighted_sum source gy (taps row col cols rows);
  Some (F32.sqrt (F32.add (F32.mul Gx_sum Gx_sum) (F32.mul Gy_sum Gy_sum))).

(** the indices of the source buffer that the evaluator reads at a pixel *)
Definition source_reads (row col cols rows : Z) : list Z :=
  snd <$> taps row col cols rows.

(** *** The two sums written out

    The sums of the specification once more, with nothing taken from the
    code: the nine offsets are listed, positions and indices are integers
    without wrap-around, the image is the row-major array of its samples,
    and a sum is a plain fold over the offsets. *)

(** the offsets [(dy, dx)] of the 3x3 neighbourhood *)
Definition window : list (Z * Z) :=
  [(-1, -1); (-1, 0); (-1, 1);
   ( 0, -1); ( 0, 0); ( 0, 1);
   ( 1, -1); ( 1, 0); ( 1, 1)].

(** [(r, c)] lies in [[0,rows) x [0,cols)] *)
Definition inside (rows cols r c : Z) : bool :=
  (0 <=? r) && (r <? rows) && (0 <=? c) && (c <? cols).

(** the sample of the image at row [r] and column [c] *)
Definition sample_at (source : list float) (cols r c : Z) : float :=
  nth (Z.to_nat (r * cols + c)) source F32.zero.

(** the weight [g[(dy+1)*3 + (dx+1)]] *)
Definition weight_at (g : list float) (dy dx : Z) : float :=
  nth (Z.to_nat ((dy + 1) * 3 + (dx + 1))) g F32.zero.

(** [Gx_sum] or [Gy_sum]: every offset whose neighbour is inside the image
    adds its weight times the neighbour's sample, the others add nothing;
    [c] is the arithmetic of the sum *)
Definition directional_sum (c : fmad) (source g : list float)
    (rows cols row col : Z) : float :=
  fold_left
    (fun sum d =>
       if inside rows cols (row + fst d) (col + snd d)
       then mul_add c (weight_at g (fst d) (snd d))
                      (sample_at source cols (row + fst d) (col + snd d)) sum
       else sum)
    window F32.zero.

(** [sqrt(Gx_sum^2 + Gy_sum^2)] *)
Definition gradient_magnitude (c : fmad) (source : list float)
    (rows cols row col : Z) (gx gy : list float) : float :=
  F32.sqrt (sum_of_squares c (directional_sum c source gx rows cols row col)
                             (directional_sum c source gy rows cols row col)).

(** ** The converter *)

(** [#define ONE_OVER_255 0.003921568627451]: the [double] nearest to the
    decimal literal *)
Definition ONE_OVER_255 : spec_float :=
  Eval vm_compute in
    F64.div (F64.of_Z 3921568627451) (F64.of_Z 1000000000000000).

(** [(float)in_data_bytes[i] * ONE_OVER_255], stored in a [float]: the
    byte becomes a [float], the product is taken in [double] and rounded to
    [float] by the store *)
Definition byte_to_float (b : Z) : float :=
  F64.to_f32 (F64.mul (F64.of_f32 (F32.of_Z b)) ONE_OVER_255).

(** the conversion of a [double] to [unsigned char]. The value is truncated
    toward zero; where the result is not a byte, C leaves the conversion
    undefined, and the model takes what the x86-64 code of the compilers
    does: the truncation to a 32-bit integer (the instruction [cvttsd2si])
    of which the low byte is kept, the out-of-range result of the instruction
    being [0x80000000]. *)
Definition uchar_of_double (x : spec_float) : Z :=
  match F64.trunc x with
  | Some z => if (INT_MIN <=? z) && (z <=? INT_MAX) then z mod 256 else 0
  | None => 0
  end.

(** [(unsigned char)(out_data_floats[i] * 255.0)] *)
Definition float_to_byte (G : float) : Z :=
  uchar_of_double (F64.mul (F64.of_f32 G) (F64.of_Z 255)).

(** the [round_down(G * 255.0)] of the specification: the integer part of
    [G * 255] in exact arithmetic, for a sample [G] that is finite and not
    negative *)
Definition floor_times_255 (G : float) : option Z :=
  match G with
  | S754_zero _ => Some 0
  | S754_finite false m e =>
      Some (if 0 <=? e then Zpos m * 255 * 2 ^ e
            else (Zpos m * 255) / 2 ^ (- e))
  | _ => None
  end.

(** ** The two programs *)

Local Open Scope string_scope.
Local Open Scope Z_scope.

Definition nl : string := String "010" EmptyString.

(** the variables at the top of the two source files *)
Record config : Type := {
  input_fname : string;
  data_dims : Z * Z;          (* width = ncols, height = nrows *)
  output_fname : string
}.

Definition zebra_4x : config := {|
  input_fname := "../data/zebra-gray-int8-4x";
  data_dims := (7112, 5146);
  output_fname := "../data/processed-raw-int8-4x-cpu.dat"
|}.

(** the calls to the CUDA runtime that the GPU program checks *)
Inductive cuda_call : Type :=
  | MallocManaged_in
  | MallocManaged_out
  | MallocManaged_gx
  | MallocManaged_gy
  | DeviceSynchronize.

(** what becomes of the bytes that the output file does not take *)
Inductive shortfall : Type :=
  (* [fwrite] returns the number of bytes that reached the file *)
  | Reported
  (* [fwrite] keeps the bytes in the buffer of the stream and returns
     [nvalues]; they are lost when [fclose] flushes the buffer, and [main]
     does not look at what [fclose] returns *)
  | Unnoticed
  (* the write that passes the limit on the size of a file raises
     [SIGXFSZ], which ends the process *)
  | Signalled.

(** what the build and the environment of a run decide *)
Record world : Type := {
  (* the bytes of the input file; [None] when it cannot be opened *)
  input_file : option (list Z);
  (* the number of bytes the output file takes; [None] when it cannot be
     opened *)
  output_room : option Z;
  (* the contents of memory returned by [malloc] *)
  heap : Z -> float;
  (* the order in which a team of so many threads stores the pixels of an
     image of [ncols] by [nrows] *)
  omp_order : Z -> Z -> Z -> list (Z * Z);
  (* the text of the elapsed time of the sweep with so many threads *)
  elapsed : Z -> string;
  (* the code returned by a call to the CUDA runtime, 0 for [cudaSuccess] *)
  cuda_error : cuda_call -> Z;
  (* how the device code of the GPU program was compiled *)
  device_fmad : fmad;
  (* what happens when the output file takes fewer bytes than are written *)
  short_write : shortfall
}.

(** how a run ends: [Crash] is a run that leaves defined behaviour (a null
    [FILE *], an access outside a buffer), [Hang] a run that does not end,
    [Killed] a run ended by a signal *)
Inductive status : Type :=
  | Exit (code : Z)
  | Crash
  | Hang
  | Killed.

Record run : Type := {
  run_status : status;
  run_stdout : string;
  (* the bytes written to the output file, when it was opened *)
  run_output : option (list Z)
}.

Definition size_t (z : Z) : Z := z mod 18446744073709551616.

(** [fread(in_data_bytes, 1, nvalues, f)] on an open file: the bytes read.
    For a negative [nvalues] the buffer is the null pointer that [malloc]
    returns for [(size_t) nvalues] bytes; the system refuses to read into
    it, and no byte is read. *)
Definition fread (nvalues : Z) (file : list Z) : list Z :=
  if 0 <=? nvalues then take (Z.to_nat nvalues) file else [].

(** the end of both programs: the output buffer is converted to bytes and
    written with [fwrite(out_data_bytes, 1, nvalues, f)], the value that
    [fwrite] returns is compared with [nvalues], and the file is closed
    with an [fclose] whose result is not looked at. [written] is what the
    file holds when the run has ended. *)
Definition write_output (cfg : config) (w : world) (nvalues : Z)
    (out_data_floats : list float) (stdout : string) : run :=
  let out_data_bytes := float_to_byte <$> out_data_floats in
  match output_room w with
  | None => {| run_status := Crash; run_stdout := stdout; run_output := None |}
  | Some room =>
      let written := take (Z.to_nat room) out_data_bytes in
      let wrote :=
        {| run_status := Exit 0;
           run_stdout := stdout ++ " Wrote the output file "
                                ++ output_fname cfg ++ " " ++ nl;
           run_output := Some written |} in
      if Z.of_nat (length written) =? size_t nvalues then wrote
      else match short_write w with
           | Reported =>
               {| run_status := Exit 1;
                  run_stdout := stdout ++ "Error writing output file. " ++ nl;
                  run_output := Some written |}
           | Unnoticed => wrote
           | Signalled =>
               {| run_status := Killed; run_stdout := stdout;
                  run_output := Some written |}
           end
  end.

(** [for (int num_threads = 1; num_threads <= 16; num_threads *= 2)] *)
Definition thread_counts : list Z := [1; 2; 4; 8; 16].

Definition decimal (z : Z) : string := NilZero.string_of_int (Z.to_int z).

(** one pass of the loop over the thread counts in [main]: a sweep with
    [num_threads] threads and the line that reports its time *)
Definition timed_sweep (w : world) (inp : list float) (ncols nrows : Z)
    (st : list float * string) (num_threads : Z)
  : option (list float * string) :=
  out ← do_sobel_filtering_omp (omp_order w num_threads ncols nrows)
                               inp (fst st) ncols nrows;
  Some (out, snd st ++ "Number of threads: " ++ decimal num_threads
                    ++ ", Elapsed time is: " ++ elapsed w num_threads
                    ++ " seconds" ++ nl).

(** [main] of the CPU program *)
Definition cpu_main (cfg : config) (w : world) : run :=
  let ncols := fst (data_dims cfg) in
  let nrows := snd (data_dims cfg) in
  let nvalues := wrap32 (ncols * nrows) in
  match input_file w with
  | None =>
      {| run_status := Exit 1;
         run_stdout := " Error opening the input file: "
                         ++ input_fname cfg ++ " " ++ nl;
         run_output := None |}
  | Some file =>
      let in_data_bytes := fread nvalues file in
      if negb (Z.of_nat (length in_data_bytes) =? size_t nvalues)
      then {| run_status := Exit 1;
              run_stdout := "Error reading input file. " ++ nl;
              run_output := None |}
      else
        let stdout :=
          " Read data from the file " ++ input_fname cfg ++ " " ++ nl in
        let in_data_floats := byte_to_float <$> in_data_bytes in
        let out_data_floats := heap w <$> seqZ 0 nvalues in
        match foldlM (timed_sweep w in_data_floats ncols nrows)
                     (out_data_floats, stdout) thread_counts with
        | None =>
            {| run_status := Crash; run_stdout := stdout;
               run_output := None |}
        | Some (out_data_floats, stdout) =>
            write_output cfg w nvalues out_data_floats stdout
        end
  end.

(** [atoi], as [(int) strtol(s, NULL, 10)] *)
Definition is_space (c : ascii) : bool :=
  let n := Z.of_N (N_of_ascii c) in (n =? 32) || ((9 <=? n) && (n <=? 13)).

Fixpoint skip_spaces (s : string) : string :=
  match s with
  | String c s' => if is_space c then skip_spaces s' else s
  | EmptyString => s
  end.

Fixpoint digits (acc : Z) (s : string) : Z :=
  match s with
  | String c s' =>
      let n := Z.of_N (N_of_ascii c) in
      if (48 <=? n) && (n <=? 57) then digits (acc * 10 + (n - 48)) s'
      else acc
  | EmptyString => acc
  end.

Definition strtol (s : string) : Z :=
  let clamp z :=
    Z.max (-9223372036854775808) (Z.min 9223372036854775807 z) in
  match skip_spaces s with
  | String "-" s' => clamp (- digits 0 s')
  | String "+" s' => clamp (digits 0 s')
  | s' => clamp (digits 0 s')
  end.

Definition atoi (s : string) : Z := wrap32 (strtol s).

(** [int nBlocks=1, nThreadsPerBlock=256;] and the two optional arguments
    of the command line *)
Definition launch_shape (args : list string) : Z * Z :=
  (match args with a :: _ => atoi a | [] => 1 end,
   match args with _ :: a :: _ => atoi a | _ => 256 end).

(** [gpuErrchk(call)]: the run goes on when the call returns [cudaSuccess]
    and ends with [exit(code)] otherwise (the line on [stderr] is not
    modelled) *)
Definition gpuErrchk (w : world) (call : cuda_call) (stdout : string)
    (k : run) : run :=
  if cuda_error w call =? 0 then k
  else {| run_status := Exit (cuda_error w call); run_stdout := stdout;
          run_output := None |}.

(** [main] of the GPU program, with the arguments [av[1]], [av[2]], ... of
    the command line; every unit of the kernel has [fuel] iterations, and
    the units run block by block *)
Definition gpu_main (fuel : nat) (cfg : config) (w : world)
    (args : list string) : run :=
  let nvalues := wrap32 (fst (data_dims cfg) * snd (data_dims cfg)) in
  match input_file w with
  | None => {| run_status := Crash; run_stdout := ""; run_output := None |}
  | Some file =>
      let in_data_bytes := fread nvalues file in
      if negb (Z.of_nat (length in_data_bytes) =? size_t nvalues)
      then {| run_status := Exit 1;
              run_stdout := "Error reading input file. " ++ nl;
              run_output := None |}
      else
        let stdout :=
          " Read data from the file " ++ input_fname cfg ++ " " ++ nl in
        gpuErrchk w MallocManaged_in stdout (
        let in_data_floats := byte_to_float <$> in_data_bytes in
        gpuErrchk w MallocManaged_out stdout (
        let out_data_floats := replicate (Z.to_nat nvalues) F32.one in
        gpuErrchk w MallocManaged_gx stdout (
        gpuErrchk w MallocManaged_gy stdout (
        let nBlocks := fst (launch_shape args) in
        let nThreadsPerBlock := snd (launch_shape args) in
        let stdout :=
          stdout ++ " GPU configuration: " ++ decimal nBlocks
                 ++ " blocks, " ++ decimal nThreadsPerBlock
                 ++ " threads per block " ++ nl in
        match launch (device_fmad w) fuel
                     (units (uwrap32 nBlocks) (uwrap32 nThreadsPerBlock))
                     in_data_floats out_data_floats
                     (wrap32 nvalues) (snd (data_dims cfg))
                     (fst (data_dims cfg)) Gx Gy with
        | Timeout =>
            {| run_status := Hang; run_stdout := stdout;
               run_output := None |}
        | Fault =>
            {| run_status := Crash; run_stdout := stdout;
               run_output := None |}
        | Done out_data_floats =>
            gpuErrchk w DeviceSynchronize stdout (
            write_output cfg w nvalues out_data_floats stdout)
        end))))
  end.

Local Close Scope string_scope.

(** [p] occurs in [s] *)
Fixpoint is_prefix (p s : string) : bool :=
  match p, s with
  | EmptyString, _ => true
  | String a p', String b s' => Ascii.eqb a b && is_prefix p' s'
  | String _ _, EmptyString => false
  end.

Fixpoint is_infix (p s : string) : bool :=
  is_prefix p s ||
  match s with
  | EmptyString => false
  | String _ s' => is_infix p s'
  end.

(** ** Notions used to state the properties of the drivers *)

(** the value of the output pixel of linear index [k] *)
Definition pixel_value (s : list float) (ncols nrows : Z)
    (gx gy : list float) (k : Z) : option float :=
  Cpu.sobel_filtered_pixel s (k / ncols) (k mod ncols) ncols nrows gx gy.

(** the value that the device stores at the linear index [k] *)
Definition device_value (c : fmad) (s : list float) (ncols nrows : Z)
    (gx gy : list float) (k : Z) : option float :=
  Gpu.device_pixel c s (k / ncols) (k mod ncols) ncols nrows gx gy.

(** [d[k] = f k] *)
Definition store (f : Z -> option float) (d : list float) (k : Z)
  : option (list float) :=
  v ← f k; write d k v.

(** [r] holds, at every pixel, the value of the evaluator on [s] *)
Definition sobel_image (s : list float) (ncols nrows : Z)
    (gx gy : list float) (r : list float) : Prop :=
  Z.of_nat (length r) = nrows * ncols /\
  forall i j, 0 <= i < nrows -> 0 <= j < ncols ->
    exists v, Cpu.sobel_filtered_pixel s i j ncols nrows gx gy = Some v /\
              read r (i * ncols + j) = Some v.

(** [r] holds, at every pixel, the value that the device computes on [s] *)
Definition device_image (c : fmad) (s : list float) (ncols nrows : Z)
    (gx gy : list float) (r : list float) : Prop :=
  Z.of_nat (length r) = nrows * ncols /\
  forall i j, 0 <= i < nrows -> 0 <= j < ncols ->
    exists v, Gpu.device_pixel c s i j ncols nrows gx gy = Some v /\
              read r (i * ncols + j) = Some v.

(** the sum of the nine weights of [g] times one sample [v], accumulated
    as the evaluator does where no neighbour is skipped *)
Definition uniform_sum (g : list float) (v : float) : float :=
  fold_left (fun t w => F32.add t (F32.mul w v)) g F32.zero.

(** the gradient magnitude computed from these sums *)
Definition uniform_magnitude (v : float) : float :=
  F32.sqrt (F32.add (F32.mul (uniform_sum Gx v) (uniform_sum Gx v))
                    (F32.mul (uniform_sum Gy v) (uniform_sum Gy v))).

(** the same magnitude in the arithmetic of the device *)
Definition device_uniform_magnitude (c : fmad) (v : float) : float :=
  F32.sqrt (sum_of_squares c
              (fold_left (fun t w => mul_add c w v t) Gx F32.zero)
              (fold_left (fun t w => mul_add c w v t) Gy F32.zero)).

(** two [float]s are the same datum *)
Definition same_float (x y : float) : bool :=
  match x, y with
  | S754_zero a, S754_zero b => Bool.eqb a b
  | S754_infinity a, S754_infinity b => Bool.eqb a b
  | S754_nan, S754_nan => true
  | S754_finite a m e, S754_finite b m' e' =>
      Bool.eqb a b && Pos.eqb m m' && Z.eqb e e'
  | _, _ => false
  end.


(** the indices visited by the unit [u], when its loop ends within [fuel]
    iterations *)
Definition visits (fuel : nat) (n : Z) (u : unit_ids) : list Z :=
  match grid_stride fuel n (unit_stride u) (unit_start u) with
  | Done l => l
  | _ => []
  end.

(** ** The sweep script [sobel_gpu_run.sh] *)

(** [N_BLOCKS=(1 4 16 64 256 1024)] and
    [N_THREADS_PER_BLOCK=(32 64 128 256 512 1024)] *)
Definition N_BLOCKS : list string :=
  ["1"; "4"; "16"; "64"; "256"; "1024"]%string.
Definition N_THREADS_PER_BLOCK : list string :=
  ["32"; "64"; "128"; "256"; "512"; "1024"]%string.

(** the two nested [for] loops of the script: the arguments
    ["$nBlocks" "$nThreadsPerBlock"] of the successive runs of the GPU
    program *)
Definition sweep_runs : list (list string) :=
  nBlocks ← N_BLOCKS;
  (fun nThreadsPerBlock => [nBlocks; nThreadsPerBlock])
    <$> N_THREADS_PER_BLOCK.

(** ** The lines that the programs print *)

(** [printf(" Read data from the file %s \n", input_fname)] *)
Definition read_line (cfg : config) : string :=
  (" Read data from the file " ++ input_fname cfg ++ " " ++ nl)%string.

(** [std::cout << "Number of threads: " << num_threads
    << ", Elapsed time is: " << elapsed.count() << " seconds" << std::endl] *)
Definition timing_line (w : world) (num_threads : Z) : string :=
  ("Number of threads: " ++ decimal num_threads
     ++ ", Elapsed time is: " ++ elapsed w num_threads
     ++ " seconds" ++ nl)%string.

(** [printf(" GPU configuration: %d blocks, %d threads per block \n",
    nBlocks, nThreadsPerBlock)] *)
Definition configuration_line (nBlocks nThreadsPerBlock : Z) : string :=
  (" GPU configuration: " ++ decimal nBlocks
     ++ " blocks, " ++ decimal nThreadsPerBlock
     ++ " threads per block " ++ nl)%string.

(** [printf(" Wrote the output file %s \n", output_fname)] *)
Definition wrote_line (cfg : config) : string :=
  (" Wrote the output file " ++ output_fname cfg ++ " " ++ nl)%string.

(** ** Further notions used to state properties *)


(** the calls to the CUDA runtime that [main] checks before the launch *)
Definition allocations : list cuda_call :=
  [MallocManaged_in; MallocManaged_out; MallocManaged_gx; MallocManaged_gy].



(** * Properties *)

(** ** Machine integers *)

Lemma wrap32_id z : INT_MIN <= z <= INT_MAX -> wrap32 z = z.
Proof.
  unfold wrap32, INT_MIN, INT_MAX. intros H.
  rewrite Z.mod_small by lia. lia.
Qed.

Lemma uwrap32_id z : 0 <= z < 4294967296 -> uwrap32 z = z.
Proof. unfold uwrap32. intros H. now rewrite Z.mod_small. Qed.

Lemma wrap32_range z : INT_MIN <= wrap32 z <= INT_MAX.
Proof.
  unfold wrap32, INT_MIN, INT_MAX.
  pose proof (Z.mod_pos_bound (z + 2147483648) 4294967296). lia.
Qed.

Lemma wrap32_add_l a b : wrap32 (wrap32 a + b) = wrap32 (a + b).
Proof.
  unfold wrap32.
  replace ((a + 2147483648) mod 4294967296 - 2147483648 + b + 2147483648)
    with ((a + 2147483648) mod 4294967296 + b) by lia.
  rewrite Zplus_mod_idemp_l. f_equal. f_equal. lia.
Qed.

(** ** Sample runs *)

Example center_of_impulse :
  Cpu.sobel_filtered_pixel
    (map F32.of_Z [0; 0; 0; 0; 1; 0; 0; 0; 0]) 1 1 3 3 Gx Gy
  = Some F32.zero.
Proof. vm_compute. reflexivity. Qed.

Example above_center_of_impulse :
  Gpu.sobel_filtered_pixel
    (map F32.of_Z [0; 0; 0; 0; 1; 0; 0; 0; 0]) 0 1 3 3 Gx Gy
  = Some (F32.of_Z 2).
Proof. vm_compute. reflexivity. Qed.

Example cpu_gpu_agree_4x3 :
  let s := F32.of_Z <$> [0; 1; 2; 3; 9; 1; 0; 2; 5; 5; 5; 1] in
  let d := replicate 12 F32.one in
  exists r, do_sobel_filtering s d 4 3 = Some r /\
            launch Fmad_off 12 (units 2 3) s d 12 3 4 Gx Gy = Done r /\
            launch Fmad_off 12 (units 1 5) s d 12 3 4 Gx Gy = Done r /\
            do_sobel_filtering_omp (reverse (all_pixels 4 3)) s d 4 3 = Some r.
Proof. eexists. repeat split; vm_compute; reflexivity. Qed.

(** ** Loops that can fail *)

Section FoldlM.
Context {A B : Type}.
Implicit Types (f : B -> A -> option B) (l : list A).

Lemma foldlM_app f b l1 l2 :
  foldlM f b (l1 ++ l2) =
  match foldlM f b l1 with Some b' => foldlM f b' l2 | None => None end.
Proof.
  revert b. induction l1 as [|a l1 IH]; intros b; simpl; [reflexivity|].
  destruct (f b a); [apply IH | reflexivity].
Qed.

Lemma foldlM_ext f g b l :
  (forall b a, a ∈ l -> f b a = g b a) -> foldlM f b l = foldlM g b l.
Proof.
  revert b. induction l as [|a l IH]; intros b H; simpl; [reflexivity|].
  rewrite (H b a) by constructor. destruct (g b a); [|reflexivity].
  apply IH. intros b' a' Ha'. apply H. now constructor.
Qed.

(** an invariant kept by every step that succeeds is kept by the loop *)
Lemma foldlM_invariant (P : B -> Prop) f b l b' :
  (forall b a b', a ∈ l -> P b -> f b a = Some b' -> P b') ->
  P b -> foldlM f b l = Some b' -> P b'.
Proof.
  revert b. induction l as [|a l IH]; intros b Hstep Hb; simpl.
  - now intros [= <-].
  - destruct (f b a) as [b1|] eqn:E; [|discriminate].
    apply IH.
    + intros b2 a2 b3 Ha2. apply Hstep. now constructor.
    + apply (Hstep b a b1); [constructor | assumption..].
Qed.

(** a loop all of whose steps succeed succeeds *)
Lemma foldlM_total (P : B -> Prop) f b l :
  (forall b a, a ∈ l -> P b -> exists b', f b a = Some b' /\ P b') ->
  P b -> exists b', foldlM f b l = Some b' /\ P b'.
Proof.
  revert b. induction l as [|a l IH]; intros b Hstep Hb; simpl.
  - now exists b.
  - destruct (Hstep b a) as (b1 & -> & Hb1); [constructor | assumption |].
    apply IH; [|assumption].
    intros b2 a2 Ha2. apply Hstep. now constructor.
Qed.
End FoldlM.

(** a loop nest is a loop over the pairs of indices *)
Lemma foldlM_bind {A B C} (f : C -> B -> option C) (g : A -> list B)
    (c : C) (l : list A) :
  foldlM (fun c a => foldlM f c (g a)) c l = foldlM f c (l ≫= g).
Proof.
  revert c. induction l as [|a l IH]; intros c; simpl; [reflexivity|].
  rewrite foldlM_app. destruct (foldlM f c (g a)); [apply IH | reflexivity].
Qed.

Lemma foldlM_fmap {A B C} (f : C -> B -> option C) (g : A -> B) c (l : list A) :
  foldlM f c (g <$> l) = foldlM (fun c a => f c (g a)) c l.
Proof.
  revert c. induction l as [|a l IH]; intros c; simpl; [reflexivity|].
  destruct (f c (g a)); [apply IH | reflexivity].
Qed.

(** two accumulators updated in one loop, against one loop for each *)
Lemma foldlM_pair {A B C} (f : B -> A -> option B) (g : C -> A -> option C)
    (h : B * C -> A -> option (B * C)) (l : list A) :
  (forall b c a, h (b, c) a =
                 match f b a with
                 | Some b' => match g c a with
                              | Some c' => Some (b', c')
                              | None => None
                              end
                 | None => None
                 end) ->
  forall b c,
    foldlM h (b, c) l =
    match foldlM f b l with
    | Some b' => match foldlM g c l with
                 | Some c' => Some (b', c')
                 | None => None
                 end
    | None => None
    end.
Proof.
  intros Hh. induction l as [|a l IH]; intros b c; simpl; [reflexivity|].
  rewrite Hh. destruct (f b a) as [b1|], (g c a) as [c1|]; try reflexivity.
  - apply IH.
  - now destruct (foldlM f b1 l).
Qed.

(** ** Buffers: reading after writing *)

Lemma read_Some {A} (s : list A) k :
  0 <= k < Z.of_nat (length s) -> exists v, read s k = Some v.
Proof.
  intros H. unfold read. rewrite (proj2 (Z.leb_le 0 k)) by lia.
  apply lookup_lt_is_Some. lia.
Qed.

Lemma read_None {A} (s : list A) k :
  ¬ (0 <= k < Z.of_nat (length s)) -> read s k = None.
Proof.
  intros H. unfold read. destruct (Z.leb_spec 0 k); [|reflexivity].
  apply lookup_ge_None. lia.
Qed.

Lemma write_Some {A} (d : list A) k v :
  0 <= k < Z.of_nat (length d) -> write d k v = Some (<[Z.to_nat k := v]> d).
Proof.
  intros H. unfold write.
  rewrite (proj2 (Z.leb_le 0 k)), (proj2 (Z.ltb_lt k _)) by lia. reflexivity.
Qed.

Lemma write_None {A} (d : list A) k v :
  ¬ (0 <= k < Z.of_nat (length d)) -> write d k v = None.
Proof.
  intros H. unfold write.
  destruct (Z.leb_spec 0 k), (Z.ltb_spec k (Z.of_nat (length d)));
    simpl; try reflexivity. lia.
Qed.

Lemma write_inv {A} (d d' : list A) k v :
  write d k v = Some d' ->
  0 <= k < Z.of_nat (length d) /\ d' = <[Z.to_nat k := v]> d.
Proof.
  unfold write.
  destruct (Z.leb_spec 0 k), (Z.ltb_spec k (Z.of_nat (length d)));
    simpl; intros [= <-]. split; [lia | reflexivity].
Qed.

Lemma write_length {A} (d d' : list A) k v :
  write d k v = Some d' -> length d' = length d.
Proof. intros (_ & ->)%write_inv. apply length_insert. Qed.

Lemma read_write {A} (d d' : list A) k v k' :
  write d k v = Some d' ->
  read d' k' = if decide (k' = k) then Some v else read d k'.
Proof.
  intros (Hk & ->)%write_inv. unfold read.
  destruct (decide (k' = k)) as [->|Hne].
  - rewrite (proj2 (Z.leb_le 0 k)) by lia.
    apply list_lookup_insert_eq. lia.
  - destruct (Z.leb_spec 0 k'); [|reflexivity].
    apply list_lookup_insert_ne. lia.
Qed.

(** two buffers of one length that read alike are the same buffer *)
Lemma buffer_eq {A} (d1 d2 : list A) :
  (forall k, 0 <= k -> read d1 k = read d2 k) -> d1 = d2.
Proof.
  intros H. apply list_eq. intros n.
  specialize (H (Z.of_nat n)). unfold read in H.
  rewrite (proj2 (Z.leb_le 0 _)), Nat2Z.id in H by lia. apply H. lia.
Qed.

(** ** The two evaluators are one function *)

Lemma stencil_step2_pair s i j ncols nrows gx gy y a b x :
  Gpu.stencil_step2 s i j ncols nrows gx gy y (a, b) x =
  match stencil_step s i j ncols nrows gx y a x with
  | Some a' => match stencil_step s i j ncols nrows gy y b x with
               | Some b' => Some (a', b')
               | None => None
               end
  | None => None
  end.
Proof.
  unfold Gpu.stencil_step2, stencil_step.
  destruct (in_bounds _ _ _ _); [|reflexivity]. simpl.
  destruct (read gx _); simpl; [|reflexivity].
  destruct (read s _); simpl; [|reflexivity].
  destruct (read gy _); reflexivity.
Qed.

Lemma gpu_pixel_is_cpu_pixel s i j ncols nrows gx gy :
  Gpu.sobel_filtered_pixel s i j ncols nrows gx gy =
  Cpu.sobel_filtered_pixel s i j ncols nrows gx gy.
Proof.
  unfold Gpu.sobel_filtered_pixel, Cpu.sobel_filtered_pixel, stencil_sum.
  rewrite (foldlM_pair
             (fun t y => foldlM (stencil_step s i j ncols nrows gx y) t offsets)
             (fun t y => foldlM (stencil_step s i j ncols nrows gy y) t offsets)).
  - generalize (foldlM (fun t y => foldlM (stencil_step s i j ncols nrows gy y)
                                          t offsets) F32.zero offsets).
    generalize (foldlM (fun t y => foldlM (stencil_step s i j ncols nrows gx y)
                                          t offsets) F32.zero offsets).
    intros [t|] [ty|]; reflexivity.
  - intros b c y. apply foldlM_pair. intros. apply stencil_step2_pair.
Qed.

(** compiled with [--fmad=false], the device runs the evaluator of the
    source operation by operation *)
Lemma device_pixel_off s i j ncols nrows gx gy :
  Gpu.device_pixel Fmad_off s i j ncols nrows gx gy =
  Gpu.sobel_filtered_pixel s i j ncols nrows gx gy.
Proof. reflexivity. Qed.

Lemma device_pixel_off_is_cpu_pixel s i j ncols nrows gx gy :
  Gpu.device_pixel Fmad_off s i j ncols nrows gx gy =
  Cpu.sobel_filtered_pixel s i j ncols nrows gx gy.
Proof. rewrite device_pixel_off. apply gpu_pixel_is_cpu_pixel. Qed.

Lemma weight_index_small y x :
  y ∈ offsets -> x ∈ offsets -> weight_index y x = (y + 1) * 3 + (x + 1).
Proof.
  unfold offsets. intros Hy Hx.
  repeat (apply elem_of_cons in Hy as [->|Hy]);
    repeat (apply elem_of_cons in Hx as [->|Hx]);
    try reflexivity; try (now apply elem_of_nil in Hx);
    now apply elem_of_nil in Hy.
Qed.

Lemma offsets_bound y : y ∈ offsets -> -1 <= y <= 1.
Proof.
  unfold offsets. intros Hy.
  repeat (apply elem_of_cons in Hy as [->|Hy]); try lia.
  now apply elem_of_nil in Hy.
Qed.

(** a skipping loop is a loop over the elements that are not skipped *)
Lemma foldlM_filter {A B} (p : A -> bool) (f : B -> A -> option B)
    (b : B) (l : list A) :
  foldlM (fun b a => if p a then f b a else Some b) b l =
  foldlM f b (filter (fun a => p a = true) l).
Proof.
  revert b. induction l as [|a l IH]; intros b; simpl; [reflexivity|].
  rewrite filter_cons. destruct (p a) eqn:E.
  - rewrite decide_True by reflexivity. simpl.
    destruct (f b a); [apply IH | reflexivity].
  - rewrite decide_False by discriminate. apply IH.
Qed.

Lemma stencil_sum_weighted_sum s i j ncols nrows g :
  0 <= i < nrows -> 0 <= j < ncols -> nrows <= INT_MAX -> ncols <= INT_MAX ->
  stencil_sum s i j ncols nrows g =
  weighted_sum s g (taps i j ncols nrows).
Proof.
  intros Hi Hj Hr Hc. unfold stencil_sum, weighted_sum, taps, contributing.
  rewrite foldlM_fmap. cbn [fst snd].
  rewrite <- foldlM_filter. unfold neighbourhood.
  rewrite <- (foldlM_bind
                (fun t d => if in_bounds (i + fst d) (j + snd d) ncols nrows
                            then _ else Some t)
                (fun dy => (fun dx => (dy, dx)) <$> offsets)).
  apply foldlM_ext. intros t y Hy.
  generalize t. clear t.
  assert (Hfm : forall (l : list Z) t,
             (forall x, x ∈ l -> x ∈ offsets) ->
             foldlM (stencil_step s i j ncols nrows g y) t l =
             foldlM (fun t d =>
                       if in_bounds (i + fst d) (j + snd d) ncols nrows
                       then w ← read g ((fst d + 1) * 3 + (snd d + 1));
                            v ← read s (neighbor_index (i + fst d)
                                                       (j + snd d) ncols);
                            Some (F32.add t (F32.mul w v))
                       else Some t) t ((fun dx => (y, dx)) <$> l)).
  { induction l as [|x l IH]; intros t Hl; simpl; [reflexivity|].
    assert (Hx : x ∈ offsets) by (apply Hl; constructor).
    pose proof (offsets_bound _ Hy). pose proof (offsets_bound _ Hx).
    unfold stencil_step at 1.
    rewrite !wrap32_id, weight_index_small
      by (assumption || unfold INT_MIN, INT_MAX in *; lia).
    destruct (in_bounds _ _ _ _); simpl.
    - destruct (read g _); simpl; [|reflexivity].
      destruct (read s _); simpl; [|reflexivity].
      apply IH. intros. apply Hl. now constructor.
    - apply IH. intros. apply Hl. now constructor. }
  intros t. apply Hfm. auto.
Qed.

Lemma cpu_pixel_is_evaluate s i j ncols nrows gx gy :
  0 <= i < nrows -> 0 <= j < ncols -> nrows <= INT_MAX -> ncols <= INT_MAX ->
  Cpu.sobel_filtered_pixel s i j ncols nrows gx gy =
  evaluate s i j ncols nrows gx gy.
Proof.
  intros. unfold Cpu.sobel_filtered_pixel, evaluate.
  now rewrite !stencil_sum_weighted_sum.
Qed.

(** ** The bounds check *)

Lemma in_bounds_true neighbor_i neighbor_j ncols nrows :
  in_bounds neighbor_i neighbor_j ncols nrows = true <->
  0 <= neighbor_i < nrows /\ 0 <= neighbor_j < ncols.
Proof.
  unfold in_bounds. rewrite !andb_true_iff, !Z.leb_le, !Z.ltb_lt. tauto.
Qed.

Lemma dims_fit nrows ncols :
  0 < nrows -> 0 < ncols -> nrows * ncols <= INT_MAX ->
  nrows <= INT_MAX /\ ncols <= INT_MAX.
Proof.
  intros Hr Hc Hn.
  assert (nrows * 1 <= nrows * ncols) by (apply Z.mul_le_mono_nonneg_l; lia).
  assert (1 * ncols <= nrows * ncols) by (apply Z.mul_le_mono_nonneg_r; lia).
  lia.
Qed.

(** where the product of the dimensions fits, the index of a neighbour that
    passed the check is computed without overflow and lies in the buffer *)
Lemma neighbor_index_exact neighbor_i neighbor_j ncols nrows :
  0 <= neighbor_i < nrows -> 0 <= neighbor_j < ncols ->
  nrows * ncols <= 2147483648 ->
  neighbor_index neighbor_i neighbor_j ncols = neighbor_i * ncols + neighbor_j
  /\ 0 <= neighbor_i * ncols + neighbor_j < nrows * ncols.
Proof.
  intros Hi Hj Hn.
  assert (0 <= neighbor_i * ncols) by nia.
  assert (neighbor_i * ncols + ncols <= nrows * ncols) by nia.
  unfold neighbor_index.
  rewrite (wrap32_id (neighbor_i * ncols)), wrap32_id
    by (unfold INT_MIN, INT_MAX; lia).
  lia.
Qed.

Lemma elem_of_neighbourhood d :
  d ∈ neighbourhood <-> fst d ∈ offsets /\ snd d ∈ offsets.
Proof.
  unfold neighbourhood. rewrite list_elem_of_bind. split.
  - intros (dy & Hd & Hdy). apply list_elem_of_fmap in Hd as (dx & -> & Hdx).
    now split.
  - intros [Hy Hx]. exists (fst d). split; [|assumption].
    apply list_elem_of_fmap. exists (snd d). split; [|assumption].
    now destruct d.
Qed.

Lemma elem_of_contributing d row col cols rows :
  d ∈ contributing row col cols rows <->
  d ∈ neighbourhood /\
  0 <= row + fst d < rows /\ 0 <= col + snd d < cols.
Proof.
  unfold contributing. rewrite list_elem_of_filter, in_bounds_true. tauto.
Qed.

Lemma weighted_sum_total s i j ncols nrows g :
  Z.of_nat (length s) = nrows * ncols -> nrows * ncols <= 2147483648 ->
  length g = 9%nat ->
  exists t, weighted_sum s g (taps i j ncols nrows) = Some t.
Proof.
  intros Hs Hn Hg. unfold weighted_sum, taps. rewrite foldlM_fmap.
  cbn [fst snd].
  destruct (foldlM_total (fun _ => True)
              (fun t d =>
                 w ← read g ((fst d + 1) * 3 + (snd d + 1));
                 v ← read s (neighbor_index (i + fst d) (j + snd d) ncols);
                 Some (F32.add t (F32.mul w v)))
              F32.zero (contributing i j ncols nrows)) as (t & Ht & _);
    [|exact I|now exists t].
  intros t d Hd _.
  apply elem_of_contributing in Hd as (Hd & Hi & Hj).
  apply elem_of_neighbourhood in Hd as [Hy Hx].
  apply offsets_bound in Hy, Hx.
  destruct (read_Some g ((fst d + 1) * 3 + (snd d + 1))) as [w ->];
    [rewrite Hg; lia|].
  destruct (neighbor_index_exact _ _ _ _ Hi Hj Hn) as [-> Hk].
  destruct (read_Some s ((i + fst d) * ncols + (j + snd d))) as [v ->];
    [lia|].
  simpl. eauto.
Qed.

(** the evaluator returns a value at every pixel of the image *)
Lemma cpu_pixel_total s i j ncols nrows gx gy :
  Z.of_nat (length s) = nrows * ncols ->
  nrows <= INT_MAX -> ncols <= INT_MAX -> nrows * ncols <= 2147483648 ->
  0 <= i < nrows -> 0 <= j < ncols ->
  length gx = 9%nat -> length gy = 9%nat ->
  exists v, Cpu.sobel_filtered_pixel s i j ncols nrows gx gy = Some v.
Proof.
  intros Hs Hr Hc Hn Hi Hj Hgx Hgy.
  rewrite cpu_pixel_is_evaluate by assumption. unfold evaluate.
  destruct (weighted_sum_total s i j ncols nrows gx Hs Hn Hgx) as [t ->].
  destruct (weighted_sum_total s i j ncols nrows gy Hs Hn Hgy) as [ty ->].
  simpl. eauto.
Qed.

(** ** The evaluators compute the sums of the specification *)

Lemma read_nth {A} (s : list A) k (x : A) :
  0 <= k < Z.of_nat (length s) -> read s k = Some (nth (Z.to_nat k) s x).
Proof.
  intros Hk. unfold read. rewrite (proj2 (Z.leb_le 0 k)) by lia.
  destruct (lookup_lt_is_Some_2 s (Z.to_nat k)) as [v Hv]; [lia|].
  now rewrite Hv, nth_lookup, Hv.
Qed.

(** the two nested loops over the offsets are one loop over the window,
    where the body does not fail *)
Lemma foldlM_window {B} (step : B -> Z -> Z -> option B)
    (pure : B -> Z * Z -> B) :
  (forall b d, d ∈ window -> step b (fst d) (snd d) = Some (pure b d)) ->
  forall b,
    foldlM (fun b y => foldlM (fun b x => step b y x) b offsets) b offsets
    = Some (fold_left pure window b).
Proof.
  intros H b.
  assert (H' : forall b dy dx, (dy, dx) ∈ window ->
                               step b dy dx = Some (pure b (dy, dx)))
    by (intros b' dy dx Hd; apply (H b' (dy, dx) Hd)).
  unfold offsets, window. cbn [foldlM fold_left].
  repeat (rewrite H' by (unfold window; repeat constructor)).
  reflexivity.
Qed.

Lemma fold_left_pair {A B C} (f : B -> A -> B) (g : C -> A -> C)
    (l : list A) b c :
  fold_left (fun p a => (f (fst p) a, g (snd p) a)) l (b, c)
  = (fold_left f l b, fold_left g l c).
Proof.
  revert b c. induction l as [|a l IH]; intros b c; [reflexivity|].
  simpl. apply IH.
Qed.

Lemma fold_left_filter {A B} (p : A -> bool) (f : B -> A -> B)
    (l : list A) b :
  fold_left (fun b a => if p a then f b a else b) l b
  = fold_left f (filter (fun a => p a = true) l) b.
Proof.
  revert b. induction l as [|a l IH]; intros b; [reflexivity|].
  rewrite filter_cons. simpl. destruct (p a) eqn:E.
  - rewrite decide_True by reflexivity. simpl. apply IH.
  - rewrite decide_False by discriminate. apply IH.
Qed.

Lemma window_offsets d :
  d ∈ window ->
  -1 <= fst d <= 1 /\ -1 <= snd d <= 1 /\
  weight_index (fst d) (snd d) = (fst d + 1) * 3 + (snd d + 1).
Proof.
  unfold window. intros Hd.
  repeat (apply elem_of_cons in Hd as [->|Hd]);
    try (now apply elem_of_nil in Hd);
    (split; [simpl; lia|split; [simpl; lia|reflexivity]]).
Qed.

(** what the body of the loops does at an offset of the window: the
    position of the neighbour does not wrap, the test is the test of the
    specification, and the two reads return the weight and the sample *)
Lemma window_access s i j ncols nrows g d :
  d ∈ window ->
  0 <= i < nrows -> 0 <= j < ncols ->
  nrows <= INT_MAX -> ncols <= INT_MAX -> nrows * ncols <= 2147483648 ->
  Z.of_nat (length s) = nrows * ncols -> length g = 9%nat ->
  wrap32 (i + fst d) = i + fst d /\ wrap32 (j + snd d) = j + snd d /\
  in_bounds (i + fst d) (j + snd d) ncols nrows
    = inside nrows ncols (i + fst d) (j + snd d) /\
  read g (weight_index (fst d) (snd d)) = Some (weight_at g (fst d) (snd d)) /\
  (inside nrows ncols (i + fst d) (j + snd d) = true ->
   read s (neighbor_index (i + fst d) (j + snd d) ncols)
   = Some (sample_at s ncols (i + fst d) (j + snd d))).
Proof.
  intros Hd Hi Hj Hr Hc Hn Hs Hg.
  destruct (window_offsets d Hd) as (Hy & Hx & Hw).
  unfold INT_MAX in *.
  split; [apply wrap32_id; unfold INT_MIN, INT_MAX; lia|].
  split; [apply wrap32_id; unfold INT_MIN, INT_MAX; lia|].
  split; [reflexivity|]. split.
  - rewrite Hw. apply read_nth. rewrite Hg. lia.
  - intros Hin. apply in_bounds_true in Hin as [Hi' Hj'].
    destruct (neighbor_index_exact _ _ _ _ Hi' Hj' Hn) as [-> Hk].
    apply read_nth. lia.
Qed.

Lemma stencil_sum_spec s i j ncols nrows g :
  0 <= i < nrows -> 0 <= j < ncols ->
  nrows <= INT_MAX -> ncols <= INT_MAX -> nrows * ncols <= 2147483648 ->
  Z.of_nat (length s) = nrows * ncols -> length g = 9%nat ->
  stencil_sum s i j ncols nrows g
  = Some (directional_sum Fmad_off s g nrows ncols i j).
Proof.
  intros Hi Hj Hr Hc Hn Hs Hg. unfold stencil_sum, directional_sum.
  apply (foldlM_window (fun t y x => stencil_step s i j ncols nrows g y t x)).
  intros t d Hd.
  destruct (window_access s i j ncols nrows g d Hd Hi Hj Hr Hc Hn Hs Hg)
    as (Hwi & Hwj & Hin & Hw & Hv).
  unfold stencil_step. rewrite Hwi, Hwj, Hin.
  destruct (inside nrows ncols (i + fst d) (j + snd d)); [|reflexivity].
  now rewrite Hw, (Hv eq_refl).
Qed.

(** the CPU evaluator returns the gradient magnitude of the specification,
    in the arithmetic of the host *)
Lemma cpu_pixel_spec s i j ncols nrows gx gy :
  0 <= i < nrows -> 0 <= j < ncols ->
  nrows <= INT_MAX -> ncols <= INT_MAX -> nrows * ncols <= 2147483648 ->
  Z.of_nat (length s) = nrows * ncols ->
  length gx = 9%nat -> length gy = 9%nat ->
  Cpu.sobel_filtered_pixel s i j ncols nrows gx gy
  = Some (gradient_magnitude Fmad_off s nrows ncols i j gx gy).
Proof.
  intros. unfold Cpu.sobel_filtered_pixel.
  now rewrite !stencil_sum_spec.
Qed.

(** the GPU evaluator returns the gradient magnitude of the specification,
    in the arithmetic of the device *)
Lemma device_pixel_spec c s i j ncols nrows gx gy :
  0 <= i < nrows -> 0 <= j < ncols ->
  nrows <= INT_MAX -> ncols <= INT_MAX -> nrows * ncols <= 2147483648 ->
  Z.of_nat (length s) = nrows * ncols ->
  length gx = 9%nat -> length gy = 9%nat ->
  Gpu.device_pixel c s i j ncols nrows gx gy
  = Some (gradient_magnitude c s nrows ncols i j gx gy).
Proof.
  intros Hi Hj Hr Hc Hn Hs Hgx Hgy.
  unfold Gpu.device_pixel, gradient_magnitude, directional_sum.
  pose (term := fun (g : list float) (sum : float) (d : Z * Z) =>
          if inside nrows ncols (i + fst d) (j + snd d)
          then mul_add c (weight_at g (fst d) (snd d))
                 (sample_at s ncols (i + fst d) (j + snd d)) sum
          else sum).
  rewrite (foldlM_window
             (fun acc y x => Gpu.device_step2 c s i j ncols nrows gx gy y acc x)
             (fun acc d => (term gx (fst acc) d, term gy (snd acc) d))).
  - cbn [mbind option_bind].
    now rewrite (fold_left_pair (term gx) (term gy)).
  - intros acc d Hd.
    destruct (window_access s i j ncols nrows gx d Hd Hi Hj Hr Hc Hn Hs Hgx)
      as (Hwi & Hwj & Hin & Hwx & Hv).
    destruct (window_access s i j ncols nrows gy d Hd Hi Hj Hr Hc Hn Hs Hgy)
      as (_ & _ & _ & Hwy & _).
    unfold Gpu.device_step2, term. rewrite Hwi, Hwj, Hin.
    destruct (inside nrows ncols (i + fst d) (j + snd d)); [|now destruct acc].
    now rewrite Hwx, Hwy, (Hv eq_refl).
Qed.

Lemma device_pixel_total c s i j ncols nrows gx gy :
  Z.of_nat (length s) = nrows * ncols ->
  nrows <= INT_MAX -> ncols <= INT_MAX -> nrows * ncols <= 2147483648 ->
  0 <= i < nrows -> 0 <= j < ncols ->
  length gx = 9%nat -> length gy = 9%nat ->
  exists v, Gpu.device_pixel c s i j ncols nrows gx gy = Some v.
Proof. intros. rewrite device_pixel_spec by assumption. eauto. Qed.

(** the success of a loop is the success of its passes, where a pass fails
    or not whatever is accumulated *)
Lemma foldlM_is_Some {A B B'} (f : B -> A -> option B)
    (f' : B' -> A -> option B') (l : list A) :
  (forall b b' a, a ∈ l -> is_Some (f b a) <-> is_Some (f' b' a)) ->
  forall b b', is_Some (foldlM f b l) <-> is_Some (foldlM f' b' l).
Proof.
  induction l as [|a l IH]; intros H b b'; simpl.
  - split; eauto.
  - assert (Ha : is_Some (f b a) <-> is_Some (f' b' a))
      by (apply H; constructor).
    destruct (f b a) as [b1|], (f' b' a) as [b1'|].
    + apply IH. intros. apply H. now constructor.
    + destruct Ha as [Ha _]. destruct Ha as [? [=]]. eauto.
    + destruct Ha as [_ Ha]. destruct Ha as [? [=]]. eauto.
    + split; intros [? [=]].
Qed.

(** the device performs the accesses of the source, however its arithmetic
    was compiled: it returns a value exactly when the evaluator of the CPU
    program does *)
Lemma device_pixel_is_Some c s i j ncols nrows gx gy :
  is_Some (Gpu.device_pixel c s i j ncols nrows gx gy) <->
  is_Some (Cpu.sobel_filtered_pixel s i j ncols nrows gx gy).
Proof.
  rewrite <- device_pixel_off_is_cpu_pixel. unfold Gpu.device_pixel.
  assert (Hfold : forall acc acc',
             is_Some (foldlM (fun acc y =>
                        foldlM (Gpu.device_step2 c s i j ncols nrows gx gy y)
                               acc offsets) acc offsets) <->
             is_Some (foldlM (fun acc y =>
                        foldlM (Gpu.device_step2 Fmad_off s i j ncols nrows
                                                 gx gy y)
                               acc offsets) acc' offsets)).
  { apply foldlM_is_Some. intros acc acc' y _.
    apply foldlM_is_Some. intros b b' x _.
    unfold Gpu.device_step2.
    destruct (in_bounds _ _ _ _); [|split; eauto].
    destruct (read gx _); [|split; intros [? [=]]].
    destruct (read s _); [|split; intros [? [=]]].
    destruct (read gy _); [|split; intros [? [=]]].
    split; eauto. }
  specialize (Hfold (F32.zero, F32.zero) (F32.zero, F32.zero)).
  destruct (foldlM _ _ offsets), (foldlM _ _ offsets); simpl;
    split; intros Hs; eauto;
    try (now apply Hfold in Hs; destruct Hs as [? [=]]);
    try (destruct Hs as [? [=]]).
  - exfalso. destruct (proj1 Hfold ltac:(eauto)) as [? [=]].
  - exfalso. destruct (proj2 Hfold ltac:(eauto)) as [? [=]].
Qed.

Lemma contributing_corner cols rows :
  2 <= rows -> 2 <= cols ->
  contributing 0 0 cols rows = [(0, 0); (0, 1); (1, 0); (1, 1)].
Proof.
  intros Hr Hc. unfold contributing.
  change neighbourhood
    with [(-1, -1); (-1, 0); (-1, 1); (0, -1); (0, 0); (0, 1);
          (1, -1); (1, 0); (1, 1)].
  repeat first
    [ rewrite filter_cons_True by (apply in_bounds_true; simpl; lia)
    | rewrite filter_cons_False by (rewrite in_bounds_true; simpl; lia) ].
  reflexivity.
Qed.

Lemma contributing_corner_only d cols rows :
  d ∈ contributing 0 0 cols rows -> d ∈ [(0, 0); (0, 1); (1, 0); (1, 1)].
Proof.
  intros (Hd & Hi & Hj)%elem_of_contributing.
  apply elem_of_neighbourhood in Hd as [Hy Hx].
  destruct d as [dy dx]. simpl in *. unfold offsets in *.
  repeat (apply elem_of_cons in Hy as [->|Hy]);
    repeat (apply elem_of_cons in Hx as [->|Hx]);
    try lia; try (now apply elem_of_nil in Hx);
    try (now apply elem_of_nil in Hy);
    repeat (first [apply list_elem_of_here | apply list_elem_of_further]).
Qed.

(** ** A sequence of stores *)

(** after the stores at [ks], the buffer holds [f k] at every [k] of [ks]
    and is unchanged elsewhere *)
Lemma stores_spec (f : Z -> option float) (ks : list Z) (d : list float) :
  Forall (fun k => 0 <= k < Z.of_nat (length d) /\ is_Some (f k)) ks ->
  exists d', foldlM (store f) d ks = Some d' /\
             length d' = length d /\
             forall k, read d' k = if decide (k ∈ ks) then f k else read d k.
Proof.
  revert d. induction ks as [|k ks IH]; intros d Hks.
  - exists d. split; [reflexivity|]. split; [reflexivity|]. intros k.
    rewrite decide_False; [reflexivity | apply not_elem_of_nil].
  - apply Forall_cons in Hks as [[Hk [v Hv]] Hks]. simpl.
    unfold store at 1. rewrite Hv. simpl. rewrite write_Some by assumption.
    assert (Hw : write d k v = Some (<[Z.to_nat k := v]> d))
      by now apply write_Some.
    destruct (IH (<[Z.to_nat k := v]> d)) as (d' & -> & Hlen & Hrd).
    { rewrite length_insert. exact Hks. }
    exists d'. split; [reflexivity|]. split.
    { now rewrite Hlen, length_insert. }
    intros k'. rewrite Hrd, (read_write _ _ _ _ k' Hw).
    destruct (decide (k' = k)) as [->|Hne].
    + rewrite (decide_True (P := k ∈ k :: ks)) by constructor.
      now destruct (decide (k ∈ ks)).
    + destruct (decide (k' ∈ ks)) as [Hin|Hnin].
      * rewrite decide_True by now constructor. reflexivity.
      * rewrite decide_False; [reflexivity|].
        rewrite elem_of_cons. tauto.
Qed.

(** a buffer of the size of the image every cell of which is stored once
    at least is the image of the evaluator *)
Lemma stores_cover_image s ncols nrows gx gy (ks : list Z) (d : list float) :
  0 <= nrows <= INT_MAX -> 0 <= ncols <= INT_MAX ->
  nrows * ncols <= 2147483648 ->
  Z.of_nat (length s) = nrows * ncols ->
  Z.of_nat (length d) = nrows * ncols ->
  length gx = 9%nat -> length gy = 9%nat ->
  (forall k, k ∈ ks <-> 0 <= k < nrows * ncols) ->
  exists r, foldlM (store (pixel_value s ncols nrows gx gy)) d ks = Some r /\
            sobel_image s ncols nrows gx gy r.
Proof.
  intros Hr Hc Hn Hs Hd Hgx Hgy Hks.
  assert (Hpix : forall k, 0 <= k < nrows * ncols ->
            0 <= k / ncols < nrows /\ 0 <= k mod ncols < ncols /\
            k = k / ncols * ncols + k mod ncols).
  { intros k Hk. assert (0 < ncols) by nia.
    pose proof (Z.mod_pos_bound k ncols ltac:(lia)).
    pose proof (Z.div_mod k ncols ltac:(lia)).
    assert (0 <= k / ncols) by (apply Z.div_pos; lia).
    assert (k / ncols < nrows) by (apply Z.div_lt_upper_bound; lia).
    lia. }
  destruct (stores_spec (pixel_value s ncols nrows gx gy) ks d)
    as (r & Hfold & Hlen & Hrd).
  { apply Forall_forall. intros k Hk. apply Hks in Hk. split; [lia|].
    destruct (Hpix k Hk) as (Hi & Hj & _).
    destruct (cpu_pixel_total s _ _ ncols nrows gx gy Hs (proj2 Hr) (proj2 Hc)
                                Hn Hi Hj Hgx Hgy)
      as [v Hv].
    unfold pixel_value. rewrite Hv. eauto. }
  exists r. split; [assumption|]. split; [lia|].
  intros i j Hi Hj.
  destruct (cpu_pixel_total s i j ncols nrows gx gy Hs (proj2 Hr) (proj2 Hc)
                                Hn Hi Hj Hgx Hgy)
    as [v Hv].
  exists v. split; [assumption|].
  assert (Hk : 0 <= i * ncols + j < nrows * ncols) by nia.
  rewrite Hrd, decide_True by now apply Hks.
  unfold pixel_value.
  replace ((i * ncols + j) / ncols) with i; [replace ((i * ncols + j) mod ncols) with j|].
  - assumption.
  - rewrite Z.add_comm, Z.mod_add by lia. now rewrite Z.mod_small.
  - rewrite Z.add_comm, Z.div_add by lia. rewrite Z.div_small; lia.
Qed.

(** there is one image of the evaluator *)
Lemma sobel_image_unique s ncols nrows gx gy r1 r2 :
  0 <= nrows -> 0 <= ncols ->
  sobel_image s ncols nrows gx gy r1 -> sobel_image s ncols nrows gx gy r2 ->
  r1 = r2.
Proof.
  intros Hr Hc [Hl1 H1] [Hl2 H2]. apply buffer_eq. intros k Hk.
  destruct (decide (k < nrows * ncols)) as [Hlt|Hge].
  - assert (0 < ncols) by nia.
    pose proof (Z.mod_pos_bound k ncols ltac:(lia)).
    pose proof (Z.div_mod k ncols ltac:(lia)).
    assert (0 <= k / ncols) by (apply Z.div_pos; lia).
    assert (k / ncols < nrows) by (apply Z.div_lt_upper_bound; lia).
    destruct (H1 (k / ncols) (k mod ncols)) as (v1 & Hv1 & Hr1); [lia..|].
    destruct (H2 (k / ncols) (k mod ncols)) as (v2 & Hv2 & Hr2); [lia..|].
    replace (k / ncols * ncols + k mod ncols) with k in * by lia.
    congruence.
  - rewrite !read_None by lia. reflexivity.
Qed.

(** ** The CPU sweep stores the image *)

Lemma elem_of_all_pixels i j ncols nrows :
  (i, j) ∈ all_pixels ncols nrows <-> 0 <= i < nrows /\ 0 <= j < ncols.
Proof.
  unfold all_pixels. rewrite list_elem_of_bind. split.
  - intros (i' & Hj & Hi). apply list_elem_of_fmap in Hj as (j' & [= -> ->] & Hj).
    apply elem_of_seqZ in Hi, Hj. lia.
  - intros [Hi Hj]. exists i. split; [|apply elem_of_seqZ; lia].
    apply list_elem_of_fmap. exists j. split; [reflexivity|].
    apply elem_of_seqZ; lia.
Qed.

Lemma do_sobel_filtering_omp_program_order inp out ncols nrows :
  do_sobel_filtering inp out ncols nrows =
  do_sobel_filtering_omp (all_pixels ncols nrows) inp out ncols nrows.
Proof.
  unfold do_sobel_filtering, do_sobel_filtering_omp, all_pixels.
  rewrite <- foldlM_bind. apply foldlM_ext. intros d i _.
  now rewrite foldlM_fmap.
Qed.

Lemma sweep_pixel_store inp ncols nrows out i j :
  0 <= i < nrows -> 0 <= j < ncols -> nrows * ncols <= 2147483648 ->
  sweep_pixel inp ncols nrows out (i, j) =
  store (pixel_value inp ncols nrows Gx Gy) out (i * ncols + j).
Proof.
  intros Hi Hj Hn. unfold sweep_pixel, store, pixel_value.
  destruct (neighbor_index_exact i j ncols nrows Hi Hj Hn) as [Hk _].
  unfold neighbor_index in Hk. rewrite Hk.
  replace ((i * ncols + j) / ncols) with i;
    [replace ((i * ncols + j) mod ncols) with j; [reflexivity|]|].
  - rewrite Z.add_comm, Z.mod_add by lia. now rewrite Z.mod_small.
  - rewrite Z.add_comm, Z.div_add by lia. rewrite Z.div_small; lia.
Qed.

(** the sweep, in whatever order the pixels are stored, returns the image
    of the evaluator *)
Lemma do_sobel_filtering_omp_image order inp out ncols nrows :
  0 <= nrows <= INT_MAX -> 0 <= ncols <= INT_MAX ->
  nrows * ncols <= 2147483648 ->
  Z.of_nat (length inp) = nrows * ncols ->
  Z.of_nat (length out) = nrows * ncols ->
  (forall p, p ∈ order <-> p ∈ all_pixels ncols nrows) ->
  exists r, do_sobel_filtering_omp order inp out ncols nrows = Some r /\
            sobel_image inp ncols nrows Gx Gy r.
Proof.
  intros Hr Hc Hn Hs Hd Hord.
  destruct (stores_cover_image inp ncols nrows Gx Gy
              ((fun p => fst p * ncols + snd p) <$> order) out)
    as (r & Hfold & Himg); try assumption; try reflexivity.
  - intros k. rewrite list_elem_of_fmap. split.
    + intros ([i j] & -> & Hp). apply Hord, elem_of_all_pixels in Hp.
      simpl. nia.
    + intros Hk. assert (0 < ncols) by nia.
      pose proof (Z.mod_pos_bound k ncols ltac:(lia)).
      pose proof (Z.div_mod k ncols ltac:(lia)).
      assert (0 <= k / ncols) by (apply Z.div_pos; lia).
      assert (k / ncols < nrows) by (apply Z.div_lt_upper_bound; lia).
      exists (k / ncols, k mod ncols). split; [simpl; lia|].
      apply Hord, elem_of_all_pixels. lia.
  - exists r. split; [|assumption].
    rewrite <- Hfold, foldlM_fmap. unfold do_sobel_filtering_omp.
    apply foldlM_ext. intros d [i j] Hp.
    apply Hord, elem_of_all_pixels in Hp as [Hi Hj].
    now apply sweep_pixel_store.
Qed.

(** ** The grid-stride loop *)

Lemma kernel_body_store c s nrows ncols gx gy idx d :
  0 <= idx < nrows * ncols -> 0 <= nrows -> nrows * ncols <= INT_MAX ->
  kernel_body c s nrows ncols gx gy idx d =
  store (device_value c s ncols nrows gx gy) d idx.
Proof.
  intros Hidx Hr Hn. assert (Hc : 0 < ncols) by nia.
  unfold kernel_body, store, device_value.
  rewrite (proj2 (Z.eqb_neq ncols 0)) by lia.
  rewrite Z.quot_div_nonneg, Z.rem_mod_nonneg by lia.
  pose proof (Z.mod_pos_bound idx ncols ltac:(lia)).
  pose proof (Z.div_mod idx ncols ltac:(lia)).
  assert (0 <= idx / ncols) by (apply Z.div_pos; lia).
  assert (idx / ncols < nrows) by (apply Z.div_lt_upper_bound; lia).
  unfold INT_MAX in Hn.
  rewrite (wrap32_id (idx / ncols)), (wrap32_id (idx mod ncols)),
    (wrap32_id (idx / ncols * ncols)), wrap32_id
    by (unfold INT_MIN, INT_MAX; nia).
  replace (idx / ncols * ncols + idx mod ncols) with idx by lia.
  reflexivity.
Qed.

(** the loop of a unit runs the body at the indices of [grid_stride] *)
Lemma kernel_loop_visits c s n nrows ncols gx gy stride fuel :
  forall idx d ks,
    grid_stride fuel n stride idx = Done ks ->
    kernel_loop c fuel s n nrows ncols gx gy stride idx d =
    match foldlM (fun d k => kernel_body c s nrows ncols gx gy k d) d ks with
    | Some d' => Done d'
    | None => Fault
    end.
Proof.
  induction fuel as [|fuel IH]; intros idx d ks; simpl.
  - destruct (idx <? n); [discriminate|]. now intros [= <-].
  - destruct (idx <? n); [|now intros [= <-]].
    destruct (grid_stride fuel n stride (wrap32 (idx + stride))) as [l| |] eqn:E;
      try discriminate.
    intros [= <-]. simpl.
    destruct (kernel_body c s nrows ncols gx gy idx d) as [d'|]; [|reflexivity].
    now apply IH.
Qed.

(** without overflow, a unit that starts at [idx] visits [idx],
    [idx + stride], ... below [n], once each, and stops *)
Lemma grid_stride_spec n stride fuel :
  0 < stride -> n + stride <= 2147483648 ->
  forall idx,
    0 <= idx -> (Z.to_nat (n - idx) <= fuel)%nat ->
    exists ks,
      grid_stride fuel n stride idx = Done ks /\
      (forall k, k ∈ ks <->
                 k < n /\ exists q, 0 <= q /\ k = idx + q * stride) /\
      NoDup ks.
Proof.
  intros Hs Hn. induction fuel as [|fuel IH]; intros idx Hidx Hfuel; simpl.
  - rewrite (proj2 (Z.ltb_ge idx n)) by lia. exists []. split; [reflexivity|].
    split; [|constructor]. intros k. rewrite elem_of_nil.
    split; [tauto|]. intros (Hk & q & Hq & ->). nia.
  - destruct (Z.ltb_spec idx n) as [Hlt|Hge].
    + rewrite wrap32_id by (unfold INT_MIN, INT_MAX; lia).
      destruct (IH (idx + stride)) as (ks & -> & Hks & Hnd); [lia..|].
      exists (idx :: ks). split; [reflexivity|]. split.
      * intros k. rewrite elem_of_cons, Hks. split.
        -- intros [->|(Hk & q & Hq & ->)].
           ++ split; [assumption|]. exists 0. lia.
           ++ split; [assumption|]. exists (q + 1). lia.
        -- intros (Hk & q & Hq & ->).
           destruct (decide (q = 0)) as [->|Hq0]; [left; lia|].
           right. split; [assumption|]. exists (q - 1). lia.
      * constructor; [|assumption].
        rewrite Hks. intros (_ & q & Hq & Hk). nia.
    + exists []. split; [reflexivity|]. split; [|constructor].
      intros k. rewrite elem_of_nil.
      split; [tauto|]. intros (Hk & q & Hq & ->). nia.
Qed.

(** ** The execution units of a launch *)

Lemma elem_of_units u nBlocks nThreadsPerBlock :
  u ∈ units nBlocks nThreadsPerBlock <->
  exists b t, 0 <= b < nBlocks /\ 0 <= t < nThreadsPerBlock /\
              u = {| threadIdx := t; blockIdx := b;
                     blockDim := nThreadsPerBlock; gridDim := nBlocks |}.
Proof.
  unfold units. rewrite list_elem_of_bind. split.
  - intros (b & Hu & Hb). apply list_elem_of_fmap in Hu as (t & -> & Ht).
    apply elem_of_seqZ in Hb, Ht. exists b, t. repeat split; lia.
  - intros (b & t & Hb & Ht & ->). exists b. split; [|apply elem_of_seqZ; lia].
    apply list_elem_of_fmap. exists t. split; [reflexivity|].
    apply elem_of_seqZ; lia.
Qed.

(** where the number of units fits in an [int], the start of a unit is its
    rank in the grid and the stride is the number of units *)
Lemma unit_exact u nBlocks nThreadsPerBlock :
  u ∈ units nBlocks nThreadsPerBlock ->
  nBlocks * nThreadsPerBlock <= INT_MAX ->
  unit_stride u = nBlocks * nThreadsPerBlock /\
  unit_start u = threadIdx u + blockIdx u * nThreadsPerBlock /\
  0 <= unit_start u < nBlocks * nThreadsPerBlock.
Proof.
  intros (b & t & Hb & Ht & ->)%elem_of_units Hfit.
  unfold unit_stride, unit_start, INT_MAX in *. simpl.
  assert (0 <= b * nThreadsPerBlock) by nia.
  assert (b * nThreadsPerBlock + nThreadsPerBlock
          <= nBlocks * nThreadsPerBlock) by nia.
  rewrite (uwrap32_id (b * nThreadsPerBlock)) by lia.
  rewrite !uwrap32_id by lia.
  rewrite !wrap32_id by (unfold INT_MIN, INT_MAX; lia).
  lia.
Qed.

Lemma visits_spec fuel n u nBlocks nThreadsPerBlock :
  u ∈ units nBlocks nThreadsPerBlock ->
  nBlocks * nThreadsPerBlock <= INT_MAX ->
  nBlocks * nThreadsPerBlock + n <= 2147483648 -> 0 <= n ->
  (Z.to_nat n <= fuel)%nat ->
  grid_stride fuel n (unit_stride u) (unit_start u) = Done (visits fuel n u) /\
  (forall k, k ∈ visits fuel n u <->
             0 <= k < n /\ k mod (nBlocks * nThreadsPerBlock) = unit_start u) /\
  NoDup (visits fuel n u).
Proof.
  intros Hu Hmax Hfit Hn Hfuel.
  destruct (unit_exact u nBlocks nThreadsPerBlock Hu) as (HS & _ & Hst);
    [assumption|].
  set (S := nBlocks * nThreadsPerBlock) in *.
  destruct (grid_stride_spec n (unit_stride u) fuel) with (idx := unit_start u)
    as (ks & Hgs & Hks & Hnd); try lia.
  unfold visits. rewrite Hgs. split; [reflexivity|]. split; [|assumption].
  intros k. rewrite Hks, HS. split.
  - intros (Hk & q & Hq & ->). split; [nia|].
    rewrite Z.mod_add by lia. apply Z.mod_small. lia.
  - intros (Hk & Hmod). split; [lia|]. exists (k / S).
    pose proof (Z.div_mod k S ltac:(lia)).
    split; [apply Z.div_pos; lia | lia].
Qed.

Lemma NoDup_units nBlocks nThreadsPerBlock :
  NoDup (units nBlocks nThreadsPerBlock).
Proof.
  unfold units. apply NoDup_bind.
  - intros b1 b2 u _ _ (t1 & -> & _)%list_elem_of_fmap
                       (t2 & [= _ ->] & _)%list_elem_of_fmap.
    reflexivity.
  - intros b _. apply NoDup_fmap_2_strong; [|apply NoDup_seqZ].
    now intros t1 t2 _ _ [= ->].
  - apply NoDup_seqZ.
Qed.

(** every index below [n] is visited, by the unit whose rank is the index
    modulo the number of units *)
Lemma elem_of_all_visits fuel n nBlocks nThreadsPerBlock k :
  1 <= nBlocks -> 1 <= nThreadsPerBlock ->
  nBlocks * nThreadsPerBlock <= INT_MAX ->
  nBlocks * nThreadsPerBlock + n <= 2147483648 -> 0 <= n ->
  (Z.to_nat n <= fuel)%nat ->
  k ∈ units nBlocks nThreadsPerBlock ≫= visits fuel n <-> 0 <= k < n.
Proof.
  intros HB HT Hmax Hfit Hn Hfuel. rewrite list_elem_of_bind. split.
  - intros (u & Hk & Hu).
    now apply (visits_spec fuel n u nBlocks nThreadsPerBlock) in Hk.
  - intros Hk. set (S := nBlocks * nThreadsPerBlock).
    assert (HS : 0 < S) by (unfold S; nia).
    pose proof (Z.mod_pos_bound k S HS) as Hr.
    pose proof (Z.mod_pos_bound (k mod S) nThreadsPerBlock ltac:(lia)).
    pose proof (Z.div_mod (k mod S) nThreadsPerBlock ltac:(lia)).
    assert (0 <= k mod S / nThreadsPerBlock) by (apply Z.div_pos; lia).
    assert (k mod S / nThreadsPerBlock < nBlocks)
      by (apply Z.div_lt_upper_bound; unfold S in *; lia).
    set (u := {| threadIdx := (k mod S) mod nThreadsPerBlock;
                 blockIdx := k mod S / nThreadsPerBlock;
                 blockDim := nThreadsPerBlock; gridDim := nBlocks |}).
    assert (Hu : u ∈ units nBlocks nThreadsPerBlock).
    { apply elem_of_units. eexists _, _. repeat split; eauto; lia. }
    exists u. split; [|assumption].
    apply (visits_spec fuel n u nBlocks nThreadsPerBlock); try assumption.
    split; [assumption|].
    destruct (unit_exact u nBlocks nThreadsPerBlock Hu) as (_ & -> & _);
      [assumption|].
    simpl. fold S. lia.
Qed.

(** no index is visited twice *)
Lemma NoDup_all_visits fuel n nBlocks nThreadsPerBlock :
  1 <= nBlocks -> 1 <= nThreadsPerBlock ->
  nBlocks * nThreadsPerBlock <= INT_MAX ->
  nBlocks * nThreadsPerBlock + n <= 2147483648 -> 0 <= n ->
  (Z.to_nat n <= fuel)%nat ->
  NoDup (units nBlocks nThreadsPerBlock ≫= visits fuel n).
Proof.
  intros HB HT Hmax Hfit Hn Hfuel. apply NoDup_bind.
  - intros u1 u2 k Hu1 Hu2 Hk1 Hk2.
    apply (visits_spec fuel n u1 nBlocks nThreadsPerBlock) in Hk1 as [_ H1];
      try assumption.
    apply (visits_spec fuel n u2 nBlocks nThreadsPerBlock) in Hk2 as [_ H2];
      try assumption.
    destruct (unit_exact u1 nBlocks nThreadsPerBlock Hu1) as (_ & E1 & _);
      [assumption|].
    destruct (unit_exact u2 nBlocks nThreadsPerBlock Hu2) as (_ & E2 & _);
      [assumption|].
    apply elem_of_units in Hu1 as (b1 & t1 & Hb1 & Ht1 & ->).
    apply elem_of_units in Hu2 as (b2 & t2 & Hb2 & Ht2 & ->).
    simpl in *. assert (b1 = b2) by nia. subst b2.
    assert (t1 = t2) by lia. now subst t2.
  - intros u Hu.
    now apply (visits_spec fuel n u nBlocks nThreadsPerBlock).
  - apply NoDup_units.
Qed.

(** ** A launch runs the body at the visited indices *)

Lemma launch_visits c fuel us s n nrows ncols gx gy :
  (forall u, u ∈ us ->
     grid_stride fuel n (unit_stride u) (unit_start u)
     = Done (visits fuel n u)) ->
  forall d,
    launch c fuel us s d n nrows ncols gx gy =
    match foldlM (fun d k => kernel_body c s nrows ncols gx gy k d) d
                 (us ≫= visits fuel n) with
    | Some r => Done r
    | None => Fault
    end.
Proof.
  induction us as [|u us IH]; intros Hus d; [reflexivity|].
  rewrite bind_cons, foldlM_app. simpl. unfold sobel_kernel_gpu.
  rewrite (kernel_loop_visits _ _ _ _ _ _ _ _ _ _ _ (visits fuel n u))
    by (apply Hus; constructor).
  destruct (foldlM _ d (visits fuel n u)) as [d'|]; [|reflexivity].
  apply IH. intros u' Hu'. apply Hus. now constructor.
Qed.

(** ** The stencil evaluator: which neighbours contribute *)

Lemma inside_true rows cols r c :
  inside rows cols r c = true <-> 0 <= r < rows /\ 0 <= c < cols.
Proof.
  unfold inside. rewrite !andb_true_iff, !Z.leb_le, !Z.ltb_lt. tauto.
Qed.

Lemma inside_false rows cols r c :
  ~ (0 <= r < rows /\ 0 <= c < cols) -> inside rows cols r c = false.
Proof.
  intros H. destruct (inside rows cols r c) eqn:E; [|reflexivity].
  now apply inside_true in E.
Qed.

Ltac decide_inside :=
  repeat match goal with
         | |- context [inside ?rows ?cols ?r ?c] =>
             first [ rewrite (proj2 (inside_true rows cols r c)) by lia
                   | rewrite (inside_false rows cols r c) by lia ]
         end.

(** at the corner (0,0) of an image of two rows and two columns at least,
    the neighbours inside the image are the pixel, its right neighbour and
    the two below *)
Lemma window_corner rows cols :
  2 <= rows -> 2 <= cols ->
  filter (fun d => inside rows cols (0 + fst d) (0 + snd d) = true) window
  = [(0, 0); (0, 1); (1, 0); (1, 1)].
Proof.
  intros Hr Hc. unfold window.
  repeat first
    [ rewrite filter_cons_True by (apply inside_true; simpl; lia)
    | rewrite filter_cons_False by (rewrite inside_true; simpl; lia) ].
  reflexivity.
Qed.

Lemma window_corner_only rows cols d :
  d ∈ filter (fun d => inside rows cols (0 + fst d) (0 + snd d) = true) window
  -> d ∈ [(0, 0); (0, 1); (1, 0); (1, 1)].
Proof.
  rewrite list_elem_of_filter, inside_true. unfold window.
  intros [Hin Hd].
  repeat (apply elem_of_cons in Hd as [->|Hd]);
    try (now apply elem_of_nil in Hd);
    simpl in Hin; try lia;
    repeat (first [apply list_elem_of_here | apply list_elem_of_further]).
Qed.

(** the sum at the corner, term by term *)
Lemma directional_sum_corner c source g rows cols :
  2 <= rows -> 2 <= cols ->
  directional_sum c source g rows cols 0 0 =
  mul_add c (nth 8 g F32.zero) (nth (Z.to_nat (cols + 1)) source F32.zero)
    (mul_add c (nth 7 g F32.zero) (nth (Z.to_nat cols) source F32.zero)
       (mul_add c (nth 5 g F32.zero) (nth 1 source F32.zero)
          (mul_add c (nth 4 g F32.zero) (nth 0 source F32.zero) F32.zero))).
Proof.
  intros Hr Hc. unfold directional_sum, window. cbn [fold_left fst snd].
  decide_inside. unfold weight_at, sample_at.
  repeat (f_equal; try lia).
Qed.

(** C2, amended. At a pixel (row, col) of an image of rows*cols samples
    whose indices fit in an [int] (rows*cols <= 2^31, for dimensions that
    are [int]s), with weight tables of nine entries, both evaluators return
    sqrt(Gx_sum^2 + Gy_sum^2), where Gx_sum (resp. Gy_sum) is the sum,
    taken in the order of the loops, of gx[(dy+1)*3+(dx+1)] (resp. gy)
    times the sample at (row+dy, col+dx) over exactly the offsets (dy, dx)
    of {-1,0,1}^2 whose neighbour lies in [0,rows) x [0,cols); the other
    offsets add nothing to either sum. The CPU evaluator rounds every
    operation; the GPU evaluator does the same sums in the arithmetic that
    the device code was compiled to (fused multiply-add or not). At the
    corner (0,0) no offset other than (0,0), (0,1), (1,0), (1,1)
    contributes, and where the image has two rows and two columns at least
    these four do: the sum is
    g[4]*s[0] + g[5]*s[1] + g[7]*s[cols] + g[8]*s[cols+1]. *)
Theorem evaluator_sums_in_bounds_neighbours
    (source : list float) (row col cols rows : Z) (gx gy : list float) :
  0 <= row < rows -> 0 <= col < cols ->
  rows <= INT_MAX -> cols <= INT_MAX -> rows * cols <= 2147483648 ->
  Z.of_nat (length source) = rows * cols ->
  length gx = 9%nat -> length gy = 9%nat ->
  Cpu.sobel_filtered_pixel source row col cols rows gx gy
    = Some (gradient_magnitude Fmad_off source rows cols row col gx gy) /\
  Gpu.sobel_filtered_pixel source row col cols rows gx gy
    = Some (gradient_magnitude Fmad_off source rows cols row col gx gy) /\
  (forall c,
     Gpu.device_pixel c source row col cols rows gx gy
     = Some (gradient_magnitude c source rows cols row col gx gy)) /\
  (forall c g,
     directional_sum c source g rows cols row col =
     fold_left
       (fun sum d =>
          mul_add c (weight_at g (fst d) (snd d))
                    (sample_at source cols (row + fst d) (col + snd d)) sum)
       (filter (fun d => inside rows cols (row + fst d) (col + snd d) = true)
               window)
       F32.zero) /\
  (row = 0 -> col = 0 ->
   (forall d,
      d ∈ filter (fun d => inside rows cols (row + fst d) (col + snd d) = true)
                 window ->
      d ∈ [(0, 0); (0, 1); (1, 0); (1, 1)]) /\
   (2 <= rows -> 2 <= cols ->
    filter (fun d => inside rows cols (row + fst d) (col + snd d) = true)
           window
    = [(0, 0); (0, 1); (1, 0); (1, 1)] /\
    forall c g,
      directional_sum c source g rows cols row col =
      mul_add c (nth 8 g F32.zero) (nth (Z.to_nat (cols + 1)) source F32.zero)
        (mul_add c (nth 7 g F32.zero) (nth (Z.to_nat cols) source F32.zero)
           (mul_add c (nth 5 g F32.zero) (nth 1 source F32.zero)
              (mul_add c (nth 4 g F32.zero) (nth 0 source F32.zero)
                       F32.zero))))).
Proof.
  intros Hrow Hcol Hr Hc Hn Hs Hgx Hgy.
  split; [|split; [|split; [|split]]].
  - now apply cpu_pixel_spec.
  - rewrite gpu_pixel_is_cpu_pixel. now apply cpu_pixel_spec.
  - intros c. now apply device_pixel_spec.
  - intros c g. unfold directional_sum.
    apply (fold_left_filter
             (fun d => inside rows cols (row + fst d) (col + snd d))
             (fun sum d =>
                mul_add c (weight_at g (fst d) (snd d))
                  (sample_at source cols (row + fst d) (col + snd d)) sum)).
  - intros -> ->. split.
    + intros d. apply window_corner_only.
    + intros Hr2 Hc2. split; [now apply window_corner|].
      intros c g. now apply directional_sum_corner.
Qed.

Lemma evaluator_sums_in_bounds_neighbours_witness :
  let source := F32.of_Z <$> [0; 0; 0; 0; 1; 0; 0; 0; 0] in
  Cpu.sobel_filtered_pixel source 0 0 3 3 Gx Gy
  = Some (gradient_magnitude Fmad_off source 3 3 0 0 Gx Gy) /\
  Gpu.device_pixel (Fmad_on true) source 0 0 3 3 Gx Gy
  = Some (gradient_magnitude (Fmad_on true) source 3 3 0 0 Gx Gy) /\
  filter (fun d => inside 3 3 (0 + fst d) (0 + snd d) = true) window
  = [(0, 0); (0, 1); (1, 0); (1, 1)].
Proof.
  intros source.
  destruct (evaluator_sums_in_bounds_neighbours source 0 0 3 3 Gx Gy)
    as (Hcpu & _ & Hgpu & _ & Hcorner);
    [solve [unfold INT_MAX; lia | reflexivity] ..|].
  split; [exact Hcpu|]. split; [apply Hgpu|].
  destruct (Hcorner eq_refl eq_refl) as [_ H]. apply H; lia.
Defined.

(** C2 as stated fails where rows*cols does not fit in an [int]: in an
    image of 65536 by 65536, the neighbour (32768, 0) of the pixel
    (32769, 1) lies inside the image, but [neighbor_i * ncols] is 2^31 and
    wraps to -2^31: neither evaluator returns the sum, both read outside
    the source buffer. *)
Lemma evaluator_sums_in_bounds_neighbours_counterexample :
  let source := replicate (Z.to_nat (65536 * 65536)) F32.zero in
  Z.of_nat (length source) = 65536 * 65536 /\
  0 <= 32769 < 65536 /\ 0 <= 1 < 65536 /\ 65536 <= INT_MAX /\
  inside 65536 65536 (32769 + -1) (1 + -1) = true /\
  neighbor_index (32769 + -1) (1 + -1) 65536 = -2147483648 /\
  Cpu.sobel_filtered_pixel source 32769 1 65536 65536 Gx Gy = None /\
  forall c, Gpu.device_pixel c source 32769 1 65536 65536 Gx Gy = None.
Proof.
  assert (Hgpu : forall c (s : list float),
             Gpu.device_pixel c s 32769 1 65536 65536 Gx Gy = None).
  { intros c s. destruct c as [|[|]]; vm_compute; reflexivity. }
  intros source.
  split; [unfold source; rewrite length_replicate; lia|].
  split; [lia|]. split; [lia|]. split; [unfold INT_MAX; lia|].
  split; [reflexivity|]. split; [reflexivity|]. split.
  - rewrite <- device_pixel_off_is_cpu_pixel. apply Hgpu.
  - intros c. apply Hgpu.
Qed.

(** ** The stencil evaluator: reads stay inside the source buffer *)

(** C5, amended. Where every index of the image fits in an [int]
    (rows*cols <= 2^31, for dimensions that are [int]s), the source buffer
    has rows*cols elements and (row, col) is a pixel of the image, every
    index that the evaluator reads is neighbor_row*cols + neighbor_col for a
    neighbour inside the image, hence lies in [0, rows*cols), and the
    evaluator returns a value: no read is out of range. The evaluator of
    the device returns a value as well, however its arithmetic was
    compiled. *)
Theorem evaluator_reads_in_range
    (source : list float) (row col cols rows : Z) (gx gy : list float) :
  Z.of_nat (length source) = rows * cols ->
  rows <= INT_MAX -> cols <= INT_MAX -> rows * cols <= 2147483648 ->
  0 <= row < rows -> 0 <= col < cols ->
  length gx = 9%nat -> length gy = 9%nat ->
  Forall (fun k => 0 <= k < rows * cols /\
                   exists neighbor_row neighbor_col,
                     0 <= neighbor_row < rows /\ 0 <= neighbor_col < cols /\
                     k = neighbor_row * cols + neighbor_col)
         (source_reads row col cols rows) /\
  (exists G, Cpu.sobel_filtered_pixel source row col cols rows gx gy = Some G /\
             Gpu.sobel_filtered_pixel source row col cols rows gx gy = Some G /\
             evaluate source row col cols rows gx gy = Some G) /\
  (forall c, exists G,
     Gpu.device_pixel c source row col cols rows gx gy = Some G).
Proof.
  intros Hs Hr Hc Hn Hrow Hcol Hgx Hgy. split; [|split].
  - apply Forall_forall. intros k. unfold source_reads, taps.
    rewrite <- list_fmap_compose, list_elem_of_fmap.
    intros (d & -> & Hd). simpl.
    apply elem_of_contributing in Hd as (_ & Hi & Hj).
    destruct (neighbor_index_exact _ _ _ _ Hi Hj Hn) as [-> Hk].
    split; [exact Hk|]. eauto 10.
  - destruct (cpu_pixel_total source row col cols rows gx gy) as [G HG];
      try assumption.
    exists G. rewrite gpu_pixel_is_cpu_pixel.
    rewrite <- cpu_pixel_is_evaluate by assumption. auto.
  - intros c. now apply device_pixel_total.
Qed.

Lemma evaluator_reads_in_range_witness :
  Forall (fun k => 0 <= k < 2 * 2 /\
                   exists neighbor_row neighbor_col,
                     0 <= neighbor_row < 2 /\ 0 <= neighbor_col < 2 /\
                     k = neighbor_row * 2 + neighbor_col)
         (source_reads 1 0 2 2) /\
  (exists G,
     Cpu.sobel_filtered_pixel (F32.of_Z <$> [1; 2; 3; 4]) 1 0 2 2 Gx Gy
       = Some G /\
     Gpu.sobel_filtered_pixel (F32.of_Z <$> [1; 2; 3; 4]) 1 0 2 2 Gx Gy
       = Some G /\
     evaluate (F32.of_Z <$> [1; 2; 3; 4]) 1 0 2 2 Gx Gy = Some G) /\
  (forall c, exists G,
     Gpu.device_pixel c (F32.of_Z <$> [1; 2; 3; 4]) 1 0 2 2 Gx Gy = Some G).
Proof.
  apply (evaluator_reads_in_range (F32.of_Z <$> [1; 2; 3; 4]) 1 0 2 2 Gx Gy);
    solve [reflexivity | unfold INT_MAX; lia].
Defined.

(** C5 as stated fails where rows*cols does not fit in an [int]: in an image
    of 65536 by 65536, the first neighbour of the pixel (32769, 1) is
    (32768, 0), for which [neighbor_i * ncols] is 2^31 and wraps to
    -2^31: the evaluator reads outside the buffer. *)
Lemma evaluator_reads_in_range_counterexample :
  let source := replicate (Z.to_nat (65536 * 65536)) F32.zero in
  Z.of_nat (length source) = 65536 * 65536 /\
  0 <= 32769 < 65536 /\ 0 <= 1 < 65536 /\
  -2147483648 ∈ source_reads 32769 1 65536 65536 /\
  Cpu.sobel_filtered_pixel source 32769 1 65536 65536 Gx Gy = None /\
  Gpu.sobel_filtered_pixel source 32769 1 65536 65536 Gx Gy = None.
Proof.
  assert (Hcpu : forall s : list float,
             Cpu.sobel_filtered_pixel s 32769 1 65536 65536 Gx Gy = None).
  { intros s. vm_compute. reflexivity. }
  intros source. split; [|split; [lia|split; [lia|split; [|split]]]].
  - unfold source. rewrite length_replicate. lia.
  - vm_compute. left.
  - apply Hcpu.
  - rewrite gpu_pixel_is_cpu_pixel. apply Hcpu.
Qed.

(** ** The grid-stride scheme visits every index once *)

Lemma kernel_body_row_col c s nrows ncols gx gy idx d :
  0 <= idx <= INT_MAX -> 0 < ncols ->
  kernel_body c s nrows ncols gx gy idx d =
  v ← Gpu.device_pixel c s (idx / ncols) (idx mod ncols) ncols nrows gx gy;
  write d (wrap32 (wrap32 (idx / ncols * ncols) + idx mod ncols)) v.
Proof.
  intros Hidx Hc. unfold kernel_body.
  rewrite (proj2 (Z.eqb_neq ncols 0)) by lia.
  rewrite Z.quot_div_nonneg, Z.rem_mod_nonneg by lia.
  pose proof (Z.mod_pos_bound idx ncols ltac:(lia)).
  assert (0 <= idx / ncols) by (apply Z.div_pos; lia).
  assert (idx / ncols <= idx) by (apply Z.div_le_upper_bound; nia).
  pose proof (Z.mod_le idx ncols ltac:(lia) ltac:(lia)).
  unfold INT_MAX in *.
  now rewrite (wrap32_id (idx / ncols)), (wrap32_id (idx mod ncols))
    by (unfold INT_MIN, INT_MAX; lia).
Qed.

(** C3, amended. For n >= 1 and a launch shape with blocks >= 1,
    threadsPerBlock >= 1 and blocks*threadsPerBlock + n <= 2^31 (neither
    the stride nor an index plus the stride overflows the [int]), the loop
    of every unit ends, the indices visited by all the units together are
    the indices of [0,n), each one once, the kernel runs its loop body at
    these indices, and at the index idx the body calls the evaluator at
    (idx/cols, idx%cols) - however the arithmetic of the device code was
    compiled. *)
Theorem grid_stride_visits_each_index_once
    (n nBlocks nThreadsPerBlock : Z) (fuel : nat) :
  1 <= n -> 1 <= nBlocks -> 1 <= nThreadsPerBlock ->
  nBlocks * nThreadsPerBlock + n <= 2147483648 ->
  (Z.to_nat n <= fuel)%nat ->
  (forall u, u ∈ units nBlocks nThreadsPerBlock ->
     unit_start u = threadIdx u + blockIdx u * nThreadsPerBlock /\
     unit_stride u = nBlocks * nThreadsPerBlock /\
     grid_stride fuel n (unit_stride u) (unit_start u)
       = Done (visits fuel n u) /\
     forall c s d nrows ncols gx gy,
       sobel_kernel_gpu c fuel u s d n nrows ncols gx gy =
       match foldlM (fun d idx => kernel_body c s nrows ncols gx gy idx d) d
                    (visits fuel n u) with
       | Some d' => Done d'
       | None => Fault
       end) /\
  units nBlocks nThreadsPerBlock ≫= visits fuel n ≡ₚ seqZ 0 n /\
  (forall c s d nrows ncols gx gy idx,
     0 <= idx < n -> 0 < ncols ->
     kernel_body c s nrows ncols gx gy idx d =
     v ← Gpu.device_pixel c s (idx / ncols) (idx mod ncols)
                          ncols nrows gx gy;
     write d (wrap32 (wrap32 (idx / ncols * ncols) + idx mod ncols)) v).
Proof.
  intros Hn HB HT Hfit Hfuel.
  assert (Hmax : nBlocks * nThreadsPerBlock <= INT_MAX)
    by (unfold INT_MAX; lia).
  split; [|split].
  - intros u Hu.
    destruct (unit_exact u _ _ Hu Hmax) as (Hstride & Hstart & _).
    destruct (visits_spec fuel n u _ _ Hu Hmax Hfit ltac:(lia) Hfuel)
      as (Hgs & _).
    repeat split; try assumption.
    intros. unfold sobel_kernel_gpu. now apply kernel_loop_visits.
  - apply NoDup_Permutation.
    + apply NoDup_all_visits; assumption || lia.
    + apply NoDup_seqZ.
    + intros k. rewrite elem_of_all_visits by (assumption || lia).
      rewrite elem_of_seqZ. lia.
  - intros. apply kernel_body_row_col; [|assumption].
    assert (0 <= nBlocks * nThreadsPerBlock) by nia.
    unfold INT_MAX. lia.
Qed.

Lemma grid_stride_visits_each_index_once_witness :
  units 2 3 ≫= visits 20 20 ≡ₚ seqZ 0 20.
Proof.
  apply (grid_stride_visits_each_index_once 20 2 3 20); lia.
Defined.

Lemma grid_stride_stuck fuel : grid_stride fuel 1 0 0 = Timeout.
Proof.
  induction fuel as [|fuel IH]; [reflexivity|].
  change (grid_stride (S fuel) 1 0 0)
    with (match grid_stride fuel 1 0 0 with
          | Done l => Done (0 :: l)
          | Fault => Fault
          | Timeout => Timeout
          end).
  now rewrite IH.
Qed.

(** C3 as stated fails for the launch shape 4194304 x 1024, which CUDA
    accepts: [blockDim.x * gridDim.x] is 2^32, the stride is 0 in the
    32-bit arithmetic of the kernel, and the unit 0 stays at index 0
    forever, whatever the fuel. *)
Lemma grid_stride_visits_each_index_once_counterexample :
  let u := {| threadIdx := 0; blockIdx := 0;
              blockDim := 1024; gridDim := 4194304 |} in
  1 <= 4194304 /\ 1 <= 1024 /\
  u ∈ units 4194304 1024 /\
  unit_stride u = 0 /\ unit_start u = 0 /\
  forall fuel, grid_stride fuel 1 (unit_stride u) (unit_start u) = Timeout.
Proof.
  intros u. split; [lia|]. split; [lia|]. split; [|split; [|split]].
  - apply elem_of_units. exists 0, 0. repeat split; lia.
  - reflexivity.
  - reflexivity.
  - intros fuel. apply grid_stride_stuck.
Qed.

(** ** The two drivers compute one image *)

(** compiled with [--fmad=false], the image of the device is the image of
    the CPU evaluator *)
Lemma device_image_off s ncols nrows gx gy r :
  device_image Fmad_off s ncols nrows gx gy r <->
  sobel_image s ncols nrows gx gy r.
Proof.
  unfold device_image, sobel_image.
  now setoid_rewrite device_pixel_off_is_cpu_pixel.
Qed.

(** there is one image of the device *)
Lemma device_image_unique c s ncols nrows gx gy r1 r2 :
  0 <= nrows -> 0 <= ncols ->
  device_image c s ncols nrows gx gy r1 ->
  device_image c s ncols nrows gx gy r2 ->
  r1 = r2.
Proof.
  intros Hr Hc [Hl1 H1] [Hl2 H2]. apply buffer_eq. intros k Hk.
  destruct (decide (k < nrows * ncols)) as [Hlt|Hge].
  - assert (0 < ncols) by nia.
    pose proof (Z.mod_pos_bound k ncols ltac:(lia)).
    pose proof (Z.div_mod k ncols ltac:(lia)).
    assert (0 <= k / ncols) by (apply Z.div_pos; lia).
    assert (k / ncols < nrows) by (apply Z.div_lt_upper_bound; lia).
    destruct (H1 (k / ncols) (k mod ncols)) as (v1 & Hv1 & Hr1); [lia..|].
    destruct (H2 (k / ncols) (k mod ncols)) as (v2 & Hv2 & Hr2); [lia..|].
    replace (k / ncols * ncols + k mod ncols) with k in * by lia.
    congruence.
  - rewrite !read_None by lia. reflexivity.
Qed.

(** a buffer of the size of the image every cell of which is stored once
    at least is the image of the device *)
Lemma stores_cover_device_image c s ncols nrows gx gy (ks : list Z)
    (d : list float) :
  0 <= nrows <= INT_MAX -> 0 <= ncols <= INT_MAX ->
  nrows * ncols <= 2147483648 ->
  Z.of_nat (length s) = nrows * ncols ->
  Z.of_nat (length d) = nrows * ncols ->
  length gx = 9%nat -> length gy = 9%nat ->
  (forall k, k ∈ ks <-> 0 <= k < nrows * ncols) ->
  exists r, foldlM (store (device_value c s ncols nrows gx gy)) d ks = Some r /\
            device_image c s ncols nrows gx gy r.
Proof.
  intros Hr Hc Hn Hs Hd Hgx Hgy Hks.
  assert (Hpix : forall k, 0 <= k < nrows * ncols ->
            0 <= k / ncols < nrows /\ 0 <= k mod ncols < ncols /\
            k = k / ncols * ncols + k mod ncols).
  { intros k Hk. assert (0 < ncols) by nia.
    pose proof (Z.mod_pos_bound k ncols ltac:(lia)).
    pose proof (Z.div_mod k ncols ltac:(lia)).
    assert (0 <= k / ncols) by (apply Z.div_pos; lia).
    assert (k / ncols < nrows) by (apply Z.div_lt_upper_bound; lia).
    lia. }
  destruct (stores_spec (device_value c s ncols nrows gx gy) ks d)
    as (r & Hfold & Hlen & Hrd).
  { apply Forall_forall. intros k Hk. apply Hks in Hk. split; [lia|].
    destruct (Hpix k Hk) as (Hi & Hj & _).
    destruct (device_pixel_total c s _ _ ncols nrows gx gy Hs (proj2 Hr)
                (proj2 Hc) Hn Hi Hj Hgx Hgy)
      as [v Hv].
    unfold device_value. rewrite Hv. eauto. }
  exists r. split; [assumption|]. split; [lia|].
  intros i j Hi Hj.
  destruct (device_pixel_total c s i j ncols nrows gx gy Hs (proj2 Hr)
              (proj2 Hc) Hn Hi Hj Hgx Hgy)
    as [v Hv].
  exists v. split; [assumption|].
  assert (Hk : 0 <= i * ncols + j < nrows * ncols) by nia.
  rewrite Hrd, decide_True by now apply Hks.
  unfold device_value.
  replace ((i * ncols + j) / ncols) with i; [replace ((i * ncols + j) mod ncols) with j|].
  - assumption.
  - rewrite Z.add_comm, Z.mod_add by lia. now rewrite Z.mod_small.
  - rewrite Z.add_comm, Z.div_add by lia. rewrite Z.div_small; lia.
Qed.

Lemma kernel_body_length c s nrows ncols gx gy idx d d' :
  kernel_body c s nrows ncols gx gy idx d = Some d' -> length d' = length d.
Proof.
  unfold kernel_body. destruct (ncols =? 0); [discriminate|].
  destruct (Gpu.device_pixel _ _ _ _ _ _ _ _); [|discriminate].
  simpl. apply write_length.
Qed.

Lemma kernel_loop_length c s n nrows ncols gx gy stride fuel :
  forall idx d r,
    kernel_loop c fuel s n nrows ncols gx gy stride idx d = Done r ->
    length r = length d.
Proof.
  induction fuel as [|fuel IH]; intros idx d r; simpl.
  - destruct (idx <? n); [discriminate|]. now intros [= <-].
  - destruct (idx <? n); [|now intros [= <-]].
    destruct (kernel_body c s nrows ncols gx gy idx d) as [d'|] eqn:E;
      [|discriminate].
    intros H. apply IH in H. apply kernel_body_length in E. congruence.
Qed.

(** a launch keeps the size of the destination buffer *)
Lemma launch_length c fuel us s n nrows ncols gx gy :
  forall d r,
    launch c fuel us s d n nrows ncols gx gy = Done r -> length r = length d.
Proof.
  induction us as [|u us IH]; intros d r; simpl; [now intros [= <-]|].
  destruct (sobel_kernel_gpu c fuel u s d n nrows ncols gx gy) as [d'| |] eqn:E;
    try discriminate.
  intros H. apply IH in H. apply kernel_loop_length in E. congruence.
Qed.

(** a launch one unit of which does not end returns no buffer, in whatever
    order the units run: the unit that does not end is reached, or a unit
    before it has faulted or has not ended *)
Lemma launch_returns_no_buffer c fuel (us : list unit_ids) s n nrows ncols
    gx gy (u0 : unit_ids) (size : nat) :
  u0 ∈ us ->
  (forall d, length d = size ->
             sobel_kernel_gpu c fuel u0 s d n nrows ncols gx gy = Timeout) ->
  forall d r, length d = size ->
              launch c fuel us s d n nrows ncols gx gy <> Done r.
Proof.
  intros Hu0 Hstuck. induction us as [|u us IH]; intros d r Hd.
  - now apply elem_of_nil in Hu0.
  - simpl.
    destruct (sobel_kernel_gpu c fuel u s d n nrows ncols gx gy)
      as [d'| |] eqn:E; try discriminate.
    apply elem_of_cons in Hu0 as [<-|Hu0].
    + rewrite Hstuck in E by assumption. discriminate.
    + apply IH; [assumption|].
      apply kernel_loop_length in E. congruence.
Qed.

Section Drivers.

Variables (s : list float) (ncols nrows : Z).
Hypothesis rows_pos : 1 <= nrows.
Hypothesis cols_pos : 1 <= ncols.
Hypothesis pixels_fit : nrows * ncols <= INT_MAX.
Hypothesis source_size : Z.of_nat (length s) = nrows * ncols.

(** a launch whose units cover the image leaves the image of the device in
    the destination buffer, in whatever order the units run *)
Lemma launch_image (c : fmad) (d : list float) (nBlocks nThreadsPerBlock : Z)
    (us : list unit_ids) (fuel : nat) :
  Z.of_nat (length d) = nrows * ncols ->
  1 <= nBlocks -> 1 <= nThreadsPerBlock ->
  nBlocks * nThreadsPerBlock + nrows * ncols <= 2147483648 ->
  us ≡ₚ units nBlocks nThreadsPerBlock ->
  (Z.to_nat (nrows * ncols) <= fuel)%nat ->
  exists r, launch c fuel us s d (nrows * ncols) nrows ncols Gx Gy = Done r /\
            device_image c s ncols nrows Gx Gy r.
Proof.
  intros Hd HB HT Hshape Hus Hfuel.
  assert (Hn : 1 <= nrows * ncols) by nia.
  assert (Hmax : nBlocks * nThreadsPerBlock <= INT_MAX)
    by (unfold INT_MAX; lia).
  destruct (dims_fit nrows ncols) as [Hr Hc]; [lia..|].
  assert (Hmem : forall u, u ∈ us <-> u ∈ units nBlocks nThreadsPerBlock)
    by (intros u; now rewrite Hus).
  assert (Hks : forall k, k ∈ us ≫= visits fuel (nrows * ncols) <->
                          0 <= k < nrows * ncols).
  { intros k.
    rewrite <- (elem_of_all_visits fuel (nrows * ncols) nBlocks
                  nThreadsPerBlock k) by (assumption || lia).
    rewrite !list_elem_of_bind. now setoid_rewrite Hmem. }
  rewrite launch_visits.
  - destruct (stores_cover_device_image c s ncols nrows Gx Gy
                (us ≫= visits fuel (nrows * ncols)) d)
      as (r & Hfold & Himg); try assumption; try reflexivity;
      try (unfold INT_MAX in *; lia).
    exists r. split; [|assumption].
    rewrite (foldlM_ext _ (store (device_value c s ncols nrows Gx Gy))).
    + now rewrite Hfold.
    + intros d' k Hk. apply Hks in Hk. apply kernel_body_store; lia.
  - intros u Hu. apply Hmem in Hu.
    now apply (visits_spec fuel (nrows * ncols) u nBlocks nThreadsPerBlock);
      try lia.
Qed.

(** C1, amended. For a source buffer of rows*cols samples, with
    rows*cols <= INT_MAX, the CPU sweep - in program order or in whatever
    order the threads of a team store the pixels - returns the value of the
    CPU evaluator at every (row, col), and the GPU dispatch - for every
    launch shape with blocks >= 1, threadsPerBlock >= 1 and
    blocks*threadsPerBlock + rows*cols <= 2^31, in whatever order the units
    run - returns the value of the evaluator of the device at every
    (row, col). The prior contents of the two destination buffers do not
    matter. The two buffers are the same, bit for bit, when the device code
    is compiled without contraction of a product and a sum into a fused
    multiply-add ([--fmad=false]); the output of the GPU dispatch is one
    buffer for all launch shapes however the device code was compiled. *)
Theorem cpu_sweep_and_gpu_dispatch_agree
    (c : fmad) (d_cpu d_gpu : list float) (order : list (Z * Z))
    (nBlocks nThreadsPerBlock : Z) (us : list unit_ids) (fuel : nat) :
  Z.of_nat (length d_cpu) = nrows * ncols ->
  Z.of_nat (length d_gpu) = nrows * ncols ->
  order ≡ₚ all_pixels ncols nrows ->
  1 <= nBlocks -> 1 <= nThreadsPerBlock ->
  nBlocks * nThreadsPerBlock + nrows * ncols <= 2147483648 ->
  us ≡ₚ units nBlocks nThreadsPerBlock ->
  (Z.to_nat (nrows * ncols) <= fuel)%nat ->
  exists r r',
    do_sobel_filtering s d_cpu ncols nrows = Some r /\
    do_sobel_filtering_omp order s d_cpu ncols nrows = Some r /\
    sobel_image s ncols nrows Gx Gy r /\
    launch c fuel us s d_gpu (nrows * ncols) nrows ncols Gx Gy = Done r' /\
    device_image c s ncols nrows Gx Gy r' /\
    (forall r0, device_image c s ncols nrows Gx Gy r0 -> r0 = r') /\
    (c = Fmad_off -> r' = r).
Proof.
  intros Hc Hg Hord HB HT Hshape Hus Hfuel.
  destruct (dims_fit nrows ncols) as [Hrmax Hcmax]; [lia..|].
  destruct (launch_image c d_gpu nBlocks nThreadsPerBlock us fuel)
    as (r' & Hr' & Himg'); try assumption.
  destruct (do_sobel_filtering_omp_image order s d_cpu ncols nrows)
    as (r1 & Hr1 & Himg1); try assumption;
    try (unfold INT_MAX in *; lia).
  { intros p. now rewrite Hord. }
  destruct (do_sobel_filtering_omp_image (all_pixels ncols nrows)
              s d_cpu ncols nrows)
    as (r2 & Hr2 & Himg2); try assumption;
    try (unfold INT_MAX in *; lia).
  { reflexivity. }
  assert (r2 = r1) as -> by (eapply sobel_image_unique; eauto; lia).
  exists r1, r'. rewrite do_sobel_filtering_omp_program_order.
  repeat (split; [assumption|]). split.
  - intros r0 Hr0. eapply device_image_unique; eauto; lia.
  - intros ->. apply device_image_off in Himg'.
    eapply sobel_image_unique; eauto; lia.
Qed.

End Drivers.

Lemma cpu_sweep_and_gpu_dispatch_agree_witness :
  let s := F32.of_Z <$> [0; 1; 2; 3; 9; 1; 0; 2; 5; 5; 5; 1] in
  exists r,
    do_sobel_filtering s (replicate 12 F32.zero) 4 3 = Some r /\
    do_sobel_filtering_omp (reverse (all_pixels 4 3)) s
                           (replicate 12 F32.zero) 4 3 = Some r /\
    launch Fmad_off 12 (reverse (units 2 3)) s (replicate 12 F32.one)
           (3 * 4) 3 4 Gx Gy
      = Done r /\
    sobel_image s 4 3 Gx Gy r.
Proof.
  intros s.
  destruct (cpu_sweep_and_gpu_dispatch_agree s 4 3
              ltac:(lia) ltac:(lia) ltac:(unfold INT_MAX; lia) eq_refl
              Fmad_off (replicate 12 F32.zero) (replicate 12 F32.one)
              (reverse (all_pixels 4 3)) 2 3 (reverse (units 2 3)) 12%nat)
    as (r & r' & Hcpu & Homp & Himg & Hgpu & _ & _ & Heq);
    [solve [reflexivity | lia | apply reverse_Permutation] ..|].
  exists r. rewrite <- (Heq eq_refl) at 3.
  repeat (split; [assumption|]). assumption.
Defined.

Lemma kernel_loop_stuck c fuel :
  forall x, kernel_loop c fuel [F32.zero] 1 1 1 Gx Gy 0 0 [x] = Timeout.
Proof.
  induction fuel as [|fuel IH]; intros x; [reflexivity|].
  change (kernel_loop c (S fuel) [F32.zero] 1 1 1 Gx Gy 0 0 [x])
    with (match kernel_body c [F32.zero] 1 1 Gx Gy 0 [x] with
          | Some d' => kernel_loop c fuel [F32.zero] 1 1 1 Gx Gy 0 0 d'
          | None => Fault
          end).
  replace (kernel_body c [F32.zero] 1 1 Gx Gy 0 [x]) with (Some [F32.zero])
    by (destruct c as [|[|]]; vm_compute; reflexivity).
  apply IH.
Qed.

(** C1 as stated fails in two ways. First, [nvcc] contracts [t += w * v]
    and [Gx * Gx + Gy * Gy] into fused multiply-adds by default: on the
    image of 2 by 2 with the bytes 190, 202, 209, 35 the pixel (1,1) is
    13981013 * 2^-22 (byte 81) in the CPU sweep and 13981014 * 2^-22
    (byte 82) in the GPU dispatch, whichever square is fused. Second, for
    the launch shape 4194304 x 1024 (at least one unit, and a shape that
    CUDA accepts) the stride of the kernel is 0 and its first unit never
    leaves index 0: in whatever order the units run, the dispatch returns
    no buffer, where the CPU sweep of the same one-pixel image returns
    [0.0]. *)
Lemma cpu_sweep_and_gpu_dispatch_agree_counterexample :
  (let s := byte_to_float <$> [190; 202; 209; 35] in
   exists r,
     do_sobel_filtering s (replicate 4 F32.zero) 2 2 = Some r /\
     read r 3 = Some (S754_finite false 13981013 (-22)) /\
     float_to_byte <$> r = [118; 139; 130; 81] /\
     forall gx_fused, exists r',
       launch (Fmad_on gx_fused) 4 (units 1 1) s (replicate 4 F32.zero)
              (2 * 2) 2 2 Gx Gy = Done r' /\
       read r' 3 = Some (S754_finite false 13981014 (-22)) /\
       float_to_byte <$> r' = [118; 139; 130; 82] /\
       r' <> r) /\
  do_sobel_filtering [F32.zero] [F32.one] 1 1 = Some [F32.zero] /\
  1 <= 4194304 * 1024 /\
  forall c fuel us r,
    us ≡ₚ units 4194304 1024 ->
    launch c fuel us [F32.zero] [F32.one] (1 * 1) 1 1 Gx Gy <> Done r.
Proof.
  split; [|split; [vm_compute; reflexivity|split; [lia|]]].
  - intros s. eexists. split; [vm_compute; reflexivity|].
    split; [reflexivity|]. split; [vm_compute; reflexivity|].
    intros [|]; eexists; (split; [vm_compute; reflexivity|]);
      (split; [reflexivity|]); (split; [vm_compute; reflexivity|]);
      intros H; apply (f_equal (fun l => read l 3)) in H; vm_compute in H;
      discriminate.
  - intros c fuel us r Hus.
    apply (launch_returns_no_buffer c fuel us [F32.zero] (1 * 1) 1 1 Gx Gy
             {| threadIdx := 0; blockIdx := 0;
                blockDim := 1024; gridDim := 4194304 |} 1%nat).
    + rewrite Hus. apply elem_of_units. exists 0, 0. repeat split; lia.
    + intros [|x [|? ?]] Hd; try discriminate.
      unfold sobel_kernel_gpu.
      change (unit_stride _) with 0. change (unit_start _) with 0.
      change (1 * 1) with 1. apply kernel_loop_stuck.
    + reflexivity.
Qed.

(** ** The sweep does not depend on the destination buffer *)

Lemma foldlM_None_elem {A B} (f : B -> A -> option B) (a : A) (l : list A) :
  a ∈ l -> (forall b, f b a = None) -> forall b, foldlM f b l = None.
Proof.
  intros Ha Hf. induction l as [|a' l IH]; intros b.
  - now apply elem_of_nil in Ha.
  - simpl. apply elem_of_cons in Ha as [<-|Ha].
    + now rewrite Hf.
    + destruct (f b a'); [now apply IH | reflexivity].
Qed.

(** stores that cover the buffer give the same result from any buffer of
    that size, in whatever order they are done *)
Lemma stores_any_dest (f : Z -> option float) (ks ks' : list Z)
    (d d' : list float) :
  length d = length d' ->
  (forall k, k ∈ ks <-> 0 <= k < Z.of_nat (length d)) ->
  (forall k, k ∈ ks' <-> 0 <= k < Z.of_nat (length d)) ->
  foldlM (store f) d ks = foldlM (store f) d' ks'.
Proof.
  intros Hlen Hks Hks'.
  destruct (Forall_Exists_dec (fun k => is_Some (f k)) (fun k => f k = None)
              (fun k => match f k as o return {is_Some o} + {o = None} with
                        | Some v => left (ex_intro _ v eq_refl)
                        | None => right eq_refl
                        end) ks) as [Hall|Hex].
  - destruct (stores_spec f ks d) as (r & -> & Hl & Hr).
    { apply Forall_forall. intros k Hk. split; [now apply Hks|].
      now apply (proj1 (Forall_forall _ _) Hall). }
    destruct (stores_spec f ks' d') as (r' & -> & Hl' & Hr').
    { apply Forall_forall. intros k Hk. split; [rewrite <- Hlen; now apply Hks'|].
      apply (proj1 (Forall_forall _ _) Hall), Hks, Hks', Hk. }
    f_equal. apply buffer_eq. intros k Hk. rewrite Hr, Hr'.
    destruct (decide (k ∈ ks)) as [Hin|Hnin].
    + rewrite decide_True by now apply Hks', Hks. reflexivity.
    + rewrite decide_False by (intros H; apply Hnin, Hks, Hks', H).
      rewrite !read_None; [reflexivity| |].
      * rewrite <- Hlen. intros H. now apply Hnin, Hks.
      * intros H. now apply Hnin, Hks.
  - apply Exists_exists in Hex as (k & Hk & Hf).
    assert (Hnone : forall b, store f b k = None)
      by (intros b; unfold store; now rewrite Hf).
    rewrite (foldlM_None_elem (store f) k ks Hk Hnone).
    rewrite (foldlM_None_elem (store f) k ks'
               (proj2 (Hks' k) (proj1 (Hks k) Hk)) Hnone).
    reflexivity.
Qed.

(** beyond 2^31 pixels, the index of some pixel overflows and its store
    lands before the buffer *)
Lemma sweep_overflows inp ncols nrows :
  0 <= nrows <= INT_MAX -> 0 <= ncols <= INT_MAX ->
  2147483648 < nrows * ncols ->
  exists p, p ∈ all_pixels ncols nrows /\
            forall out, sweep_pixel inp ncols nrows out p = None.
Proof.
  intros Hr Hc Hn. assert (0 < ncols) by nia.
  pose proof (Z.mod_pos_bound 2147483648 ncols ltac:(lia)).
  pose proof (Z.div_mod 2147483648 ncols ltac:(lia)).
  assert (0 <= 2147483648 / ncols) by (apply Z.div_pos; lia).
  assert (2147483648 / ncols < nrows) by (apply Z.div_lt_upper_bound; lia).
  exists (2147483648 / ncols, 2147483648 mod ncols). split.
  - apply elem_of_all_pixels. lia.
  - intros out. unfold sweep_pixel.
    destruct (Cpu.sobel_filtered_pixel _ _ _ _ _ _ _); [|reflexivity]. simpl.
    rewrite wrap32_add_l.
    replace (2147483648 / ncols * ncols + 2147483648 mod ncols)
      with 2147483648 by lia.
    apply write_None. change (wrap32 2147483648) with (-2147483648). lia.
Qed.

Lemma sweep_any_order_any_dest inp ncols nrows order order' out out' :
  0 <= nrows <= INT_MAX -> 0 <= ncols <= INT_MAX ->
  Z.of_nat (length out) = nrows * ncols ->
  Z.of_nat (length out') = nrows * ncols ->
  order ≡ₚ all_pixels ncols nrows -> order' ≡ₚ all_pixels ncols nrows ->
  do_sobel_filtering_omp order inp out ncols nrows =
  do_sobel_filtering_omp order' inp out' ncols nrows.
Proof.
  intros Hr Hc Hout Hout' Hord Hord'. unfold do_sobel_filtering_omp.
  destruct (Z_le_gt_dec (nrows * ncols) 2147483648) as [Hfit|Hover].
  - assert (Hlin : forall o, o ≡ₚ all_pixels ncols nrows ->
              (forall d, foldlM (sweep_pixel inp ncols nrows) d o =
                         foldlM (store (pixel_value inp ncols nrows Gx Gy)) d
                                ((fun p => fst p * ncols + snd p) <$> o)) /\
              forall k, k ∈ (fun p => fst p * ncols + snd p) <$> o <->
                        0 <= k < nrows * ncols).
    { intros o Ho. split.
      - intros d. rewrite foldlM_fmap. apply foldlM_ext. intros d0 [i j] Hp.
        rewrite Ho in Hp. apply elem_of_all_pixels in Hp as [Hi Hj].
        now apply sweep_pixel_store.
      - intros k. rewrite list_elem_of_fmap. split.
        + intros ([i j] & -> & Hp). rewrite Ho in Hp.
          apply elem_of_all_pixels in Hp. simpl. nia.
        + intros Hk. assert (0 < ncols) by nia.
          pose proof (Z.mod_pos_bound k ncols ltac:(lia)).
          pose proof (Z.div_mod k ncols ltac:(lia)).
          assert (0 <= k / ncols) by (apply Z.div_pos; lia).
          assert (k / ncols < nrows) by (apply Z.div_lt_upper_bound; lia).
          exists (k / ncols, k mod ncols). split; [simpl; lia|].
          rewrite Ho. apply elem_of_all_pixels. lia. }
    destruct (Hlin order Hord) as [-> Hks].
    destruct (Hlin order' Hord') as [-> Hks'].
    apply stores_any_dest.
    + apply Nat2Z.inj. congruence.
    + intros k. rewrite Hks. lia.
    + intros k. rewrite Hks'. lia.
  - destruct (sweep_overflows inp ncols nrows Hr Hc ltac:(lia)) as (p & Hp & Hf).
    assert (Hp1 : p ∈ order) by now rewrite Hord.
    assert (Hp2 : p ∈ order') by now rewrite Hord'.
    rewrite (foldlM_None_elem _ p order Hp1 Hf).
    rewrite (foldlM_None_elem _ p order' Hp2 Hf).
    reflexivity.
Qed.

Lemma do_sobel_filtering_omp_length order inp out ncols nrows r :
  do_sobel_filtering_omp order inp out ncols nrows = Some r ->
  length r = length out.
Proof.
  unfold do_sobel_filtering_omp.
  apply (foldlM_invariant (fun d => length d = length out)); [|reflexivity].
  intros d [i j] d' _ Hd. unfold sweep_pixel.
  destruct (Cpu.sobel_filtered_pixel _ _ _ _ _ _ _); [|discriminate]. simpl.
  intros Hw. apply write_length in Hw. congruence.
Qed.

Section Sweeps.

Variables (inp : list float) (ncols nrows : Z).
Hypothesis rows_int : 0 <= nrows <= INT_MAX.
Hypothesis cols_int : 0 <= ncols <= INT_MAX.

Lemma sweep_any_dest order d d' :
  order ≡ₚ all_pixels ncols nrows ->
  Z.of_nat (length d) = nrows * ncols ->
  Z.of_nat (length d') = nrows * ncols ->
  do_sobel_filtering_omp order inp d ncols nrows
  = do_sobel_filtering inp d' ncols nrows.
Proof.
  intros Ho Hd Hd'. rewrite do_sobel_filtering_omp_program_order.
  now apply sweep_any_order_any_dest.
Qed.

Lemma sweep_size d r :
  Z.of_nat (length d) = nrows * ncols ->
  do_sobel_filtering inp d ncols nrows = Some r ->
  Z.of_nat (length r) = nrows * ncols.
Proof.
  intros Hd Hrun. rewrite do_sobel_filtering_omp_program_order in Hrun.
  apply do_sobel_filtering_omp_length in Hrun. congruence.
Qed.

Lemma sweep_again d r :
  Z.of_nat (length d) = nrows * ncols ->
  do_sobel_filtering inp d ncols nrows = Some r ->
  do_sobel_filtering inp r ncols nrows = Some r.
Proof.
  intros Hd Hrun. rewrite <- Hrun.
  rewrite do_sobel_filtering_omp_program_order at 1.
  apply sweep_any_dest; [reflexivity| |assumption].
  now apply (sweep_size d).
Qed.




End Sweeps.


(** ** The converter *)

Lemma all_bytes_round_trip :
  forallb (fun b => float_to_byte (byte_to_float b) =? b) (seqZ 0 256) = true.
Proof. vm_compute. reflexivity. Qed.

(** C7. For each of the bytes 0, 1, 127, 128, 254 and 255, the conversion to
    the normalized domain (times 0.003921568627451 in [double], stored as
    [float]) followed by the conversion back (times 255.0 in [double], cast
    to an 8-bit byte) gives the byte again. *)
Theorem byte_round_trip (b : Z) :
  b ∈ [0; 1; 127; 128; 254; 255] -> float_to_byte (byte_to_float b) = b.
Proof.
  intros Hb.
  repeat (apply elem_of_cons in Hb as [->|Hb]; [vm_compute; reflexivity|]).
  now apply elem_of_nil in Hb.
Qed.

Lemma byte_round_trip_witness : float_to_byte (byte_to_float 127) = 127.
Proof.
  apply (byte_round_trip 127).
  repeat (first [apply list_elem_of_here | apply list_elem_of_further]).
Defined.

(** ** A launch without units *)

Lemma units_empty nBlocks nThreadsPerBlock :
  0 <= nBlocks -> 0 <= nThreadsPerBlock ->
  nBlocks * nThreadsPerBlock = 0 -> units nBlocks nThreadsPerBlock = [].
Proof.
  intros HB HT H0. apply elem_of_nil_inv. intros u Hu.
  apply elem_of_units in Hu as (b & t & Hb & Ht & _). nia.
Qed.

Lemma white_is_255 : float_to_byte F32.one = 255.
Proof. vm_compute. reflexivity. Qed.

(** C9. The GPU driver sets every element of the output buffer to 1.0
    before the launch. In a run that reads its input and whose runtime calls
    succeed, with a launch shape of no unit (blocks*threadsPerBlock = 0, as
    for a first argument that [atoi] reads as 0), the launch leaves the
    buffer at 1.0 everywhere, and every byte written to the output file is
    255. *)
Theorem launch_without_units_writes_white
    (fuel : nat) (cfg : config) (w : world) (args : list string)
    (file : list Z) :
  let nvalues := fst (data_dims cfg) * snd (data_dims cfg) in
  let nBlocks := uwrap32 (fst (launch_shape args)) in
  let nThreadsPerBlock := uwrap32 (snd (launch_shape args)) in
  0 <= nvalues <= INT_MAX ->
  input_file w = Some file -> nvalues <= Z.of_nat (length file) ->
  (forall call, cuda_error w call = 0) ->
  nBlocks * nThreadsPerBlock = 0 ->
  (forall c,
     launch c fuel (units nBlocks nThreadsPerBlock)
            (byte_to_float <$> take (Z.to_nat nvalues) file)
            (replicate (Z.to_nat nvalues) F32.one)
            nvalues (snd (data_dims cfg)) (fst (data_dims cfg)) Gx Gy
     = Done (replicate (Z.to_nat nvalues) F32.one)) /\
  (forall bytes,
     run_output (gpu_main fuel cfg w args) = Some bytes ->
     Forall (fun b => b = 255) bytes) /\
  (forall room,
     output_room w = Some room ->
     run_output (gpu_main fuel cfg w args)
       = Some (take (Z.to_nat room) (replicate (Z.to_nat nvalues) 255)) /\
     (nvalues <= room -> run_status (gpu_main fuel cfg w args) = Exit 0)).
Proof.
  intros nvalues nBlocks nThreadsPerBlock Hn Hfile Hlen Hcuda Hshape.
  assert (Hunits : units nBlocks nThreadsPerBlock = []).
  { apply units_empty; [| |assumption]; unfold nBlocks, nThreadsPerBlock, uwrap32;
      apply Z.mod_pos_bound; lia. }
  assert (exists stdout,
             gpu_main fuel cfg w args =
             write_output cfg w nvalues
               (replicate (Z.to_nat nvalues) F32.one) stdout) as [stdout Hrun].
  { eexists. unfold gpu_main. fold nvalues. rewrite Hfile.
    rewrite (wrap32_id nvalues) by (unfold INT_MIN; lia).
    unfold fread. rewrite (proj2 (Z.leb_le 0 nvalues)) by lia.
    rewrite length_take, Nat.min_l by lia.
    unfold size_t. rewrite Z.mod_small by (unfold INT_MAX in *; lia).
    rewrite Z2Nat.id, Z.eqb_refl by lia. simpl negb. cbv iota.
    unfold gpuErrchk. rewrite !Hcuda. simpl (0 =? 0). cbv iota.
    fold nBlocks nThreadsPerBlock. rewrite Hunits. reflexivity. }
  assert (Hbytes : float_to_byte <$> replicate (Z.to_nat nvalues) F32.one
                   = replicate (Z.to_nat nvalues) 255).
  { rewrite fmap_replicate. now rewrite white_is_255. }
  split; [intros c; now rewrite Hunits|]. split.
  - intros bytes. rewrite Hrun. unfold write_output. rewrite Hbytes.
    destruct (output_room w) as [room|]; [|discriminate].
    assert (Hall : Forall (fun b => b = 255)
                     (take (Z.to_nat room) (replicate (Z.to_nat nvalues) 255))).
    { apply Forall_take, Forall_replicate. reflexivity. }
    destruct (_ =? _), (short_write w); simpl; intros [= <-]; exact Hall.
  - intros room Hroom. rewrite Hrun. unfold write_output.
    rewrite Hbytes, Hroom. split.
    + destruct (_ =? _), (short_write w); reflexivity.
    + intros Hfull. rewrite length_take, length_replicate, Nat.min_r by lia.
      unfold size_t. rewrite Z.mod_small by (unfold INT_MAX in *; lia).
      rewrite Z2Nat.id, Z.eqb_refl by lia. reflexivity.
Qed.

Lemma launch_without_units_writes_white_witness :
  let cfg := {| input_fname := "in.raw"; data_dims := (2, 2);
                output_fname := "out.raw" |} in
  let w := {| input_file := Some [10; 20; 30; 40]; output_room := Some 4;
              heap := fun _ => F32.zero;
              omp_order := fun _ ncols nrows => all_pixels ncols nrows;
              elapsed := fun _ => ""%string;
              cuda_error := fun _ => 0;
              device_fmad := Fmad_on true; short_write := Reported |} in
  run_output (gpu_main 0 cfg w ["0"%string]) = Some [255; 255; 255; 255].
Proof.
  intros cfg w.
  assert (Hn : 0 <= 2 * 2 <= INT_MAX) by (unfold INT_MAX; lia).
  assert (Hlen : 2 * 2 <= Z.of_nat (length [10; 20; 30; 40])) by (simpl; lia).
  destruct (launch_without_units_writes_white 0 cfg w ["0"%string]
              [10; 20; 30; 40] Hn eq_refl Hlen (fun _ => eq_refl) eq_refl)
    as (_ & _ & H).
  destruct (H 4 eq_refl) as [Hout _]. exact Hout.
Defined.

(** ** Failures of the file operations *)

Lemma is_prefix_app p s : is_prefix p (p ++ s)%string = true.
Proof.
  induction p as [|a p IH]; [reflexivity|]. simpl.
  now rewrite Ascii.eqb_refl, IH.
Qed.

Lemma is_infix_app pre p post : is_infix p (pre ++ p ++ post)%string = true.
Proof.
  induction pre as [|a pre IH]; simpl.
  - pose proof (is_prefix_app p post) as H.
    destruct (p ++ post)%string; simpl; now rewrite H.
  - rewrite IH. apply orb_true_r.
Qed.

Lemma short_read nvalues file :
  0 <= nvalues <= INT_MAX -> Z.of_nat (length file) < nvalues ->
  negb (Z.of_nat (length (fread nvalues file)) =? size_t nvalues) = true.
Proof.
  intros Hn Hshort. unfold fread.
  rewrite (proj2 (Z.leb_le 0 nvalues)) by lia.
  rewrite length_take, Nat.min_r by lia.
  unfold size_t. rewrite Z.mod_small by (unfold INT_MAX in *; lia).
  apply negb_true_iff, Z.eqb_neq. lia.
Qed.

Lemma cpu_main_short_read cfg w file :
  0 <= fst (data_dims cfg) * snd (data_dims cfg) <= INT_MAX ->
  input_file w = Some file ->
  Z.of_nat (length file) < fst (data_dims cfg) * snd (data_dims cfg) ->
  cpu_main cfg w = {| run_status := Exit 1;
                      run_stdout := "Error reading input file. " ++ nl;
                      run_output := None |}.
Proof.
  intros Hn Hfile Hshort. unfold cpu_main. rewrite Hfile.
  rewrite wrap32_id by (unfold INT_MIN; lia).
  cbv zeta. now rewrite (short_read _ file Hn Hshort).
Qed.

Lemma gpu_main_short_read fuel cfg w args file :
  0 <= fst (data_dims cfg) * snd (data_dims cfg) <= INT_MAX ->
  input_file w = Some file ->
  Z.of_nat (length file) < fst (data_dims cfg) * snd (data_dims cfg) ->
  gpu_main fuel cfg w args = {| run_status := Exit 1;
                                run_stdout := "Error reading input file. " ++ nl;
                                run_output := None |}.
Proof.
  intros Hn Hfile Hshort. unfold gpu_main. rewrite Hfile.
  rewrite wrap32_id by (unfold INT_MIN; lia).
  cbv zeta. now rewrite (short_read _ file Hn Hshort).
Qed.

Lemma cpu_main_missing_input cfg w :
  input_file w = None ->
  cpu_main cfg w = {| run_status := Exit 1;
                      run_stdout := " Error opening the input file: "
                                      ++ input_fname cfg ++ " " ++ nl;
                      run_output := None |}.
Proof. intros Hfile. unfold cpu_main. now rewrite Hfile. Qed.

(** the GPU program does not test the result of [fopen]: without the input
    file it reads through a null [FILE *] *)
Lemma gpu_main_missing_input_crashes fuel cfg w args :
  input_file w = None -> run_status (gpu_main fuel cfg w args) = Crash.
Proof. intros Hfile. unfold gpu_main. now rewrite Hfile. Qed.

(** what the end of a run does with a file that holds another number of
    bytes than [nvalues] depends on how the loss shows *)
Lemma write_output_short cfg w nvalues out stdout written :
  run_output (write_output cfg w nvalues out stdout) = Some written ->
  Z.of_nat (length written) <> size_t nvalues ->
  match short_write w with
  | Reported =>
      run_status (write_output cfg w nvalues out stdout) = Exit 1 /\
      run_stdout (write_output cfg w nvalues out stdout)
      = (stdout ++ "Error writing output file. " ++ nl)%string
  | Unnoticed =>
      run_status (write_output cfg w nvalues out stdout) = Exit 0 /\
      run_stdout (write_output cfg w nvalues out stdout)
      = (stdout ++ " Wrote the output file " ++ output_fname cfg
                ++ " " ++ nl)%string
  | Signalled =>
      run_status (write_output cfg w nvalues out stdout) = Killed /\
      run_stdout (write_output cfg w nvalues out stdout) = stdout
  end.
Proof.
  unfold write_output. destruct (output_room w) as [room|]; [|discriminate].
  destruct (Z.eqb_spec (Z.of_nat (length (take (Z.to_nat room)
                                            (float_to_byte <$> out))))
                       (size_t nvalues)) as [Heq|Hne]; simpl.
  - intros [= <-] Hw. contradiction.
  - intros _ _. destruct (short_write w); split; reflexivity.
Qed.

Lemma cpu_main_writes cfg w written :
  run_output (cpu_main cfg w) = Some written ->
  exists out stdout,
    cpu_main cfg w =
    write_output cfg w (wrap32 (fst (data_dims cfg) * snd (data_dims cfg)))
                 out stdout.
Proof.
  unfold cpu_main. destruct (input_file w); [|discriminate].
  cbv zeta. destruct (negb _); [discriminate|].
  destruct (foldlM _ _ _) as [[out stdout]|]; [|discriminate]. eauto.
Qed.

Lemma gpu_main_writes fuel cfg w args written :
  run_output (gpu_main fuel cfg w args) = Some written ->
  exists out stdout,
    gpu_main fuel cfg w args =
    write_output cfg w (wrap32 (fst (data_dims cfg) * snd (data_dims cfg)))
                 out stdout.
Proof.
  unfold gpu_main, gpuErrchk. destruct (input_file w); [|discriminate].
  cbv zeta. destruct (negb _); [discriminate|].
  repeat (destruct (cuda_error w _ =? 0); [|discriminate]).
  destruct (launch _ _ _ _ _ _ _ _ _ _) as [out| |]; try discriminate.
  destruct (cuda_error w _ =? 0); [|discriminate]. eauto.
Qed.

(** C6, amended. In a run of either program in which the read of the
    rows*cols bytes comes up short, the process prints
    "Error reading input file." (a line that does not name the file) and
    exits with code 1, without output; in a run of the CPU program in which
    the input file cannot be opened, the process prints a line that holds
    the path of the file and exits with code 1; and in a run of either
    program in which [fwrite] reports that fewer than rows*cols bytes were
    written to the output file, the process prints
    "Error writing output file." last and exits with code 1. *)
Theorem file_failures_exit_1
    (fuel : nat) (cfg : config) (w : world) (args : list string) :
  let nvalues := fst (data_dims cfg) * snd (data_dims cfg) in
  0 <= nvalues <= INT_MAX ->
  (forall file,
     input_file w = Some file -> Z.of_nat (length file) < nvalues ->
     cpu_main cfg w = {| run_status := Exit 1;
                         run_stdout := "Error reading input file. " ++ nl;
                         run_output := None |} /\
     gpu_main fuel cfg w args
       = {| run_status := Exit 1;
            run_stdout := "Error reading input file. " ++ nl;
            run_output := None |}) /\
  (input_file w = None ->
     run_status (cpu_main cfg w) = Exit 1 /\
     run_output (cpu_main cfg w) = None /\
     is_infix (input_fname cfg) (run_stdout (cpu_main cfg w)) = true) /\
  (forall written,
     Z.of_nat (length written) < nvalues ->
     short_write w = Reported ->
     (run_output (cpu_main cfg w) = Some written ->
      run_status (cpu_main cfg w) = Exit 1 /\
      exists stdout, run_stdout (cpu_main cfg w)
                     = (stdout ++ "Error writing output file. " ++ nl)%string) /\
     (run_output (gpu_main fuel cfg w args) = Some written ->
      run_status (gpu_main fuel cfg w args) = Exit 1 /\
      exists stdout, run_stdout (gpu_main fuel cfg w args)
                     = (stdout ++ "Error writing output file. " ++ nl)%string)).
Proof.
  intros nvalues Hn. split; [|split].
  - intros file Hfile Hshort. split.
    + now apply (cpu_main_short_read cfg w file).
    + now apply (gpu_main_short_read fuel cfg w args file).
  - intros Hfile. rewrite (cpu_main_missing_input cfg w Hfile). simpl.
    repeat split. apply (is_infix_app " Error opening the input file: ").
  - intros written Hshort Hrep.
    assert (Hne : Z.of_nat (length written) <> size_t (wrap32 nvalues)).
    { rewrite wrap32_id by (unfold INT_MIN; lia). unfold size_t.
      rewrite Z.mod_small by (unfold INT_MAX in *; lia). lia. }
    split; intros Hout.
    + destruct (cpu_main_writes cfg w written Hout) as (out & stdout & E).
      fold nvalues in E. rewrite E in *.
      pose proof (write_output_short _ _ _ _ _ _ Hout Hne) as H.
      rewrite Hrep in H. destruct H as [-> ->]. eauto.
    + destruct (gpu_main_writes fuel cfg w args written Hout)
        as (out & stdout & E).
      fold nvalues in E. rewrite E in *.
      pose proof (write_output_short _ _ _ _ _ _ Hout Hne) as H.
      rewrite Hrep in H. destruct H as [-> ->]. eauto.
Qed.

Lemma file_failures_exit_1_witness :
  let cfg := {| input_fname := "in.raw"; data_dims := (2, 2);
                output_fname := "out.raw" |} in
  let w := {| input_file := Some [10; 20; 30; 40]; output_room := Some 3;
              heap := fun _ => F32.zero;
              omp_order := fun _ ncols nrows => all_pixels ncols nrows;
              elapsed := fun _ => ""%string;
              cuda_error := fun _ => 0;
              device_fmad := Fmad_on true; short_write := Reported |} in
  let w' := {| input_file := Some [10; 20]; output_room := Some 4;
               heap := fun _ => F32.zero;
               omp_order := fun _ ncols nrows => all_pixels ncols nrows;
               elapsed := fun _ => ""%string;
               cuda_error := fun _ => 0;
               device_fmad := Fmad_on true; short_write := Reported |} in
  cpu_main cfg w' = {| run_status := Exit 1;
                       run_stdout := "Error reading input file. " ++ nl;
                       run_output := None |} /\
  run_status (gpu_main 4 cfg w []) = Exit 1.
Proof.
  intros cfg w w'.
  assert (Hn : 0 <= 2 * 2 <= INT_MAX) by (unfold INT_MAX; lia).
  split.
  - destruct (file_failures_exit_1 0 cfg w' [] Hn) as (H & _ & _).
    assert (Hshort : Z.of_nat (length [10; 20]) < 2 * 2) by (simpl; lia).
    destruct (H [10; 20] eq_refl Hshort) as [Hcpu _]. exact Hcpu.
  - destruct (file_failures_exit_1 4 cfg w [] Hn) as (_ & _ & H).
    assert (Hshort : Z.of_nat (length [128; 120; 107]) < 2 * 2)
      by (simpl; lia).
    destruct (H [128; 120; 107] Hshort eq_refl) as [_ Hgpu].
    assert (Hout : run_output (gpu_main 4 cfg w []) = Some [128; 120; 107])
      by (vm_compute; reflexivity).
    destruct (Hgpu Hout) as [Hstatus _]. exact Hstatus.
Defined.

(** C6 as stated fails on a short read: with the configuration of the
    sources and an empty input file, both programs exit with code 1, but the
    line they print does not hold the path of the file. It fails on a short
    write as well where the loss does not show in what [fwrite] returns:
    the bytes that [fwrite] left in the buffer of the stream are lost at
    the [fclose] that [main] does not test, and the run prints
    "Wrote the output file" and exits with code 0 over a file that holds
    none of the bytes; or the write is ended by a signal. *)
Lemma file_failures_exit_1_counterexample :
  let w := fun room lost =>
             {| input_file := Some room; output_room := Some 0;
                heap := fun _ => F32.zero;
                omp_order := fun _ ncols nrows => all_pixels ncols nrows;
                elapsed := fun _ => ""%string;
                cuda_error := fun _ => 0;
                device_fmad := Fmad_on true; short_write := lost |} in
  let cfg := {| input_fname := "in.raw"; data_dims := (2, 2);
                output_fname := "out.raw" |} in
  (run_status (cpu_main zebra_4x (w [] Reported)) = Exit 1 /\
   is_infix (input_fname zebra_4x)
            (run_stdout (cpu_main zebra_4x (w [] Reported))) = false /\
   run_status (gpu_main 0 zebra_4x (w [] Reported) []) = Exit 1 /\
   is_infix (input_fname zebra_4x)
            (run_stdout (gpu_main 0 zebra_4x (w [] Reported) [])) = false) /\
  (run_output (cpu_main cfg (w [10; 20; 30; 40] Unnoticed)) = Some [] /\
   run_status (cpu_main cfg (w [10; 20; 30; 40] Unnoticed)) = Exit 0 /\
   is_infix "Wrote the output file"
            (run_stdout (cpu_main cfg (w [10; 20; 30; 40] Unnoticed))) = true /\
   run_output (gpu_main 4 cfg (w [10; 20; 30; 40] Unnoticed) []) = Some [] /\
   run_status (gpu_main 4 cfg (w [10; 20; 30; 40] Unnoticed) []) = Exit 0 /\
   is_infix "Wrote the output file"
            (run_stdout (gpu_main 4 cfg (w [10; 20; 30; 40] Unnoticed) []))
   = true) /\
  (run_output (cpu_main cfg (w [10; 20; 30; 40] Signalled)) = Some [] /\
   run_status (cpu_main cfg (w [10; 20; 30; 40] Signalled)) = Killed /\
   run_status (gpu_main 4 cfg (w [10; 20; 30; 40] Signalled) []) = Killed).
Proof.
  intros w cfg. split; [|split].
  - assert (Hn : 0 <= fst (data_dims zebra_4x) * snd (data_dims zebra_4x)
                 <= INT_MAX) by (simpl; unfold INT_MAX; lia).
    assert (Hshort : Z.of_nat (length (@nil Z))
                     < fst (data_dims zebra_4x) * snd (data_dims zebra_4x))
      by (simpl; lia).
    rewrite (cpu_main_short_read zebra_4x (w [] Reported) [] Hn eq_refl Hshort).
    rewrite (gpu_main_short_read 0 zebra_4x (w [] Reported) [] [] Hn eq_refl
               Hshort).
    repeat split; vm_compute; reflexivity.
  - repeat split; vm_compute; reflexivity.
  - repeat split; vm_compute; reflexivity.
Qed.

(** ** A uniform image *)

Lemma contributing_interior i j ncols nrows :
  1 <= i < nrows - 1 -> 1 <= j < ncols - 1 ->
  contributing i j ncols nrows = neighbourhood.
Proof.
  intros Hi Hj. unfold contributing.
  change neighbourhood
    with [(-1, -1); (-1, 0); (-1, 1); (0, -1); (0, 0); (0, 1);
          (1, -1); (1, 0); (1, 1)].
  repeat rewrite filter_cons_True by (apply in_bounds_true; simpl; lia).
  reflexivity.
Qed.

Lemma read_replicate {A} (n : Z) (v : A) (k : Z) :
  0 <= k < n -> read (replicate (Z.to_nat n) v) k = Some v.
Proof.
  intros Hk. unfold read. rewrite (proj2 (Z.leb_le 0 k)) by lia.
  apply lookup_replicate_2. lia.
Qed.

Lemma weighted_sum_fold_left s g v (ts : list (Z * Z)) (ws : list float) :
  Forall2 (fun tap w => read g (fst tap) = Some w /\
                        read s (snd tap) = Some v) ts ws ->
  forall acc,
    foldlM (fun t tap =>
              w ← read g (fst tap);
              v ← read s (snd tap);
              Some (F32.add t (F32.mul w v))) acc ts
    = Some (fold_left (fun t w => F32.add t (F32.mul w v)) ws acc).
Proof.
  induction 1 as [|tap w ts ws [Hw Hv] _ IH]; intros acc; [reflexivity|].
  cbn [foldlM fold_left]. rewrite Hw, Hv. cbn [mbind option_bind].
  apply IH.
Qed.

Lemma weighted_sum_uniform v g i j ncols nrows :
  length g = 9%nat -> nrows * ncols <= 2147483648 ->
  1 <= i < nrows - 1 -> 1 <= j < ncols - 1 ->
  weighted_sum (replicate (Z.to_nat (nrows * ncols)) v) g
               (taps i j ncols nrows)
  = Some (uniform_sum g v).
Proof.
  intros Hg Hn Hi Hj.
  assert (Hread : forall dy dx, -1 <= dy <= 1 -> -1 <= dx <= 1 ->
            read (replicate (Z.to_nat (nrows * ncols)) v)
                 (neighbor_index (i + dy) (j + dx) ncols) = Some v).
  { intros dy dx Hdy Hdx.
    destruct (neighbor_index_exact (i + dy) (j + dx) ncols nrows)
      as [-> Hk]; [lia..|].
    now apply read_replicate. }
  do 9 (destruct g as [|? g]; [discriminate|]).
  destruct g; [|discriminate].
  unfold taps. rewrite contributing_interior by assumption.
  change neighbourhood
    with [(-1, -1); (-1, 0); (-1, 1); (0, -1); (0, 0); (0, 1);
          (1, -1); (1, 0); (1, 1)].
  unfold weighted_sum, uniform_sum. apply weighted_sum_fold_left.
  cbn [fmap list_fmap fst snd].
  repeat (constructor; [split; [reflexivity | apply Hread; lia]|]).
  constructor.
Qed.

Lemma uniform_interior_pixel v i j ncols nrows :
  nrows <= INT_MAX -> ncols <= INT_MAX -> nrows * ncols <= 2147483648 ->
  1 <= i < nrows - 1 -> 1 <= j < ncols - 1 ->
  Cpu.sobel_filtered_pixel (replicate (Z.to_nat (nrows * ncols)) v)
                           i j ncols nrows Gx Gy
  = Some (uniform_magnitude v).
Proof.
  intros Hr Hc Hn Hi Hj.
  rewrite cpu_pixel_is_evaluate by lia. unfold evaluate, uniform_magnitude.
  rewrite (weighted_sum_uniform v Gx i j ncols nrows) by easy.
  rewrite (weighted_sum_uniform v Gy i j ncols nrows) by easy.
  reflexivity.
Qed.

Lemma same_float_eq x y : same_float x y = true -> x = y.
Proof.
  destruct x as [a|a| |a m e], y as [b|b| |b m' e']; simpl;
    try discriminate; try reflexivity.
  - intros H. apply Bool.eqb_prop in H. congruence.
  - intros H. apply Bool.eqb_prop in H. congruence.
  - rewrite !andb_true_iff. intros [[H1 H2] H3].
    apply Bool.eqb_prop in H1. apply Pos.eqb_eq in H2. apply Z.eqb_eq in H3.
    congruence.
Qed.

Lemma nth_replicate_lt {A} (n k : nat) (v x : A) :
  (k < n)%nat -> nth k (replicate n v) x = v.
Proof. intros Hk. now rewrite nth_lookup, lookup_replicate_2. Qed.

(** in a uniform image the device computes, at an interior pixel, the
    magnitude of the nine weights times the sample in its arithmetic *)
Lemma device_uniform_interior_pixel c v i j ncols nrows :
  nrows <= INT_MAX -> ncols <= INT_MAX -> nrows * ncols <= 2147483648 ->
  1 <= i < nrows - 1 -> 1 <= j < ncols - 1 ->
  Gpu.device_pixel c (replicate (Z.to_nat (nrows * ncols)) v)
                   i j ncols nrows Gx Gy
  = Some (device_uniform_magnitude c v).
Proof.
  intros Hr Hc Hn Hi Hj.
  rewrite device_pixel_spec;
    [|solve [lia | reflexivity | rewrite length_replicate; nia] ..].
  assert (Hsum : forall g,
             directional_sum c (replicate (Z.to_nat (nrows * ncols)) v) g
                             nrows ncols i j
             = fold_left (fun t d => mul_add c (weight_at g (fst d) (snd d)) v t)
                         window F32.zero).
  { intros g. unfold directional_sum, window. cbn [fold_left fst snd].
    decide_inside. unfold sample_at.
    rewrite !nth_replicate_lt by nia. reflexivity. }
  unfold gradient_magnitude. rewrite !Hsum. reflexivity.
Qed.

(** on the normalized value of a byte, the device computes the magnitude
    that the CPU computes, however its arithmetic was compiled: the
    products by the weights are exact, and one of the two sums is 0.0 *)
Lemma device_uniform_bytes :
  forallb (fun b =>
             forallb (fun c =>
                        same_float
                          (device_uniform_magnitude c (byte_to_float b))
                          (uniform_magnitude (byte_to_float b)))
                     [Fmad_off; Fmad_on true; Fmad_on false])
          (seqZ 0 256) = true.
Proof. vm_compute. reflexivity. Qed.

Lemma uniform_bytes_quantize_to_0 :
  forallb (fun b =>
             (float_to_byte (uniform_magnitude (byte_to_float b)) =? 0)
             && SFleb (uniform_magnitude (byte_to_float b))
                      (S754_finite false 8388608 (-46))
             && SFeqb (uniform_sum Gx (byte_to_float b)) F32.zero)
          (seqZ 0 256) = true.
Proof. vm_compute. reflexivity. Qed.

(** C4, amended. In a uniform source buffer (every sample equal to v) of
    rows*cols <= 2^31 samples, the evaluator returns at every interior
    pixel (1 <= row <= rows-2, 1 <= col <= cols-2) the magnitude computed
    from the [float] sums of the nine weights times v. This magnitude is
    exactly 0.0 for v = 0.0 and for v = 1.0; for the normalized value of any
    byte, Gx_sum is 0.0 and the magnitude is the rounding residue of Gy_sum,
    2^-23 at most, which the converter quantizes to the byte 0; the device
    returns the same magnitude there, however its arithmetic was
    compiled. *)
Theorem flat_field_interior (v : float) (rows cols row col : Z) :
  rows <= INT_MAX -> cols <= INT_MAX -> rows * cols <= 2147483648 ->
  1 <= row < rows - 1 -> 1 <= col < cols - 1 ->
  Cpu.sobel_filtered_pixel (replicate (Z.to_nat (rows * cols)) v)
                           row col cols rows Gx Gy
    = Some (uniform_magnitude v) /\
  Gpu.sobel_filtered_pixel (replicate (Z.to_nat (rows * cols)) v)
                           row col cols rows Gx Gy
    = Some (uniform_magnitude v) /\
  (v = F32.zero \/ v = F32.one -> uniform_magnitude v = F32.zero) /\
  (forall b, 0 <= b <= 255 -> v = byte_to_float b ->
     SFeqb (uniform_sum Gx v) F32.zero = true /\
     SFleb (uniform_magnitude v) (S754_finite false 8388608 (-46)) = true /\
     float_to_byte (uniform_magnitude v) = 0) /\
  (forall c b, 0 <= b <= 255 -> v = byte_to_float b ->
     Gpu.device_pixel c (replicate (Z.to_nat (rows * cols)) v)
                      row col cols rows Gx Gy
     = Some (uniform_magnitude v)).
Proof.
  intros Hr Hc Hn Hrow Hcol. split; [|split; [|split; [|split]]].
  - now apply uniform_interior_pixel.
  - rewrite gpu_pixel_is_cpu_pixel. now apply uniform_interior_pixel.
  - intros [->| ->]; vm_compute; reflexivity.
  - intros b Hb ->.
    pose proof uniform_bytes_quantize_to_0 as H.
    rewrite forallb_forall in H.
    specialize (H b). rewrite !andb_true_iff, Z.eqb_eq in H.
    assert (Hin : In b (seqZ 0 256)).
    { apply list_elem_of_In, elem_of_seqZ. lia. }
    destruct (H Hin) as [[H1 H2] H3]. auto.
  - intros c b Hb ->.
    rewrite device_uniform_interior_pixel by assumption. f_equal.
    pose proof device_uniform_bytes as H.
    rewrite forallb_forall in H.
    assert (Hin : In b (seqZ 0 256)).
    { apply list_elem_of_In, elem_of_seqZ. lia. }
    specialize (H b Hin). rewrite forallb_forall in H.
    apply same_float_eq, H.
    destruct c as [|[|]]; simpl; auto.
Qed.

Lemma flat_field_interior_witness :
  Cpu.sobel_filtered_pixel (replicate (Z.to_nat (3 * 4)) (byte_to_float 200))
                           1 2 4 3 Gx Gy
    = Some (uniform_magnitude (byte_to_float 200)) /\
  float_to_byte (uniform_magnitude (byte_to_float 200)) = 0.
Proof.
  destruct (flat_field_interior (byte_to_float 200) 3 4 1 2)
    as (Hcpu & _ & _ & Hbyte & _); try (unfold INT_MAX; lia).
  split; [exact Hcpu|].
  destruct (Hbyte 200 ltac:(lia) eq_refl) as (_ & _ & H). exact H.
Defined.

(** C4 as stated fails twice. At the corner (0,0) of a 2x2 image of samples
    1.0, the five neighbours outside the image are left out of the sums,
    which are -3.0 each: the magnitude is sqrt(18), quantized to the byte
    57. And at the centre of a 3x3 image whose samples are the normalized
    value of the byte 1, the sum 1*v + 2*v + 1*v is rounded and Gy_sum is
    left at 2^-31: the magnitude is 2^-31, not 0.0. *)
Lemma flat_field_interior_counterexample :
  Cpu.sobel_filtered_pixel (replicate 4 F32.one) 0 0 2 2 Gx Gy
    = Some (F32.sqrt (F32.of_Z 18)) /\
  F32.sqrt (F32.of_Z 18) <> F32.zero /\
  float_to_byte (F32.sqrt (F32.of_Z 18)) = 57 /\
  Cpu.sobel_filtered_pixel (replicate 9 (byte_to_float 1)) 1 1 3 3 Gx Gy
    = Some (S754_finite false 8388608 (-54)) /\
  Gpu.sobel_filtered_pixel (replicate 9 (byte_to_float 1)) 1 1 3 3 Gx Gy
    = Some (S754_finite false 8388608 (-54)).
Proof.
  repeat split; try (vm_compute; reflexivity).
  vm_compute. discriminate.
Qed.

(** ** Exact operations in binary64 *)

Lemma iter_pos_iter {A} (f : A -> A) (n : positive) (x : A) :
  SpecFloat.iter_pos f n x = Pos.iter f x n.
Proof.
  revert x. induction n as [n IH|n IH|]; intros x; simpl.
  - rewrite !IH. now rewrite <- !Pos.iter_swap.
  - now rewrite !IH.
  - reflexivity.
Qed.

Lemma Zpos_iter_xO (p n : positive) :
  Zpos (Pos.iter xO p n) = Zpos p * 2 ^ Zpos n.
Proof.
  induction n as [|n IH] using Pos.peano_ind.
  - simpl. lia.
  - rewrite Pos.iter_succ, Pos2Z.inj_succ, Z.pow_succ_r by lia.
    rewrite Pos2Z.inj_xO, IH. lia.
Qed.

Lemma digits2_iter_xO (p n : positive) :
  Zpos (digits2_pos (Pos.iter xO p n)) = Zpos (digits2_pos p) + Zpos n.
Proof.
  induction n as [|n IH] using Pos.peano_ind.
  - simpl. lia.
  - rewrite Pos.iter_succ. simpl digits2_pos. lia.
Qed.

Lemma shr_iter_xO (n p : positive) :
  SpecFloat.iter_pos shr_1 n {| shr_m := Zpos (Pos.iter xO p n);
                                shr_r := false; shr_s := false |}
  = {| shr_m := Zpos p; shr_r := false; shr_s := false |}.
Proof.
  rewrite iter_pos_iter. revert p.
  induction n as [|n IH] using Pos.peano_ind; intros p.
  - reflexivity.
  - rewrite (Pos.iter_succ_r n _ xO), Pos.iter_succ, IH. reflexivity.
Qed.

(** rounding a mantissa that is already canonical changes nothing *)
Lemma binary_round_aux_canonical prec emax s (mx : positive) ex :
  fexp prec emax (Zpos (digits2_pos mx) + ex) = ex ->
  ex <= emax - prec ->
  binary_round_aux prec emax s (Zpos mx) ex loc_Exact = S754_finite s mx ex.
Proof.
  intros Hc He. unfold binary_round_aux, shr_fexp. cbn [Zdigits2].
  rewrite Hc, Z.sub_diag. cbn [shr shr_record_of_loc shr_m loc_of_shr_record round_nearest_even Zdigits2].
  rewrite Hc, Z.sub_diag. cbn [shr shr_record_of_loc shr_m].
  now rewrite (proj2 (Z.leb_le ex (emax - prec))) by lia.
Qed.

(** rounding away zero bits is exact *)
Lemma binary_round_aux_zeros prec emax s (q n : positive) ex :
  fexp prec emax (Zpos (digits2_pos (Pos.iter xO q n)) + ex) = ex + Zpos n ->
  ex + Zpos n <= emax - prec ->
  binary_round_aux prec emax s (Zpos (Pos.iter xO q n)) ex loc_Exact
  = S754_finite s q (ex + Zpos n).
Proof.
  intros Hc He. unfold binary_round_aux, shr_fexp. cbn [Zdigits2].
  rewrite Hc. replace (ex + Zpos n - ex) with (Zpos n) by lia.
  cbn [shr shr_record_of_loc]. rewrite shr_iter_xO.
  cbn [shr_m loc_of_shr_record round_nearest_even Zdigits2].
  replace (Zpos (digits2_pos q) + (ex + Zpos n))
    with (Zpos (digits2_pos (Pos.iter xO q n)) + ex)
    by (rewrite digits2_iter_xO; lia).
  rewrite Hc, Z.sub_diag. cbn [shr shr_record_of_loc shr_m].
  now rewrite (proj2 (Z.leb_le _ (emax - prec))) by lia.
Qed.

Lemma digits2_size p : digits2_pos p = Pos.size p.
Proof. induction p; simpl; congruence. Qed.

Lemma digits2_bounds (p : positive) :
  2 ^ Zpos (digits2_pos p) <= 2 * Zpos p /\ Zpos p < 2 ^ Zpos (digits2_pos p).
Proof.
  rewrite digits2_size. split.
  - pose proof (Pos.size_le p) as H.
    apply Pos2Z.pos_le_pos in H. now rewrite Pos2Z.inj_pow in H.
  - pose proof (Pos.size_gt p) as H.
    apply Pos2Z.pos_lt_pos in H. now rewrite Pos2Z.inj_pow in H.
Qed.

(** the mantissa and the exponent of a [float] *)
Lemma bounded_f32 m e :
  bounded F32.prec F32.emax m e = true ->
  1 <= Zpos (digits2_pos m) <= 24 /\ -149 <= e <= 104 /\
  (e = -149 \/ Zpos (digits2_pos m) = 24).
Proof.
  unfold bounded, canonical_mantissa, fexp, emin, F32.prec, F32.emax.
  rewrite andb_true_iff, Z.eqb_eq, Z.leb_le. lia.
Qed.

(** the promotion of a [float] to [double] keeps its value *)
Lemma of_f32_exact s m e :
  bounded F32.prec F32.emax m e = true ->
  F64.of_f32 (S754_finite s m e)
  = S754_finite s (Pos.iter xO m (Z.to_pos (53 - Zpos (digits2_pos m))))
                (e - (53 - Zpos (digits2_pos m))).
Proof.
  intros (Hd & He & _)%bounded_f32.
  set (d := Zpos (digits2_pos m)) in *.
  assert (Hk : Zpos (Z.to_pos (53 - d)) = 53 - d) by (apply Z2Pos.id; lia).
  assert (Hfexp : fexp F64.prec F64.emax (d + e) = d + e - 53)
    by (unfold fexp, emin, F64.prec, F64.emax; lia).
  assert (Hround : binary_round F64.prec F64.emax s m e
                   = S754_finite s (Pos.iter xO m (Z.to_pos (53 - d)))
                                 (e - (53 - d))).
  { unfold binary_round, shl_align. fold d. rewrite Hfexp.
    replace (d + e - 53 - e) with (Zneg (Z.to_pos (53 - d))) by lia.
    replace (d + e - 53) with (e - (53 - d)) by lia.
    apply binary_round_aux_canonical.
    - rewrite digits2_iter_xO. fold d. rewrite Hk.
      unfold fexp, emin, F64.prec, F64.emax. lia.
    - unfold F64.prec, F64.emax. lia. }
  unfold F64.of_f32, binary_normalize. now destruct s.
Qed.

(** the product of a [float] and 255.0 in [double] is exact *)
Lemma mul_255_exact s m e :
  bounded F32.prec F32.emax m e = true ->
  F64.mul (F64.of_f32 (S754_finite s m e)) (F64.of_Z 255)
  = S754_finite s
      (Pos.iter xO (m * 255)%positive
                (Z.to_pos (53 - Zpos (digits2_pos (m * 255)%positive))))
      (e - Zpos (Z.to_pos (53 - Zpos (digits2_pos (m * 255)%positive)))).
Proof.
  intros Hb. rewrite of_f32_exact by assumption.
  apply bounded_f32 in Hb as (Hd & He & _).
  pose proof (digits2_bounds m) as [Hm1 Hm2].
  pose proof (digits2_bounds (m * 255)%positive) as [HM1 HM2].
  rewrite Pos2Z.inj_mul in HM1, HM2.
  set (d := Zpos (digits2_pos m)) in *.
  set (D := Zpos (digits2_pos (m * 255)%positive)) in *.
  assert (HD : d <= D <= d + 8).
  { split.
    - apply Z.lt_succ_r. apply (Z.pow_lt_mono_r_iff 2); [lia..|].
      replace (Z.succ D) with (D + 1) by lia.
      rewrite Z.pow_add_r by lia. lia.
    - apply Z.lt_succ_r. apply (Z.pow_lt_mono_r_iff 2); [lia..|].
      replace (Z.succ (d + 8)) with (d + 1 + 8) by lia.
      rewrite (Z.pow_add_r 2 (d + 1) 8), (Z.pow_add_r 2 d 1) by lia.
      change (2 ^ 8) with 256. change (2 ^ 1) with 2. lia. }
  set (k := Z.to_pos (53 - d)). set (j := Z.to_pos (53 - D)).
  assert (Hk : Zpos k = 53 - d) by (apply Z2Pos.id; lia).
  assert (Hj : Zpos j = 53 - D) by (apply Z2Pos.id; lia).
  set (n := Z.to_pos (D - d + 45)).
  assert (Hn : Zpos n = D - d + 45) by (apply Z2Pos.id; lia).
  change (F64.of_Z 255) with (S754_finite false (Pos.iter xO 255%positive 45) (-45)).
  unfold F64.mul, SFmul. rewrite xorb_false_r.
  assert (Hprod : (Pos.iter xO m k * Pos.iter xO 255 45%positive)%positive
                  = Pos.iter xO (Pos.iter xO (m * 255)%positive j) n).
  { apply Pos2Z.inj. rewrite Pos2Z.inj_mul, !Zpos_iter_xO, Pos2Z.inj_mul.
    rewrite Hk, Hj, Hn.
    replace (53 - d) with ((53 - D) + (D - d)) by lia.
    replace (D - d + 45) with ((D - d) + 45) by lia.
    rewrite !Z.pow_add_r by lia. lia. }
  rewrite Hprod. fold j.
  replace (e - Zpos j) with (e - (53 - d) + -45 + Zpos n) by lia.
  apply binary_round_aux_zeros.
  - rewrite !digits2_iter_xO. fold D. rewrite Hj, Hn.
    unfold fexp, emin, F64.prec, F64.emax. lia.
  - unfold F64.prec, F64.emax. lia.
Qed.

Lemma trunc_iter_xO (p j : positive) (e : Z) :
  F64.trunc (S754_finite false (Pos.iter xO p j) (e - Zpos j))
  = Some (if 0 <=? e then Zpos p * 2 ^ e else Zpos p / 2 ^ (- e)).
Proof.
  unfold F64.trunc, cond_Zopp. rewrite Zpos_iter_xO. f_equal.
  destruct (Z.leb_spec 0 (e - Zpos j)) as [H1|H1].
  - rewrite (proj2 (Z.leb_le 0 e)) by lia.
    replace e with (Zpos j + (e - Zpos j)) at 2 by lia.
    rewrite Z.pow_add_r by lia. lia.
  - destruct (Z.leb_spec 0 e) as [H2|H2].
    + replace (Zpos j) with (e + - (e - Zpos j)) at 1 by lia.
      rewrite Z.pow_add_r, Z.mul_assoc by lia.
      apply Z.div_mul. apply Z.pow_nonzero; lia.
    + replace (- (e - Zpos j)) with (- e + Zpos j) by lia.
      rewrite Z.pow_add_r by lia.
      apply Z.div_mul_cancel_r; apply Z.pow_nonzero; lia.
Qed.

(** comparisons with 1.0 *)
Lemma le_one m e :
  SFleb (S754_finite false m e) F32.one = true ->
  e < -23 \/ (e = -23 /\ Zpos m <= 8388608).
Proof.
  unfold SFleb, SFcompare, F32.one.
  destruct (Z.compare_spec e (-23)) as [->|Hlt|Hgt]; try discriminate.
  - rewrite Pos.compare_cont_spec.
    destruct (Pos.compare_spec m 8388608) as [H|H|H]; simpl; intros Hle.
    + subst m. right. split; [reflexivity|]. apply Z.le_refl.
    + apply Pos2Z.pos_lt_pos in H. right. split; [reflexivity|].
      now apply Z.lt_le_incl.
    + clear H. discriminate Hle.
  - lia.
Qed.

Lemma gt_one m e :
  SFltb F32.one (S754_finite false m e) = true ->
  -23 < e \/ (e = -23 /\ 8388608 < Zpos m).
Proof.
  unfold SFltb, SFcompare, F32.one.
  destruct (Z.compare_spec (-23) e) as [<-|Hlt|Hgt]; try discriminate.
  - rewrite Pos.compare_cont_spec.
    destruct (Pos.compare_spec 8388608 m) as [H|H|H]; simpl; intros Hlt.
    + clear H. discriminate Hlt.
    + lia.
    + clear H. discriminate Hlt.
  - lia.
Qed.

(** an output sample is a square root: it is never a negative number *)
Lemma sqrt_not_negative x :
  match F32.sqrt x with
  | S754_finite true _ _ | S754_infinity true => False
  | _ => True
  end.
Proof.
  unfold F32.sqrt, SFsqrt. destruct x as [s|[|]| |[|] m e]; try exact I.
  destruct (SFsqrt_core_binary _ _ _ _) as [[mz ez] lz].
  unfold binary_round_aux.
  destruct (shr_fexp _ _ _ _ _) as [mrs' e'].
  destruct (shr_fexp _ _ _ _ _) as [mrs'' e''].
  destruct (shr_m mrs''); try exact I.
  destruct (_ <=? _); exact I.
Qed.

(** ** The output quantization *)

(** C8. The output quantization is [(unsigned char)(G * 255.0)], without
    clamping. For every [float] sample G that is finite and not negative,
    with P the integer part of G*255: the byte is P modulo 256 (where P fits
    the 32-bit conversion); for G <= 1.0, P is 255 at most and the byte is
    P, the value of G*255 rounded down; for G > 1.0, P is 255 at least and
    the byte is P wrapped modulo 256, not 255: 2.0 gives the byte 254, and
    an infinite G the byte 0. *)
Theorem quantization_truncates_and_wraps (G : float) (P : Z) :
  F32.valid G = true ->
  floor_times_255 G = Some P ->
  0 <= P /\
  float_to_byte G = (if P <=? INT_MAX then P mod 256 else 0) /\
  (SFleb G F32.one = true -> P <= 255 /\ float_to_byte G = P) /\
  (SFltb F32.one G = true -> 255 <= P) /\
  float_to_byte (F32.of_Z 2) = 254 /\
  float_to_byte (S754_infinity false) = 0.
Proof.
  intros Hvalid HP.
  destruct G as [s| | |[|] m e]; try discriminate.
  - injection HP as <-. split; [lia|]. split; [|split; [|split]].
    + destruct s; vm_compute; reflexivity.
    + intros _. split; [lia|]. destruct s; vm_compute; reflexivity.
    + destruct s; vm_compute; discriminate.
    + split; vm_compute; reflexivity.
  - injection HP as <-. cbn [F32.valid valid_binary] in Hvalid.
    assert (Hbyte : float_to_byte (S754_finite false m e)
              = (fun z => if (INT_MIN <=? z) && (z <=? INT_MAX) then z mod 256 else 0)
                  (if 0 <=? e then Zpos m * 255 * 2 ^ e
                   else Zpos m * 255 / 2 ^ (- e))).
    { unfold float_to_byte. rewrite mul_255_exact by assumption.
      unfold uchar_of_double. rewrite trunc_iter_xO, Pos2Z.inj_mul.
      reflexivity. }
    apply bounded_f32 in Hvalid as (Hd & He & Hcanon).
    pose proof (digits2_bounds m) as [Hm1 Hm2].
    set (P := if 0 <=? e then Zpos m * 255 * 2 ^ e
              else Zpos m * 255 / 2 ^ (- e)) in *.
    assert (HP0 : 0 <= P).
    { unfold P. destruct (Z.leb_spec 0 e).
      - apply Z.mul_nonneg_nonneg; [lia|]. apply Z.pow_nonneg; lia.
      - apply Z.div_pos; [lia|]. apply Z.pow_pos_nonneg; lia. }
    assert (Hm24 : Zpos m < 2 ^ 24).
    { eapply Z.lt_le_trans; [exact Hm2|]. apply Z.pow_le_mono_r; lia. }
    split; [exact HP0|]. split; [|split; [|split]].
    + rewrite Hbyte. cbv beta.
      rewrite (proj2 (Z.leb_le INT_MIN P)) by (unfold INT_MIN; lia).
      reflexivity.
    + intros Hle.
      assert (HP255 : P <= 255).
      { destruct (le_one m e Hle) as [Hlt|[-> Hm]].
        - unfold P. rewrite (proj2 (Z.leb_gt 0 e)) by lia.
          assert (2 ^ 24 <= 2 ^ (- e)) by (apply Z.pow_le_mono_r; lia).
          apply Z.div_le_upper_bound; [lia|]. nia.
        - unfold P. change (0 <=? -23) with false. cbv iota.
          change (2 ^ (- -23)) with 8388608.
          apply Z.div_le_upper_bound; lia. }
      split; [exact HP255|].
      rewrite Hbyte. cbv beta.
      rewrite (proj2 (Z.leb_le INT_MIN P)) by (unfold INT_MIN; lia).
      rewrite (proj2 (Z.leb_le P INT_MAX)) by (unfold INT_MAX; lia).
      apply Z.mod_small. lia.
    + intros Hlt.
      destruct (gt_one m e Hlt) as [Hlt'|[-> Hm]].
      * assert (Hm : 2 ^ 23 <= Zpos m).
        { destruct Hcanon as [->|Hd24]; [lia|]. rewrite Hd24 in Hm1.
          change (2 ^ 24) with (2 * 2 ^ 23) in Hm1. lia. }
        unfold P. destruct (Z.leb_spec 0 e) as [H0|H0].
        -- assert (0 < 2 ^ e) by (apply Z.pow_pos_nonneg; lia). nia.
        -- assert (2 ^ (- e) <= 2 ^ 23) by (apply Z.pow_le_mono_r; lia).
           assert (0 < 2 ^ (- e)) by (apply Z.pow_pos_nonneg; lia).
           apply Z.div_le_lower_bound; [lia|]. nia.
      * unfold P. change (0 <=? -23) with false. cbv iota.
        change (2 ^ (- -23)) with 8388608.
        apply Z.div_le_lower_bound; lia.
    + split; vm_compute; reflexivity.
Qed.

Lemma quantization_truncates_and_wraps_witness :
  float_to_byte (F32.sqrt (F32.of_Z 18)) = 1081 mod 256.
Proof.
  destruct (quantization_truncates_and_wraps (F32.sqrt (F32.of_Z 18)) 1081)
    as (_ & H & _); [reflexivity | reflexivity | exact H].
Defined.

(** ** The two programs, end to end *)

Lemma write_output_stdout cfg w nvalues out stdout stdout' :
  run_status (write_output cfg w nvalues out stdout)
  = run_status (write_output cfg w nvalues out stdout') /\
  run_output (write_output cfg w nvalues out stdout)
  = run_output (write_output cfg w nvalues out stdout').
Proof.
  unfold write_output. destruct (output_room w) as [room|]; [|easy].
  now destruct (_ =? _), (short_write w).
Qed.

Lemma size_t_id z : 0 <= z <= INT_MAX -> size_t z = z.
Proof. unfold size_t, INT_MAX. intros H. apply Z.mod_small. lia. Qed.

(** a read of [nvalues] bytes from a file that holds them *)
Lemma fread_full nvalues file :
  0 <= nvalues <= INT_MAX -> nvalues <= Z.of_nat (length file) ->
  fread nvalues file = take (Z.to_nat nvalues) file /\
  negb (Z.of_nat (length (take (Z.to_nat nvalues) file)) =? size_t nvalues)
  = false.
Proof.
  intros Hn Hlen. split.
  - unfold fread. destruct (Z.leb_spec 0 nvalues); [reflexivity|lia].
  - rewrite size_t_id, length_take by assumption.
    apply negb_false_iff, Z.eqb_eq. lia.
Qed.

(** the sweeps of [main] and the lines they print *)
Lemma timed_sweeps_report inp ncols nrows w l :
  0 <= nrows <= INT_MAX -> 0 <= ncols <= INT_MAX ->
  (forall num_threads, num_threads ∈ l ->
     omp_order w num_threads ncols nrows ≡ₚ all_pixels ncols nrows) ->
  l <> [] ->
  forall d log r,
    Z.of_nat (length d) = nrows * ncols ->
    do_sobel_filtering inp d ncols nrows = Some r ->
    foldlM (timed_sweep w inp ncols nrows) (d, log) l
    = Some (r, fold_left (fun s num_threads =>
                            (s ++ timing_line w num_threads)%string) l log).
Proof.
  intros Hr Hc. induction l as [|T l IH]; intros Hl Hne d log r Hd Hrun;
    [congruence|].
  simpl. unfold timed_sweep at 1. simpl.
  rewrite (sweep_any_dest inp ncols nrows Hr Hc _ d d)
    by (auto; apply Hl; constructor).
  rewrite Hrun. simpl. destruct l as [|T' l]; [reflexivity|].
  apply IH.
  - intros T0 HT0. apply Hl. now constructor.
  - discriminate.
  - now apply (sweep_size inp ncols nrows d).
  - now apply (sweep_again inp ncols nrows Hr Hc d).
Qed.

(** a run of the CPU program on an input file that holds the image *)
Lemma cpu_main_image cfg w file :
  let ncols := fst (data_dims cfg) in
  let nrows := snd (data_dims cfg) in
  0 <= nrows <= INT_MAX -> 0 <= ncols <= INT_MAX ->
  nrows * ncols <= INT_MAX ->
  input_file w = Some file ->
  nrows * ncols <= Z.of_nat (length file) ->
  (forall num_threads, num_threads ∈ thread_counts ->
     omp_order w num_threads ncols nrows ≡ₚ all_pixels ncols nrows) ->
  exists r,
    sobel_image (byte_to_float <$> take (Z.to_nat (nrows * ncols)) file)
                ncols nrows Gx Gy r /\
    cpu_main cfg w
    = write_output cfg w (nrows * ncols) r
        (fold_left (fun s num_threads =>
                      (s ++ timing_line w num_threads)%string)
                   thread_counts (read_line cfg)).
Proof.
  intros ncols nrows Hr Hc Hfit Hfile Hlen Hord.
  assert (Hn : 0 <= nrows * ncols <= INT_MAX) by nia.
  set (inp := byte_to_float <$> take (Z.to_nat (nrows * ncols)) file).
  assert (Hinp : Z.of_nat (length inp) = nrows * ncols).
  { unfold inp. rewrite length_fmap, length_take. lia. }
  destruct (fread_full (nrows * ncols) file Hn Hlen) as [Hread Hfull].
  assert (Hheap : Z.of_nat (length (heap w <$> seqZ 0 (nrows * ncols)))
                  = nrows * ncols)
    by (rewrite length_fmap, length_seqZ; lia).
  destruct (do_sobel_filtering_omp_image (all_pixels ncols nrows) inp
              (heap w <$> seqZ 0 (nrows * ncols)) ncols nrows)
    as (r & Hsweep & Himg);
    try assumption; try (unfold INT_MAX in Hfit; lia); [reflexivity|].
  rewrite <- do_sobel_filtering_omp_program_order in Hsweep.
  exists r. split; [exact Himg|].
  unfold cpu_main. fold ncols nrows. rewrite Hfile.
  rewrite (Z.mul_comm ncols nrows), wrap32_id
    by (unfold INT_MIN, INT_MAX in *; lia).
  rewrite Hread, Hfull. fold inp.
  change (" Read data from the file " ++ input_fname cfg ++ " " ++ nl)%string
    with (read_line cfg).
  now rewrite (timed_sweeps_report inp ncols nrows w thread_counts Hr Hc Hord
                 ltac:(discriminate) _ (read_line cfg) r Hheap Hsweep).
Qed.

(** a run of the GPU program on an input file that holds the image, with a
    launch shape that stays, with the image, below 2^31 *)
Lemma gpu_main_image fuel cfg w args file :
  let ncols := fst (data_dims cfg) in
  let nrows := snd (data_dims cfg) in
  let nBlocks := fst (launch_shape args) in
  let nThreadsPerBlock := snd (launch_shape args) in
  1 <= nrows -> 1 <= ncols -> nrows * ncols <= INT_MAX ->
  input_file w = Some file ->
  nrows * ncols <= Z.of_nat (length file) ->
  (forall call, cuda_error w call = 0) ->
  1 <= nBlocks -> 1 <= nThreadsPerBlock ->
  nBlocks * nThreadsPerBlock + nrows * ncols <= 2147483648 ->
  (Z.to_nat (nrows * ncols) <= fuel)%nat ->
  exists r,
    device_image (device_fmad w)
                 (byte_to_float <$> take (Z.to_nat (nrows * ncols)) file)
                 ncols nrows Gx Gy r /\
    gpu_main fuel cfg w args
    = write_output cfg w (nrows * ncols) r
        (read_line cfg ++ configuration_line nBlocks nThreadsPerBlock)%string.
Proof.
  intros ncols nrows nBlocks nThreadsPerBlock
    Hr Hc Hfit Hfile Hlen Hcuda HB HT Hshape Hfuel.
  assert (Hn : 0 <= nrows * ncols <= INT_MAX) by nia.
  set (inp := byte_to_float <$> take (Z.to_nat (nrows * ncols)) file).
  assert (Hinp : Z.of_nat (length inp) = nrows * ncols).
  { unfold inp. rewrite length_fmap, length_take. lia. }
  destruct (fread_full (nrows * ncols) file Hn Hlen) as [Hread Hfull].
  destruct (launch_image inp ncols nrows Hr Hc Hfit Hinp (device_fmad w)
              (replicate (Z.to_nat (nrows * ncols)) F32.one)
              nBlocks nThreadsPerBlock (units nBlocks nThreadsPerBlock) fuel)
    as (r & Hlaunch & Himg); try assumption; try reflexivity.
  { rewrite length_replicate. lia. }
  exists r. split; [exact Himg|].
  unfold gpu_main, gpuErrchk. fold ncols nrows nBlocks nThreadsPerBlock.
  rewrite Hfile, !Hcuda.
  rewrite (Z.mul_comm ncols nrows), !wrap32_id
    by (unfold INT_MIN, INT_MAX in *; lia).
  rewrite Hread, Hfull. fold inp. simpl (0 =? 0).
  rewrite !uwrap32_id by nia.
  rewrite Hlaunch. reflexivity.
Qed.

(** X1. On an input file that holds the image, with thread teams that store
    each pixel once, a CUDA runtime that reports no error, a launch shape
    that stays below 2^31 together with the image, and device code compiled
    without contraction into fused multiply-adds ([--fmad=false]), the CPU
    program and the GPU program hand the same bytes to [fwrite] - those of
    the image of the evaluator - end in the same way and leave the same
    output file. *)
Theorem programs_write_the_same_file
    (fuel : nat) (cfg : config) (w : world) (args : list string)
    (file : list Z) :
  let ncols := fst (data_dims cfg) in
  let nrows := snd (data_dims cfg) in
  let nBlocks := fst (launch_shape args) in
  let nThreadsPerBlock := snd (launch_shape args) in
  1 <= nrows -> 1 <= ncols -> nrows * ncols <= INT_MAX ->
  input_file w = Some file ->
  nrows * ncols <= Z.of_nat (length file) ->
  (forall num_threads, num_threads ∈ thread_counts ->
     omp_order w num_threads ncols nrows ≡ₚ all_pixels ncols nrows) ->
  (forall call, cuda_error w call = 0) ->
  device_fmad w = Fmad_off ->
  1 <= nBlocks -> 1 <= nThreadsPerBlock ->
  nBlocks * nThreadsPerBlock + nrows * ncols <= 2147483648 ->
  (Z.to_nat (nrows * ncols) <= fuel)%nat ->
  exists r stdout stdout',
    sobel_image (byte_to_float <$> take (Z.to_nat (nrows * ncols)) file)
                ncols nrows Gx Gy r /\
    cpu_main cfg w = write_output cfg w (nrows * ncols) r stdout /\
    gpu_main fuel cfg w args = write_output cfg w (nrows * ncols) r stdout' /\
    run_status (cpu_main cfg w) = run_status (gpu_main fuel cfg w args) /\
    run_output (cpu_main cfg w) = run_output (gpu_main fuel cfg w args).
Proof.
  intros ncols nrows nBlocks nThreadsPerBlock
    Hr Hc Hfit Hfile Hlen Hord Hcuda Hfmad HB HT Hshape Hfuel.
  destruct (dims_fit nrows ncols) as [Hri Hci]; [lia..|].
  destruct (cpu_main_image cfg w file) as (r & Himg & Hcpu);
    try assumption; [fold nrows; lia | fold ncols; lia |].
  destruct (gpu_main_image fuel cfg w args file) as (r' & Himg' & Hgpu);
    try assumption.
  rewrite Hfmad in Himg'. apply device_image_off in Himg'.
  assert (r' = r) as ->.
  { eapply sobel_image_unique; [| |exact Himg'|exact Himg];
      fold nrows ncols; lia. }
  eexists r, _, _. rewrite Hcpu, Hgpu.
  split; [exact Himg|]. do 2 (split; [reflexivity|]).
  apply write_output_stdout.
Qed.

Lemma programs_write_the_same_file_witness :
  let cfg := {| input_fname := "in"; data_dims := (3, 2);
                output_fname := "out" |} in
  let w := {| input_file := Some [0; 255; 0; 255; 0; 255];
              output_room := Some 6;
              heap := fun _ => F32.zero;
              omp_order := fun _ ncols nrows => all_pixels ncols nrows;
              elapsed := fun _ => "0"%string;
              cuda_error := fun _ => 0;
              device_fmad := Fmad_off; short_write := Reported |} in
  run_output (cpu_main cfg w) = run_output (gpu_main 6 cfg w ["2"; "2"]%string).
Proof.
  intros cfg w.
  destruct (programs_write_the_same_file 6 cfg w ["2"; "2"]%string
              [0; 255; 0; 255; 0; 255])
    as (r & stdout & stdout' & _ & _ & _ & _ & H);
    try (vm_compute; congruence); try reflexivity; try exact H.
Defined.

Lemma string_app_assoc (a b c : string) :
  ((a ++ b) ++ c)%string = (a ++ b ++ c)%string.
Proof. induction a as [|x a IH]; simpl; [reflexivity | now rewrite IH]. Qed.

Lemma write_output_complete cfg w nvalues out stdout room :
  output_room w = Some room ->
  0 <= nvalues <= INT_MAX ->
  Z.of_nat (length out) = nvalues -> nvalues <= room ->
  write_output cfg w nvalues out stdout
  = {| run_status := Exit 0;
       run_stdout := (stdout ++ wrote_line cfg)%string;
       run_output := Some (float_to_byte <$> out) |}.
Proof.
  intros Hroom Hn Hout Hfit. unfold write_output. rewrite Hroom.
  rewrite take_ge by (rewrite length_fmap; lia).
  rewrite length_fmap, size_t_id, Hout, Z.eqb_refl by assumption.
  reflexivity.
Qed.

(** X2. A run of the CPU program whose input file holds the rows*cols bytes of
    the image and whose output file takes as many exits with code 0, writes
    the quantized image of the evaluator, and prints the line on the input
    file, one line for each of the thread counts 1, 2, 4, 8, 16 in this order,
    and the line on the output file. *)
Theorem cpu_run_report (cfg : config) (w : world) (file : list Z) (room : Z) :
  let ncols := fst (data_dims cfg) in
  let nrows := snd (data_dims cfg) in
  0 <= nrows <= INT_MAX -> 0 <= ncols <= INT_MAX ->
  nrows * ncols <= INT_MAX ->
  input_file w = Some file ->
  nrows * ncols <= Z.of_nat (length file) ->
  output_room w = Some room -> nrows * ncols <= room ->
  (forall num_threads, num_threads ∈ thread_counts ->
     omp_order w num_threads ncols nrows ≡ₚ all_pixels ncols nrows) ->
  exists r,
    sobel_image (byte_to_float <$> take (Z.to_nat (nrows * ncols)) file)
                ncols nrows Gx Gy r /\
    cpu_main cfg w
    = {| run_status := Exit 0;
         run_stdout :=
           (read_line cfg ++ timing_line w 1 ++ timing_line w 2
              ++ timing_line w 4 ++ timing_line w 8 ++ timing_line w 16
              ++ wrote_line cfg)%string;
         run_output := Some (float_to_byte <$> r) |}.
Proof.
  intros ncols nrows Hr Hc Hfit Hfile Hlen Hroom Hspace Hord.
  destruct (cpu_main_image cfg w file) as (r & Himg & Hcpu); try assumption.
  exists r. split; [exact Himg|]. rewrite Hcpu.
  rewrite (write_output_complete cfg w _ r _ room); try assumption.
  - cbn [fold_left thread_counts]. now rewrite !string_app_assoc.
  - fold nrows ncols. nia.
  - apply Himg.
Qed.

Lemma cpu_run_report_witness :
  let cfg := {| input_fname := "in"; data_dims := (2, 2);
                output_fname := "out" |} in
  let w := {| input_file := Some [255; 255; 255; 255; 7];
              output_room := Some 10;
              heap := fun _ => F32.one;
              omp_order := fun _ ncols nrows =>
                             reverse (all_pixels ncols nrows);
              elapsed := fun _ => "0.01"%string;
              cuda_error := fun _ => 0;
              device_fmad := Fmad_on true; short_write := Reported |} in
  exists r, run_status (cpu_main cfg w) = Exit 0 /\
            run_output (cpu_main cfg w) = Some (float_to_byte <$> r).
Proof.
  intros cfg w.
  destruct (cpu_run_report cfg w [255; 255; 255; 255; 7] 10)
    as (r & _ & Hrun);
    [solve [vm_compute; intuition congruence | reflexivity] ..
    | intros T _; apply reverse_Permutation
    | exists r; rewrite Hrun; split; reflexivity].
Defined.

(** X3. A run of the GPU program under the same conditions, with a CUDA
    runtime that reports no error and a launch shape that stays, with the
    image, below 2^31: it exits with code 0, writes the quantized image of the
    evaluator of the device - the value that the device code, compiled with
    fused multiply-adds or without, computes at every pixel - and prints the
    line on the input file, the launch shape taken from the command line and
    the line on the output file. *)
Theorem gpu_run_report
    (fuel : nat) (cfg : config) (w : world) (args : list string)
    (file : list Z) (room : Z) :
  let ncols := fst (data_dims cfg) in
  let nrows := snd (data_dims cfg) in
  let nBlocks := fst (launch_shape args) in
  let nThreadsPerBlock := snd (launch_shape args) in
  1 <= nrows -> 1 <= ncols -> nrows * ncols <= INT_MAX ->
  input_file w = Some file ->
  nrows * ncols <= Z.of_nat (length file) ->
  output_room w = Some room -> nrows * ncols <= room ->
  (forall call, cuda_error w call = 0) ->
  1 <= nBlocks -> 1 <= nThreadsPerBlock ->
  nBlocks * nThreadsPerBlock + nrows * ncols <= 2147483648 ->
  (Z.to_nat (nrows * ncols) <= fuel)%nat ->
  exists r,
    device_image (device_fmad w)
                 (byte_to_float <$> take (Z.to_nat (nrows * ncols)) file)
                 ncols nrows Gx Gy r /\
    gpu_main fuel cfg w args
    = {| run_status := Exit 0;
         run_stdout :=
           (read_line cfg ++ configuration_line nBlocks nThreadsPerBlock
              ++ wrote_line cfg)%string;
         run_output := Some (float_to_byte <$> r) |}.
Proof.
  intros ncols nrows nBlocks nThreadsPerBlock
    Hr Hc Hfit Hfile Hlen Hroom Hspace Hcuda HB HT Hshape Hfuel.
  destruct (gpu_main_image fuel cfg w args file) as (r & Himg & Hgpu);
    try assumption.
  exists r. split; [exact Himg|]. rewrite Hgpu.
  rewrite (write_output_complete cfg w _ r _ room); try assumption.
  - now rewrite string_app_assoc.
  - fold nrows ncols. nia.
  - apply Himg.
Qed.

Lemma gpu_run_report_witness :
  let cfg := {| input_fname := "in"; data_dims := (2, 2);
                output_fname := "out" |} in
  let w := {| input_file := Some [255; 255; 255; 255; 7];
              output_room := Some 10;
              heap := fun _ => F32.one;
              omp_order := fun _ ncols nrows => all_pixels ncols nrows;
              elapsed := fun _ => "0.01"%string;
              cuda_error := fun _ => 0;
              device_fmad := Fmad_on true; short_write := Reported |} in
  exists r, run_status (gpu_main 4 cfg w ["3"]%string) = Exit 0 /\
            run_output (gpu_main 4 cfg w ["3"]%string)
            = Some (float_to_byte <$> r).
Proof.
  intros cfg w.
  destruct (gpu_run_report 4 cfg w ["3"]%string [255; 255; 255; 255; 7] 10)
    as (r & _ & Hrun);
    [solve [vm_compute; intuition congruence | reflexivity] ..
    | exists r; rewrite Hrun; split; reflexivity].
Defined.

(** ** How the runs end *)

Lemma write_output_exit_0 cfg w nvalues out stdout :
  0 <= nvalues <= INT_MAX -> Z.of_nat (length out) = nvalues ->
  run_status (write_output cfg w nvalues out stdout) = Exit 0 ->
  exists room,
    output_room w = Some room /\
    (short_write w <> Unnoticed ->
     take (Z.to_nat room) (float_to_byte <$> out) = float_to_byte <$> out) /\
    write_output cfg w nvalues out stdout
    = {| run_status := Exit 0;
         run_stdout := (stdout ++ wrote_line cfg)%string;
         run_output := Some (take (Z.to_nat room) (float_to_byte <$> out)) |}.
Proof.
  intros Hn Hout. unfold write_output.
  destruct (output_room w) as [room|]; [|discriminate].
  rewrite size_t_id by assumption.
  destruct (Z.eqb_spec (Z.of_nat (length (take (Z.to_nat room)
                                            (float_to_byte <$> out))))
                       nvalues) as [Hlen|Hlen].
  - intros _. exists room. split; [reflexivity|]. split; [|reflexivity].
    intros _. apply take_ge.
    rewrite length_take, length_fmap in Hlen. rewrite length_fmap. lia.
  - destruct (short_write w); try discriminate.
    intros _. exists room. split; [reflexivity|]. split; [|reflexivity].
    congruence.
Qed.

(** X4. Where the thread teams store each pixel once, a run of the CPU program
    exits with code 0 only if the input file held the rows*cols bytes of the
    image, the sweeps computed the image of the evaluator, and the line on
    the output file was the last one printed. The output file then holds
    the quantized image as far as it took the bytes: all of it, unless the
    run is one in which a loss of bytes goes unnoticed, the result of
    [fclose] not being looked at. *)
Theorem cpu_exit_0_means_image_computed (cfg : config) (w : world) :
  let ncols := fst (data_dims cfg) in
  let nrows := snd (data_dims cfg) in
  0 <= nrows <= INT_MAX -> 0 <= ncols <= INT_MAX ->
  nrows * ncols <= INT_MAX ->
  (forall num_threads, num_threads ∈ thread_counts ->
     omp_order w num_threads ncols nrows ≡ₚ all_pixels ncols nrows) ->
  run_status (cpu_main cfg w) = Exit 0 ->
  exists file r room stdout,
    input_file w = Some file /\
    nrows * ncols <= Z.of_nat (length file) /\
    sobel_image (byte_to_float <$> take (Z.to_nat (nrows * ncols)) file)
                ncols nrows Gx Gy r /\
    output_room w = Some room /\
    run_output (cpu_main cfg w)
    = Some (take (Z.to_nat room) (float_to_byte <$> r)) /\
    (short_write w <> Unnoticed \/ nrows * ncols <= room ->
     run_output (cpu_main cfg w) = Some (float_to_byte <$> r)) /\
    run_stdout (cpu_main cfg w) = (stdout ++ wrote_line cfg)%string.
Proof.
  intros ncols nrows Hr Hc Hfit Hord Hexit.
  assert (Hn : 0 <= fst (data_dims cfg) * snd (data_dims cfg) <= INT_MAX)
    by (fold nrows ncols; nia).
  destruct (input_file w) as [file|] eqn:Hfile.
  - destruct (Z_le_gt_dec (nrows * ncols) (Z.of_nat (length file)))
      as [Hlen|Hshort].
    + destruct (cpu_main_image cfg w file) as (r & Himg & Hcpu);
        try assumption.
      rewrite Hcpu in Hexit |- *.
      eapply write_output_exit_0 in Hexit as (room & Hroom & Hcase & Hrun);
        [|fold nrows ncols; nia|apply Himg].
      rewrite Hrun. eexists file, r, room, _. cbn [run_output run_stdout].
      split; [reflexivity|]. split; [exact Hlen|]. split; [exact Himg|].
      split; [exact Hroom|]. split; [reflexivity|]. split; [|reflexivity].
      intros [Hseen|Hfull]; [now rewrite Hcase|].
      rewrite take_ge; [reflexivity|].
      rewrite length_fmap. destruct Himg as [Hsize _]. lia.
    + rewrite (cpu_main_short_read cfg w file) in Hexit;
        [discriminate|assumption..|fold nrows ncols; lia].
  - now rewrite cpu_main_missing_input in Hexit.
Qed.

Lemma cpu_exit_0_means_image_computed_witness :
  let cfg := {| input_fname := "in"; data_dims := (2, 1);
                output_fname := "out" |} in
  let w := {| input_file := Some [0; 255];
              output_room := Some 1;
              heap := fun _ => F32.one;
              omp_order := fun _ ncols nrows => all_pixels ncols nrows;
              elapsed := fun _ => "0.01"%string;
              cuda_error := fun _ => 0;
              device_fmad := Fmad_on true; short_write := Unnoticed |} in
  exists r, run_output (cpu_main cfg w) = Some (take 1 (float_to_byte <$> r)).
Proof.
  intros cfg w.
  destruct (cpu_exit_0_means_image_computed cfg w)
    as (file & r & room & stdout & _ & _ & _ & Hroom & Hout & _ & _);
    [solve [vm_compute; intuition congruence | reflexivity] ..
    | vm_compute; reflexivity
    | exists r; injection Hroom as <-; exact Hout].
Defined.

(** X5. If a checked call to the CUDA runtime reports an error, the GPU
    program writes no output file and does not exit with code 0; if the call
    is one of the four allocations that follow a complete read, the program
    calls [exit] with the code of a failed allocation, having printed only the
    line on the input file: the kernel is not launched. *)
Theorem device_error_aborts
    (fuel : nat) (cfg : config) (w : world) (args : list string)
    (call : cuda_call) :
  cuda_error w call <> 0 ->
  run_output (gpu_main fuel cfg w args) = None /\
  run_status (gpu_main fuel cfg w args) <> Exit 0 /\
  forall file,
    0 <= fst (data_dims cfg) * snd (data_dims cfg) <= INT_MAX ->
    input_file w = Some file ->
    fst (data_dims cfg) * snd (data_dims cfg) <= Z.of_nat (length file) ->
    call ∈ allocations ->
    exists call', call' ∈ allocations /\ cuda_error w call' <> 0 /\
      gpu_main fuel cfg w args
      = {| run_status := Exit (cuda_error w call');
           run_stdout := read_line cfg;
           run_output := None |}.
Proof.
  intros Hcall. split; [|split].
  - unfold gpu_main, gpuErrchk.
    destruct (input_file w); [|reflexivity].
    cbv zeta. destruct (negb _); [reflexivity|].
    do 4 (match goal with
          | |- context [cuda_error w ?c =? 0] =>
              destruct (Z.eqb_spec (cuda_error w c) 0); [|reflexivity]
          end).
    destruct (launch _ _ _ _ _ _ _ _ _ _); try reflexivity.
    destruct (Z.eqb_spec (cuda_error w DeviceSynchronize) 0); [|reflexivity].
    destruct call; congruence.
  - unfold gpu_main, gpuErrchk.
    destruct (input_file w); [|discriminate].
    cbv zeta. destruct (negb _); [discriminate|].
    do 4 (match goal with
          | |- context [cuda_error w ?c =? 0] =>
              destruct (Z.eqb_spec (cuda_error w c) 0); [|simpl; congruence]
          end).
    destruct (launch _ _ _ _ _ _ _ _ _ _); try discriminate.
    destruct (Z.eqb_spec (cuda_error w DeviceSynchronize) 0);
      [|simpl; congruence].
    destruct call; congruence.
  - intros file Hn Hfile Hlen Hin.
    destruct (fread_full _ file Hn Hlen) as [Hread Hfull].
    unfold gpu_main, gpuErrchk. rewrite Hfile.
    rewrite wrap32_id by (unfold INT_MIN, INT_MAX in *; lia).
    rewrite Hread, Hfull. fold (read_line cfg). unfold allocations in *.
    destruct (Z.eqb_spec (cuda_error w MallocManaged_in) 0) as [E1|E1];
      [|exists MallocManaged_in; repeat split; [repeat constructor|assumption]].
    destruct (Z.eqb_spec (cuda_error w MallocManaged_out) 0) as [E2|E2];
      [|exists MallocManaged_out; repeat split;
        [repeat constructor|assumption]].
    destruct (Z.eqb_spec (cuda_error w MallocManaged_gx) 0) as [E3|E3];
      [|exists MallocManaged_gx; repeat split; [repeat constructor|assumption]].
    destruct (Z.eqb_spec (cuda_error w MallocManaged_gy) 0) as [E4|E4];
      [|exists MallocManaged_gy; repeat split; [repeat constructor|assumption]].
    exfalso.
    repeat (apply elem_of_cons in Hin as [->|Hin]; [congruence|]).
    now apply elem_of_nil in Hin.
Qed.

Lemma device_error_aborts_witness :
  let cfg := {| input_fname := "in"; data_dims := (2, 1);
                output_fname := "out" |} in
  let w := {| input_file := Some [0; 255];
              output_room := Some 2;
              heap := fun _ => F32.one;
              omp_order := fun _ ncols nrows => all_pixels ncols nrows;
              elapsed := fun _ => "0.01"%string;
              cuda_error := fun call =>
                match call with MallocManaged_gx => 2 | _ => 0 end;
              device_fmad := Fmad_on true; short_write := Reported |} in
  run_output (gpu_main 2 cfg w []) = None /\
  run_status (gpu_main 2 cfg w []) <> Exit 0.
Proof.
  intros cfg w.
  destruct (device_error_aborts 2 cfg w [] MallocManaged_gx) as (H1 & H2 & _);
    [simpl; lia | exact (conj H1 H2)].
Defined.

Lemma write_output_room cfg w w' nvalues out stdout stdout' :
  output_room w = output_room w' -> short_write w = short_write w' ->
  run_status (write_output cfg w nvalues out stdout)
  = run_status (write_output cfg w' nvalues out stdout') /\
  run_output (write_output cfg w nvalues out stdout)
  = run_output (write_output cfg w' nvalues out stdout').
Proof.
  intros Hroom Hlost. unfold write_output. rewrite <- Hroom, <- Hlost.
  destruct (output_room w) as [room|]; [|easy].
  now destruct (_ =? _), (short_write w).
Qed.

(** X7. The exit code and the output file of the CPU program depend on the
    input file and on the output file - the room in it, and how a loss of
    bytes shows - alone: not on the contents of the memory that [malloc]
    returns for the output buffer, not on the order in which the threads of
    the teams store the pixels, not on the times measured. *)
Theorem cpu_output_ignores_heap_and_schedule (cfg : config) (w w' : world) :
  let ncols := fst (data_dims cfg) in
  let nrows := snd (data_dims cfg) in
  0 <= nrows <= INT_MAX -> 0 <= ncols <= INT_MAX ->
  nrows * ncols <= INT_MAX ->
  input_file w = input_file w' ->
  output_room w = output_room w' ->
  short_write w = short_write w' ->
  (forall num_threads, num_threads ∈ thread_counts ->
     omp_order w num_threads ncols nrows ≡ₚ all_pixels ncols nrows) ->
  (forall num_threads, num_threads ∈ thread_counts ->
     omp_order w' num_threads ncols nrows ≡ₚ all_pixels ncols nrows) ->
  run_status (cpu_main cfg w) = run_status (cpu_main cfg w') /\
  run_output (cpu_main cfg w) = run_output (cpu_main cfg w').
Proof.
  intros ncols nrows Hr Hc Hfit Hin Hroom Hlost Hord Hord'.
  assert (Hn : 0 <= fst (data_dims cfg) * snd (data_dims cfg) <= INT_MAX)
    by (fold nrows ncols; nia).
  destruct (input_file w) as [file|] eqn:Hfile; symmetry in Hin.
  - destruct (Z_le_gt_dec (nrows * ncols) (Z.of_nat (length file)))
      as [Hlen|Hshort].
    + destruct (cpu_main_image cfg w file) as (r & Himg & ->);
        try assumption.
      destruct (cpu_main_image cfg w' file) as (r' & Himg' & ->);
        try assumption.
      assert (r' = r) as ->.
      { eapply sobel_image_unique; [| |exact Himg'|exact Himg]; lia. }
      now apply write_output_room.
    + rewrite (cpu_main_short_read cfg w file),
        (cpu_main_short_read cfg w' file);
        (assumption || (fold nrows ncols; lia) || easy).
  - now rewrite !cpu_main_missing_input.
Qed.

Lemma cpu_output_ignores_heap_and_schedule_witness :
  let cfg := {| input_fname := "in"; data_dims := (2, 2);
                output_fname := "out" |} in
  let w := {| input_file := Some [0; 255; 255; 0];
              output_room := Some 4;
              heap := fun _ => F32.one;
              omp_order := fun _ ncols nrows => all_pixels ncols nrows;
              elapsed := fun _ => "0.01"%string;
              cuda_error := fun _ => 0;
              device_fmad := Fmad_on true; short_write := Reported |} in
  let w' := {| input_file := Some [0; 255; 255; 0];
               output_room := Some 4;
               heap := fun k => F32.of_Z k;
               omp_order := fun _ ncols nrows =>
                              reverse (all_pixels ncols nrows);
               elapsed := fun _ => "0.02"%string;
               cuda_error := fun _ => 0;
               device_fmad := Fmad_on true; short_write := Reported |} in
  run_output (cpu_main cfg w) = run_output (cpu_main cfg w').
Proof.
  intros cfg w w'.
  destruct (cpu_output_ignores_heap_and_schedule cfg w w') as [_ H];
    [solve [vm_compute; intuition congruence | reflexivity] ..
    | intros T _; apply reverse_Permutation
    | exact H].
Defined.

(** ** The sweep script *)

Lemma sweep_runs_shapes :
  forallb (fun args =>
             (1 <=? fst (launch_shape args)) &&
             (fst (launch_shape args) <=? 1024) &&
             (1 <=? snd (launch_shape args)) &&
             (snd (launch_shape args) <=? 1024))
          ([] :: sweep_runs) = true.
Proof. vm_compute. reflexivity. Qed.

(** X8. Every run of the sweep script, and the run without arguments, passes
    the GPU program a launch shape of 1 to 1024 blocks of 1 to 1024 threads;
    for an image of 2^31 - 2^20 pixels at most, as the one of the source is,
    on an input file that holds the image and with a CUDA runtime that reports
    no error (the profiler that wraps the run is taken to leave it as it is),
    all these runs end in the same way and write the same bytes, whatever
    the launch shape; where the device code is compiled without contraction
    into fused multiply-adds, they end as the CPU program does and write
    the bytes that it writes. *)
Theorem sweep_script_runs_agree
    (fuel : nat) (cfg : config) (w : world) (args : list string)
    (file : list Z) :
  let ncols := fst (data_dims cfg) in
  let nrows := snd (data_dims cfg) in
  args ∈ [] :: sweep_runs ->
  1 <= nrows -> 1 <= ncols -> nrows * ncols <= 2147483648 - 1048576 ->
  input_file w = Some file ->
  nrows * ncols <= Z.of_nat (length file) ->
  (forall num_threads, num_threads ∈ thread_counts ->
     omp_order w num_threads ncols nrows ≡ₚ all_pixels ncols nrows) ->
  (forall call, cuda_error w call = 0) ->
  (Z.to_nat (nrows * ncols) <= fuel)%nat ->
  (1 <= fst (launch_shape args) <= 1024 /\
   1 <= snd (launch_shape args) <= 1024) /\
  (forall args', args' ∈ [] :: sweep_runs ->
     run_status (gpu_main fuel cfg w args)
     = run_status (gpu_main fuel cfg w args') /\
     run_output (gpu_main fuel cfg w args)
     = run_output (gpu_main fuel cfg w args')) /\
  (device_fmad w = Fmad_off ->
   run_status (gpu_main fuel cfg w args) = run_status (cpu_main cfg w) /\
   run_output (gpu_main fuel cfg w args) = run_output (cpu_main cfg w)) /\
  snd (data_dims zebra_4x) * fst (data_dims zebra_4x)
  <= 2147483648 - 1048576.
Proof.
  intros ncols nrows Hargs Hr Hc Hfit Hfile Hlen Hord Hcuda Hfuel.
  pose proof sweep_runs_shapes as Hshapes.
  rewrite forallb_forall in Hshapes.
  assert (Hshape : forall a, a ∈ [] :: sweep_runs ->
            1 <= fst (launch_shape a) <= 1024 /\
            1 <= snd (launch_shape a) <= 1024).
  { intros a Ha. apply list_elem_of_In, Hshapes in Ha.
    rewrite !andb_true_iff, !Z.leb_le in Ha. lia. }
  assert (Hint : nrows * ncols <= INT_MAX) by (unfold INT_MAX; lia).
  destruct (dims_fit nrows ncols) as [Hri Hci]; [lia..|].
  assert (Hgpu : forall a, a ∈ [] :: sweep_runs ->
            exists r,
              device_image (device_fmad w)
                (byte_to_float <$> take (Z.to_nat (nrows * ncols)) file)
                ncols nrows Gx Gy r /\
              gpu_main fuel cfg w a
              = write_output cfg w (nrows * ncols) r
                  (read_line cfg
                     ++ configuration_line (fst (launch_shape a))
                                           (snd (launch_shape a)))%string).
  { intros a Ha. destruct (Hshape a Ha) as [HB HT].
    apply (gpu_main_image fuel cfg w a file); try assumption; try lia.
    fold nrows ncols. nia. }
  destruct (Hgpu args Hargs) as (r & Himg & ->).
  split; [now apply Hshape|]. split; [|split].
  - intros args' Hargs'. destruct (Hgpu args' Hargs') as (r' & Himg' & ->).
    assert (r' = r) as ->.
    { eapply device_image_unique; [| |exact Himg'|exact Himg];
        fold nrows ncols; lia. }
    apply write_output_stdout.
  - intros Hfmad. rewrite Hfmad in Himg. apply device_image_off in Himg.
    destruct (cpu_main_image cfg w file) as (r' & Himg' & ->);
      try assumption; [fold nrows; lia | fold ncols; lia |].
    assert (r' = r) as ->.
    { eapply sobel_image_unique; [| |exact Himg'|exact Himg];
        fold nrows ncols; lia. }
    apply write_output_stdout.
  - vm_compute. discriminate.
Qed.

Lemma sweep_script_runs_agree_witness :
  let cfg := {| input_fname := "in"; data_dims := (2, 2);
                output_fname := "out" |} in
  let w := {| input_file := Some [190; 202; 209; 35];
              output_room := Some 4;
              heap := fun _ => F32.one;
              omp_order := fun _ ncols nrows => all_pixels ncols nrows;
              elapsed := fun _ => "0.01"%string;
              cuda_error := fun _ => 0;
              device_fmad := Fmad_on true; short_write := Reported |} in
  run_output (gpu_main 4 cfg w ["16"; "256"]%string)
  = run_output (gpu_main 4 cfg w []).
Proof.
  intros cfg w.
  destruct (sweep_script_runs_agree 4 cfg w ["16"; "256"]%string
              [190; 202; 209; 35]) as (_ & H & _);
    [ unfold sweep_runs, N_BLOCKS, N_THREADS_PER_BLOCK;
      cbn [mbind list_bind fmap list_fmap app]; repeat constructor
    | solve [vm_compute; intuition congruence | reflexivity] ..
    | destruct (H []) as [_ Hout]; [constructor | exact Hout] ].
Defined.

(** ** The stencil evaluator: further properties *)

(** X9. The evaluator of the GPU program, which accumulates both sums in one
    pass over the neighbourhood, and the evaluator of the CPU program, which
    makes one pass for each sum, make the same accesses: for every source
    buffer, pixel position, dimensions and weight tables, and however the
    device code was compiled, one returns a value exactly when the other
    does. Compiled without contraction into fused multiply-adds, the
    evaluator of the GPU program returns the value that the evaluator of
    the CPU program returns. Compiled with contraction it need not: at the
    pixel (1,1) of the image of 2 by 2 with the bytes 190, 202, 209, 35 it
    returns 13981014 * 2^-22, whichever square is fused, where the CPU
    program returns 13981013 * 2^-22. *)
Theorem gpu_evaluator_agrees_up_to_contraction
    (s : list float) (i j ncols nrows : Z) (gx gy : list float) :
  Gpu.sobel_filtered_pixel s i j ncols nrows gx gy
  = Cpu.sobel_filtered_pixel s i j ncols nrows gx gy /\
  Gpu.device_pixel Fmad_off s i j ncols nrows gx gy
  = Cpu.sobel_filtered_pixel s i j ncols nrows gx gy /\
  (forall c,
     is_Some (Gpu.device_pixel c s i j ncols nrows gx gy) <->
     is_Some (Cpu.sobel_filtered_pixel s i j ncols nrows gx gy)) /\
  (Cpu.sobel_filtered_pixel (byte_to_float <$> [190; 202; 209; 35])
                            1 1 2 2 Gx Gy
   = Some (S754_finite false 13981013 (-22)) /\
   forall gx_fused,
     Gpu.device_pixel (Fmad_on gx_fused) (byte_to_float <$> [190; 202; 209; 35])
                      1 1 2 2 Gx Gy
     = Some (S754_finite false 13981014 (-22))).
Proof.
  split; [apply gpu_pixel_is_cpu_pixel|].
  split; [apply device_pixel_off_is_cpu_pixel|].
  split; [intros c; apply device_pixel_is_Some|].
  split; [vm_compute; reflexivity|].
  intros [|]; vm_compute; reflexivity.
Qed.

Lemma elem_of_taps tap i j ncols nrows :
  tap ∈ taps i j ncols nrows ->
  exists dy dx, -1 <= dy <= 1 /\ -1 <= dx <= 1 /\
    0 <= i + dy < nrows /\ 0 <= j + dx < ncols /\
    tap = ((dy + 1) * 3 + (dx + 1), neighbor_index (i + dy) (j + dx) ncols).
Proof.
  unfold taps. rewrite list_elem_of_fmap. intros ([dy dx] & -> & Hd).
  apply elem_of_contributing in Hd as (Hd & Hi & Hj).
  apply elem_of_neighbourhood in Hd as [Hy Hx].
  apply offsets_bound in Hy, Hx. exists dy, dx. simpl in *. auto.
Qed.

Lemma weighted_sum_ext s s' g ts :
  (forall tap, tap ∈ ts -> read s (snd tap) = read s' (snd tap)) ->
  weighted_sum s g ts = weighted_sum s' g ts.
Proof.
  intros H. unfold weighted_sum. apply foldlM_ext. intros t tap Htap.
  now rewrite (H tap Htap).
Qed.

Lemma cpu_pixel_ext s s' i j ncols nrows gx gy :
  0 <= i < nrows -> 0 <= j < ncols ->
  nrows <= INT_MAX -> ncols <= INT_MAX -> nrows * ncols <= 2147483648 ->
  (forall dy dx, -1 <= dy <= 1 -> -1 <= dx <= 1 ->
     0 <= i + dy < nrows -> 0 <= j + dx < ncols ->
     read s ((i + dy) * ncols + (j + dx))
     = read s' ((i + dy) * ncols + (j + dx))) ->
  Cpu.sobel_filtered_pixel s i j ncols nrows gx gy
  = Cpu.sobel_filtered_pixel s' i j ncols nrows gx gy.
Proof.
  intros Hi Hj Hr Hc Hn Hsame.
  rewrite !cpu_pixel_is_evaluate by assumption. unfold evaluate.
  assert (Hts : forall tap, tap ∈ taps i j ncols nrows ->
                  read s (snd tap) = read s' (snd tap)).
  { intros tap (dy & dx & Hdy & Hdx & Hy & Hx & ->)%elem_of_taps.
    cbn [snd].
    destruct (neighbor_index_exact (i + dy) (j + dx) ncols nrows)
      as [-> _]; auto. }
  now rewrite (weighted_sum_ext s s' gx _ Hts),
    (weighted_sum_ext s s' gy _ Hts).
Qed.



(** *** The sign of the result *)








(** *** An image without light *)





(** ** The boundary policy as a frame of zeros *)










(** ** The sweep: what an iteration writes *)

Lemma pixel_index_inj i j i' j' ncols :
  0 <= j < ncols -> 0 <= j' < ncols ->
  i * ncols + j = i' * ncols + j' -> i = i' /\ j = j'.
Proof.
  intros Hj Hj' H.
  assert (i = i') as ->; [|lia].
  destruct (Z.lt_trichotomy i i') as [Hlt|[Heq|Hgt]]; [|assumption|]; nia.
Qed.

Lemma store_commute (f : Z -> option float) (d : list float) (k k' : Z) :
  store f d k ≫= (fun d' => store f d' k')
  = store f d k' ≫= (fun d' => store f d' k).
Proof.
  destruct (decide (k = k')) as [->|Hne]; [reflexivity|].
  unfold store.
  destruct (f k) as [v|], (f k') as [v'|]; cbn [mbind option_bind];
    try reflexivity.
  - unfold write.
    destruct ((0 <=? k) && (k <? Z.of_nat (length d))) eqn:Ek,
             ((0 <=? k') && (k' <? Z.of_nat (length d))) eqn:Ek';
      cbn [mbind option_bind]; rewrite ?length_insert, ?Ek, ?Ek';
      try reflexivity.
    f_equal. apply list_insert_insert_ne.
    apply andb_true_iff in Ek as [Hk _], Ek' as [Hk' _].
    apply Z.leb_le in Hk, Hk'. lia.
  - now destruct (write d k v).
  - now destruct (write d k' v').
Qed.

(** X14. In the sweep, the iteration (i, j) changes the element i*ncols + j of
    the destination buffer and no other; two different iterations change
    different elements; so two iterations of the loop nest give the same
    buffer in either order, which is what the parallel loop relies on. *)
Theorem sweep_iterations_commute
    (inp out : list float) (ncols nrows : Z) (p q : Z * Z) :
  0 <= nrows <= INT_MAX -> 0 <= ncols <= INT_MAX ->
  nrows * ncols <= 2147483648 ->
  p ∈ all_pixels ncols nrows -> q ∈ all_pixels ncols nrows ->
  (forall out', sweep_pixel inp ncols nrows out p = Some out' ->
     exists v, Cpu.sobel_filtered_pixel inp (fst p) (snd p) ncols nrows Gx Gy
               = Some v /\
               0 <= fst p * ncols + snd p < Z.of_nat (length out) /\
               out' = <[Z.to_nat (fst p * ncols + snd p) := v]> out) /\
  (p <> q -> fst p * ncols + snd p <> fst q * ncols + snd q) /\
  sweep_pixel inp ncols nrows out p
    ≫= (fun out' => sweep_pixel inp ncols nrows out' q)
  = sweep_pixel inp ncols nrows out q
    ≫= (fun out' => sweep_pixel inp ncols nrows out' p).
Proof.
  intros Hr Hc Hn Hp Hq. destruct p as [i j], q as [i' j'].
  apply elem_of_all_pixels in Hp as [Hi Hj], Hq as [Hi' Hj'].
  cbn [fst snd]. split; [|split].
  - intros out' Hsweep. unfold sweep_pixel in Hsweep.
    destruct (Cpu.sobel_filtered_pixel inp i j ncols nrows Gx Gy) as [v|];
      [|discriminate].
    cbn [mbind option_bind] in Hsweep.
    destruct (neighbor_index_exact i j ncols nrows Hi Hj Hn) as [Hk _].
    unfold neighbor_index in Hk. rewrite Hk in Hsweep.
    apply write_inv in Hsweep as [Hin ->]. now exists v.
  - intros Hne Heq.
    apply pixel_index_inj in Heq as [-> ->]; [congruence|lia..].
  - transitivity
      (store (pixel_value inp ncols nrows Gx Gy) out (i * ncols + j)
         ≫= (fun out' => store (pixel_value inp ncols nrows Gx Gy) out'
                               (i' * ncols + j'))).
    { rewrite sweep_pixel_store by assumption.
      destruct (store _ out (i * ncols + j)); [|reflexivity].
      cbn [mbind option_bind]. now apply sweep_pixel_store. }
    rewrite store_commute.
    rewrite (sweep_pixel_store inp ncols nrows out i' j') by assumption.
    destruct (store _ out (i' * ncols + j')); [|reflexivity].
    cbn [mbind option_bind]. symmetry. now apply sweep_pixel_store.
Qed.

Lemma sweep_iterations_commute_witness :
  let inp := F32.of_Z <$> [3; 1; 4; 1; 5; 9] in
  sweep_pixel inp 3 2 (replicate 6 F32.one) (0, 2)
    ≫= (fun out' => sweep_pixel inp 3 2 out' (1, 0))
  = sweep_pixel inp 3 2 (replicate 6 F32.one) (1, 0)
    ≫= (fun out' => sweep_pixel inp 3 2 out' (0, 2)).
Proof.
  intros inp.
  apply (sweep_iterations_commute inp (replicate 6 F32.one) 3 2 (0, 2) (1, 0));
    try (unfold INT_MAX; lia); apply elem_of_all_pixels; lia.
Defined.

(** ** The sweep and the size of its buffers *)

Lemma read_take {A} (s : list A) (n k : Z) :
  0 <= k < n -> read (take (Z.to_nat n) s) k = read s k.
Proof.
  intros Hk. unfold read. destruct (0 <=? k); [|reflexivity].
  apply lookup_take_lt. lia.
Qed.

Lemma pixel_of_index k ncols nrows :
  0 <= k < nrows * ncols -> 0 <= nrows ->
  0 <= k / ncols < nrows /\ 0 <= k mod ncols < ncols /\
  k = k / ncols * ncols + k mod ncols.
Proof.
  intros Hk Hr. assert (0 < ncols) by nia.
  pose proof (Z.mod_pos_bound k ncols ltac:(lia)).
  pose proof (Z.div_mod k ncols ltac:(lia)).
  assert (0 <= k / ncols) by (apply Z.div_pos; lia).
  assert (k / ncols < nrows) by (apply Z.div_lt_upper_bound; lia).
  lia.
Qed.

(** the evaluator returns a value at every pixel of the image where the
    source buffer holds the image *)
Lemma cpu_pixel_total_ge s i j ncols nrows :
  nrows * ncols <= Z.of_nat (length s) ->
  nrows <= INT_MAX -> ncols <= INT_MAX -> nrows * ncols <= 2147483648 ->
  0 <= i < nrows -> 0 <= j < ncols ->
  is_Some (Cpu.sobel_filtered_pixel s i j ncols nrows Gx Gy).
Proof.
  intros Hs Hr Hc Hn Hi Hj.
  rewrite (cpu_pixel_ext s (take (Z.to_nat (nrows * ncols)) s))
    by (try assumption; intros; symmetry; apply read_take; nia).
  destruct (cpu_pixel_total (take (Z.to_nat (nrows * ncols)) s) i j ncols nrows
              Gx Gy) as [v ->]; try assumption; try reflexivity; [|eauto].
  rewrite length_take. nia.
Qed.

(** the evaluator reads the sample of the pixel itself *)
Lemma cpu_pixel_reads_center s i j ncols nrows gx gy :
  0 <= i < nrows -> 0 <= j < ncols ->
  nrows <= INT_MAX -> ncols <= INT_MAX -> nrows * ncols <= 2147483648 ->
  read s (i * ncols + j) = None ->
  Cpu.sobel_filtered_pixel s i j ncols nrows gx gy = None.
Proof.
  intros Hi Hj Hr Hc Hn Hread.
  rewrite cpu_pixel_is_evaluate by assumption. unfold evaluate.
  assert (Hsum : weighted_sum s gx (taps i j ncols nrows) = None);
    [|now rewrite Hsum].
  unfold weighted_sum.
  apply (foldlM_None_elem _ (4, i * ncols + j)).
  - unfold taps. apply list_elem_of_fmap. exists (0, 0). cbn [fst snd].
    split.
    + rewrite !Z.add_0_r.
      now destruct (neighbor_index_exact i j ncols nrows Hi Hj Hn) as [-> _].
    + apply elem_of_contributing. cbn [fst snd]. split; [|lia].
      apply elem_of_neighbourhood. unfold offsets. split; repeat constructor.
  - intros t. cbn [fst snd]. rewrite Hread. now destruct (read gx 4).
Qed.

Lemma foldlM_None_elem_inv {A B} (P : B -> Prop) (f : B -> A -> option B)
    (a : A) (l : list A) :
  a ∈ l ->
  (forall b a' b', P b -> f b a' = Some b' -> P b') ->
  (forall b, P b -> f b a = None) ->
  forall b, P b -> foldlM f b l = None.
Proof.
  intros Ha Hinv Hf. induction l as [|a' l IH]; intros b Hb.
  - now apply elem_of_nil in Ha.
  - simpl. apply elem_of_cons in Ha as [<-|Ha].
    + now rewrite Hf.
    + destruct (f b a') as [b'|] eqn:E; [|reflexivity].
      apply IH; [assumption|]. now apply (Hinv b a').
Qed.

Lemma sweep_pixel_length inp ncols nrows out p out' :
  sweep_pixel inp ncols nrows out p = Some out' -> length out' = length out.
Proof.
  destruct p as [i j]. unfold sweep_pixel.
  destruct (Cpu.sobel_filtered_pixel _ _ _ _ _ _ _); [|discriminate].
  apply write_length.
Qed.

(** the sweep, as stores of the values of the evaluator *)
Lemma sweep_as_stores inp ncols nrows order :
  0 <= nrows -> nrows * ncols <= 2147483648 ->
  order ≡ₚ all_pixels ncols nrows ->
  (forall d, foldlM (sweep_pixel inp ncols nrows) d order =
             foldlM (store (pixel_value inp ncols nrows Gx Gy)) d
                    ((fun p => fst p * ncols + snd p) <$> order)) /\
  forall k, k ∈ (fun p => fst p * ncols + snd p) <$> order <->
            0 <= k < nrows * ncols.
Proof.
  intros Hr Hn Ho. split.
  - intros d. rewrite foldlM_fmap. apply foldlM_ext. intros d0 [i j] Hp.
    rewrite Ho in Hp. apply elem_of_all_pixels in Hp as [Hi Hj].
    now apply sweep_pixel_store.
  - intros k. rewrite list_elem_of_fmap. split.
    + intros ([i j] & -> & Hp). rewrite Ho in Hp.
      apply elem_of_all_pixels in Hp. simpl. nia.
    + intros Hk. destruct (pixel_of_index k ncols nrows Hk Hr) as (Hi & Hj & E).
      exists (k / ncols, k mod ncols). split; [simpl; lia|].
      rewrite Ho. apply elem_of_all_pixels. lia.
Qed.

(** X15. The sweep checks the size of neither buffer. For dimensions whose
    product is 2^31 at most, it runs without an access outside a buffer
    exactly when the source buffer and the destination buffer both hold
    rows*cols elements at least; it then keeps the size of the destination
    buffer and leaves its elements from rows*cols on as they were. *)
Theorem sweep_runs_iff_buffers_hold_the_image
    (order : list (Z * Z)) (inp out : list float) (ncols nrows : Z) :
  0 <= nrows <= INT_MAX -> 0 <= ncols <= INT_MAX ->
  nrows * ncols <= 2147483648 ->
  order ≡ₚ all_pixels ncols nrows ->
  (is_Some (do_sobel_filtering_omp order inp out ncols nrows) <->
   nrows * ncols <= Z.of_nat (length inp) /\
   nrows * ncols <= Z.of_nat (length out)) /\
  (forall r, do_sobel_filtering_omp order inp out ncols nrows = Some r ->
     length r = length out /\
     forall k, nrows * ncols <= k -> read r k = read out k).
Proof.
  intros Hr Hc Hn Ho. unfold do_sobel_filtering_omp.
  destruct (sweep_as_stores inp ncols nrows order (proj1 Hr) Hn Ho)
    as [Hfold Hks].
  assert (Hok : nrows * ncols <= Z.of_nat (length inp) ->
                nrows * ncols <= Z.of_nat (length out) ->
                exists r, foldlM (sweep_pixel inp ncols nrows) out order
                          = Some r /\
                          length r = length out /\
                          forall k, nrows * ncols <= k ->
                                    read r k = read out k).
  { intros Hinp Hout. rewrite Hfold.
    destruct (stores_spec (pixel_value inp ncols nrows Gx Gy)
                ((fun p => fst p * ncols + snd p) <$> order) out)
      as (r & Hrun & Hlen & Hread).
    - apply Forall_forall. intros k Hk%Hks. split; [lia|].
      destruct (pixel_of_index k ncols nrows Hk (proj1 Hr)) as (Hi & Hj & _).
      apply cpu_pixel_total_ge; (assumption || lia).
    - exists r. split; [exact Hrun|]. split; [exact Hlen|].
      intros k Hk. rewrite Hread, decide_False; [reflexivity|].
      intros Hin%Hks. lia. }
  split; [split|].
  - intros Hsome.
    destruct (Z_le_gt_dec (nrows * ncols) (Z.of_nat (length inp)))
      as [Hinp|Hinp];
      [destruct (Z_le_gt_dec (nrows * ncols) (Z.of_nat (length out)))
         as [Hout|Hout]; [auto|]|]; exfalso.
    + (* the store of the pixel of index [length out] leaves the buffer *)
      set (k0 := Z.of_nat (length out)) in *.
      destruct (pixel_of_index k0 ncols nrows ltac:(lia) (proj1 Hr))
        as (Hi & Hj & E).
      rewrite (foldlM_None_elem_inv (fun d => length d = length out)
                 (sweep_pixel inp ncols nrows) (k0 / ncols, k0 mod ncols))
        in Hsome; [now apply is_Some_None in Hsome| | | |reflexivity].
      * rewrite Ho. apply elem_of_all_pixels. lia.
      * intros d p d' Hd Hp. apply sweep_pixel_length in Hp. congruence.
      * intros d Hd. rewrite sweep_pixel_store by assumption.
        unfold store. destruct (pixel_value _ _ _ _ _ _); [|reflexivity].
        cbn [mbind option_bind]. apply write_None. rewrite Hd. lia.
    + (* the evaluator reads the sample of index [length inp] *)
      set (k0 := Z.of_nat (length inp)) in *.
      destruct (pixel_of_index k0 ncols nrows ltac:(lia) (proj1 Hr))
        as (Hi & Hj & E).
      rewrite (foldlM_None_elem (sweep_pixel inp ncols nrows)
                 (k0 / ncols, k0 mod ncols)) in Hsome;
        [now apply is_Some_None in Hsome| |].
      * rewrite Ho. apply elem_of_all_pixels. lia.
      * intros d. unfold sweep_pixel.
        rewrite cpu_pixel_reads_center; try assumption; try lia;
          [reflexivity|].
        apply read_None. lia.
  - intros [Hinp Hout]. destruct (Hok Hinp Hout) as (r & -> & _). eauto.
  - intros r Hrun.
    assert (Hsome : is_Some (foldlM (sweep_pixel inp ncols nrows) out order))
      by eauto.
    destruct (Z_le_gt_dec (nrows * ncols) (Z.of_nat (length inp)))
      as [Hinp|Hinp];
      [destruct (Z_le_gt_dec (nrows * ncols) (Z.of_nat (length out)))
         as [Hout|Hout]|].
    + destruct (Hok Hinp Hout) as (r' & Hrun' & Hlen & Hread).
      rewrite Hrun in Hrun'. injection Hrun' as <-. auto.
    + split.
      * apply (foldlM_invariant (fun d => length d = length out)) in Hrun;
          [exact Hrun| |reflexivity].
        intros d p d' _ Hd Hp. apply sweep_pixel_length in Hp. congruence.
      * intros k Hk. rewrite Hfold in Hrun.
        rewrite !read_None; [reflexivity|lia|].
        apply (foldlM_invariant (fun d => length d = length out)) in Hrun;
          [rewrite Hrun; lia| |reflexivity].
        intros d k' d' _ Hd. unfold store.
        destruct (pixel_value _ _ _ _ _ _); [|discriminate].
        intros Hw%write_length. congruence.
    + split.
      * apply (foldlM_invariant (fun d => length d = length out)) in Hrun;
          [exact Hrun| |reflexivity].
        intros d p d' _ Hd Hp. apply sweep_pixel_length in Hp. congruence.
      * exfalso.
        set (k0 := Z.of_nat (length inp)) in *.
        destruct (pixel_of_index k0 ncols nrows ltac:(lia) (proj1 Hr))
          as (Hi & Hj & E).
        rewrite (foldlM_None_elem (sweep_pixel inp ncols nrows)
                   (k0 / ncols, k0 mod ncols)) in Hrun; [discriminate| |].
        -- rewrite Ho. apply elem_of_all_pixels. lia.
        -- intros d. unfold sweep_pixel.
           rewrite cpu_pixel_reads_center; try assumption; try lia;
             [reflexivity|].
           apply read_None. lia.
Qed.

Lemma sweep_runs_iff_buffers_hold_the_image_witness :
  is_Some (do_sobel_filtering_omp (all_pixels 3 2)
             (replicate 7 F32.one) (replicate 8 F32.zero) 3 2) /\
  ~ is_Some (do_sobel_filtering_omp (all_pixels 3 2)
               (replicate 7 F32.one) (replicate 5 F32.zero) 3 2).
Proof.
  split.
  - apply (sweep_runs_iff_buffers_hold_the_image (all_pixels 3 2)
             (replicate 7 F32.one) (replicate 8 F32.zero) 3 2);
      try (unfold INT_MAX; lia); try reflexivity. simpl. lia.
  - intros H.
    apply (sweep_runs_iff_buffers_hold_the_image (all_pixels 3 2)
             (replicate 7 F32.one) (replicate 5 F32.zero) 3 2) in H;
      try (unfold INT_MAX; lia); try reflexivity. simpl in H. lia.
Defined.

(** ** The kernel: launch shapes whose stride is lost *)

Lemma kernel_loop_zero_stride c s n nrows ncols fuel :
  1 <= nrows -> nrows * ncols <= INT_MAX -> n = nrows * ncols -> 1 <= n ->
  Z.of_nat (length s) = n ->
  forall d, Z.of_nat (length d) = n ->
    kernel_loop c fuel s n nrows ncols Gx Gy 0 0 d = Timeout.
Proof.
  intros Hr Hfit -> Hn Hs.
  assert (Hc : 1 <= ncols) by nia.
  destruct (dims_fit nrows ncols) as [Hri Hci]; [lia..|].
  induction fuel as [|fuel IH]; intros d Hd; simpl;
    rewrite (proj2 (Z.ltb_lt 0 (nrows * ncols))) by lia; [reflexivity|].
  rewrite kernel_body_store by lia.
  unfold store, device_value.
  destruct (device_pixel_total c s (0 / ncols) (0 mod ncols) ncols nrows Gx Gy)
    as [v ->]; try assumption; try reflexivity;
    try (unfold INT_MAX in Hfit; lia).
  { rewrite Z.div_0_l; lia. }
  { rewrite Z.mod_0_l; lia. }
  cbn [mbind option_bind]. rewrite write_Some by lia.
  apply IH. rewrite length_insert. exact Hd.
Qed.

(** X16. A launch shape whose number of units, blocks times threads per block,
    is a multiple of 2^32 (4194304 blocks of 1024 threads, for one) leaves the
    stride of the kernel, kept in an [int], at 0: on an image of one pixel at
    least, the unit of thread 0 in block 0 stores pixel 0 again and again
    and does not end, however many iterations it is given. In whatever
    order the units run, the launch returns no buffer: it reaches this unit,
    or a unit before it has not ended or has run outside the buffers. *)
Theorem launch_with_lost_stride_returns_no_buffer
    (c : fmad) (s d : list float) (ncols nrows nBlocks nThreadsPerBlock : Z)
    (us : list unit_ids) :
  1 <= nBlocks -> 1 <= nThreadsPerBlock ->
  (nBlocks * nThreadsPerBlock) mod 4294967296 = 0 ->
  1 <= nrows -> 1 <= ncols -> nrows * ncols <= INT_MAX ->
  Z.of_nat (length s) = nrows * ncols ->
  Z.of_nat (length d) = nrows * ncols ->
  us ≡ₚ units nBlocks nThreadsPerBlock ->
  let u0 := {| threadIdx := 0; blockIdx := 0;
               blockDim := nThreadsPerBlock; gridDim := nBlocks |} in
  u0 ∈ us /\
  unit_stride u0 = 0 /\ unit_start u0 = 0 /\
  (forall fuel d', length d' = length d ->
     sobel_kernel_gpu c fuel u0 s d' (nrows * ncols) nrows ncols Gx Gy
     = Timeout) /\
  (forall fuel r,
     launch c fuel us s d (nrows * ncols) nrows ncols Gx Gy <> Done r).
Proof.
  intros HB HT Hshape Hr Hc Hfit Hs Hd Hus u0.
  assert (Hu0 : u0 ∈ us).
  { rewrite Hus. apply elem_of_units. exists 0, 0. repeat split; lia. }
  assert (Hstride : unit_stride u0 = 0).
  { unfold unit_stride, u0. cbn [blockDim gridDim].
    rewrite (Z.mul_comm nThreadsPerBlock nBlocks).
    unfold uwrap32. now rewrite Hshape. }
  assert (Hstart : unit_start u0 = 0) by reflexivity.
  assert (Hstuck : forall fuel d', length d' = length d ->
            sobel_kernel_gpu c fuel u0 s d' (nrows * ncols) nrows ncols Gx Gy
            = Timeout).
  { intros fuel d' Hd'. unfold sobel_kernel_gpu. rewrite Hstride, Hstart.
    apply kernel_loop_zero_stride; try assumption; try reflexivity; nia. }
  split; [exact Hu0|]. split; [exact Hstride|]. split; [exact Hstart|].
  split; [exact Hstuck|].
  intros fuel r.
  apply (launch_returns_no_buffer c fuel us s (nrows * ncols) nrows ncols
           Gx Gy u0 (length d)); auto.
Qed.

Lemma launch_with_lost_stride_returns_no_buffer_witness :
  sobel_kernel_gpu (Fmad_on true) 1000
    {| threadIdx := 0; blockIdx := 0; blockDim := 1024; gridDim := 4194304 |}
    [F32.one; F32.zero] [F32.one; F32.one] (1 * 2) 1 2 Gx Gy
  = Timeout.
Proof.
  destruct (launch_with_lost_stride_returns_no_buffer (Fmad_on true)
              [F32.one; F32.zero] [F32.one; F32.one] 2 1 4194304 1024
              (units 4194304 1024)
              ltac:(lia) ltac:(lia) eq_refl ltac:(lia) ltac:(lia)
              ltac:(unfold INT_MAX; lia) eq_refl eq_refl
              (Permutation_refl _))
    as (_ & _ & _ & H & _).
  apply H. reflexivity.
Defined.

(** ** The kernel: the number of pixels it is given *)

(** X18. The kernel takes the number [n] of pixels to process apart from the
    dimensions of the image. For [n] between 0 and rows*cols, and a launch
    shape whose number of units fits an [int] and stays with [n] below 2^31, a
    launch ends, in whatever order the units run, stores the value of the
    evaluator of the device - in the arithmetic that the device code was
    compiled to - in each of the first [n] elements of the destination
    buffer and leaves the other elements as they were; with [n] = 0 it
    stores nothing. *)
Theorem launch_writes_the_first_n_pixels
    (c : fmad) (s d : list float) (ncols nrows n nBlocks nThreadsPerBlock : Z)
    (us : list unit_ids) (fuel : nat) :
  1 <= nrows -> 1 <= ncols -> nrows * ncols <= INT_MAX ->
  Z.of_nat (length s) = nrows * ncols ->
  0 <= n <= nrows * ncols -> n <= Z.of_nat (length d) ->
  1 <= nBlocks -> 1 <= nThreadsPerBlock ->
  nBlocks * nThreadsPerBlock <= INT_MAX ->
  nBlocks * nThreadsPerBlock + n <= 2147483648 ->
  us ≡ₚ units nBlocks nThreadsPerBlock ->
  (Z.to_nat n <= fuel)%nat ->
  exists r,
    launch c fuel us s d n nrows ncols Gx Gy = Done r /\
    length r = length d /\
    (forall k, 0 <= k < n ->
       is_Some (read r k) /\
       read r k = Gpu.device_pixel c s (k / ncols) (k mod ncols)
                                   ncols nrows Gx Gy) /\
    (forall k, n <= k -> read r k = read d k) /\
    (n = 0 -> r = d).
Proof.
  intros Hr Hc Hfit Hs Hn Hd HB HT Hmax Hshape Hus Hfuel.
  destruct (dims_fit nrows ncols) as [Hri Hci]; [lia..|].
  assert (Hmem : forall u, u ∈ us <-> u ∈ units nBlocks nThreadsPerBlock)
    by (intros u; now rewrite Hus).
  assert (Hks : forall k, k ∈ us ≫= visits fuel n <-> 0 <= k < n).
  { intros k.
    rewrite <- (elem_of_all_visits fuel n nBlocks nThreadsPerBlock k)
      by (assumption || lia).
    rewrite !list_elem_of_bind. now setoid_rewrite Hmem. }
  assert (Hval : forall k, 0 <= k < n ->
            is_Some (device_value c s ncols nrows Gx Gy k)).
  { intros k Hk.
    destruct (pixel_of_index k ncols nrows ltac:(lia) ltac:(lia))
      as (Hi & Hj & _).
    destruct (device_pixel_total c s (k / ncols) (k mod ncols) ncols nrows
                                 Gx Gy)
      as [v Hv]; try assumption; try reflexivity;
      try (unfold INT_MAX in Hfit; lia).
    unfold device_value. rewrite Hv. eauto. }
  destruct (stores_spec (device_value c s ncols nrows Gx Gy)
              (us ≫= visits fuel n) d) as (r & Hfold & Hlen & Hread).
  { apply Forall_forall. intros k Hk%Hks. split; [lia|]. now apply Hval. }
  exists r. split; [|split; [exact Hlen|split; [|split]]].
  - rewrite launch_visits.
    + rewrite (foldlM_ext _ (store (device_value c s ncols nrows Gx Gy))).
      * now rewrite Hfold.
      * intros d' k Hk%Hks. apply kernel_body_store; lia.
    + intros u Hu%Hmem.
      now apply (visits_spec fuel n u nBlocks nThreadsPerBlock); try lia.
  - intros k Hk. rewrite Hread, decide_True by now apply Hks.
    split; [now apply Hval | reflexivity].
  - intros k Hk. rewrite Hread, decide_False; [reflexivity|].
    intros Hin%Hks. lia.
  - intros ->. apply buffer_eq. intros k Hk.
    rewrite Hread, decide_False; [reflexivity|]. intros Hin%Hks. lia.
Qed.

Lemma launch_writes_the_first_n_pixels_witness :
  exists r,
    launch (Fmad_on true) 4 (units 1 3) (F32.of_Z <$> [3; 1; 4; 1; 5; 9])
           (replicate 6 F32.one) 4 2 3 Gx Gy = Done r /\
    read r 5 = Some F32.one.
Proof.
  destruct (launch_writes_the_first_n_pixels (Fmad_on true)
              (F32.of_Z <$> [3; 1; 4; 1; 5; 9]) (replicate 6 F32.one)
              3 2 4 1 3 (units 1 3) 4)
    as (r & Hrun & _ & _ & Hrest & _);
    [solve [unfold INT_MAX; lia | reflexivity | simpl; lia] ..|].
  exists r. split; [exact Hrun|]. now rewrite Hrest by lia.
Defined.

(** ** The launch shape on the command line *)

Lemma digits_string_of_uint_acc d :
  forall acc : positive,
    digits (Z.pos acc) (NilEmpty.string_of_uint d)
    = Z.pos (Pos.of_uint_acc d acc).
Proof.
  induction d as [|d IH|d IH|d IH|d IH|d IH|d IH|d IH|d IH|d IH|d IH];
    intros acc; [reflexivity|..];
    cbn [NilEmpty.string_of_uint digits Pos.of_uint_acc];
    match goal with
    | |- context [N_of_ascii ?c] =>
        let n := eval vm_compute in (Z.of_N (N_of_ascii c)) in
        change (Z.of_N (N_of_ascii c)) with n
    end;
    cbv beta iota zeta;
    match goal with
    | |- context [(48 <=? ?n) && (?n <=? 57)] =>
        change ((48 <=? n) && (n <=? 57)) with true
    end;
    cbv iota; rewrite <- IH; f_equal; lia.
Qed.

Lemma digits_string_of_uint d :
  digits 0 (NilEmpty.string_of_uint d) = Z.of_N (Pos.of_uint d).
Proof.
  induction d as [|d IH|d IH|d IH|d IH|d IH|d IH|d IH|d IH|d IH|d IH];
    [reflexivity|exact IH|..];
    cbn [NilEmpty.string_of_uint digits Pos.of_uint N.of_uint];
    match goal with
    | |- context [N_of_ascii ?c] =>
        let n := eval vm_compute in (Z.of_N (N_of_ascii c)) in
        change (Z.of_N (N_of_ascii c)) with n
    end;
    cbv beta iota zeta;
    match goal with
    | |- context [(48 <=? ?n) && (?n <=? 57)] =>
        change ((48 <=? n) && (n <=? 57)) with true
    end;
    cbv iota;
    match goal with
    | |- digits ?k _ = _ =>
        let p := eval vm_compute in k in change k with p
    end;
    apply digits_string_of_uint_acc.
Qed.

Lemma digits_decimal d :
  digits 0 (NilZero.string_of_uint d) = Z.of_uint d.
Proof.
  unfold Z.of_uint. destruct d; try apply digits_string_of_uint. reflexivity.
Qed.

Lemma strtol_digits d :
  strtol (NilZero.string_of_uint d)
  = Z.max (-9223372036854775808)
          (Z.min 9223372036854775807 (digits 0 (NilZero.string_of_uint d))).
Proof. now destruct d. Qed.

Lemma strtol_decimal (z : Z) :
  -9223372036854775808 <= z <= 9223372036854775807 ->
  strtol (decimal z) = z.
Proof.
  intros Hz. unfold decimal.
  pose proof (DecimalZ.of_to z) as Hof.
  destruct (Z.to_int z) as [d|d]; cbn [NilZero.string_of_int Z.of_int] in *.
  - rewrite strtol_digits, digits_decimal. lia.
  - change (strtol (String "-" (NilZero.string_of_uint d)))
      with (Z.max (-9223372036854775808)
              (Z.min 9223372036854775807
                 (- digits 0 (NilZero.string_of_uint d)))).
    rewrite digits_decimal. lia.
Qed.

Lemma atoi_decimal (z : Z) : INT_MIN <= z <= INT_MAX -> atoi (decimal z) = z.
Proof.
  intros Hz. unfold atoi.
  rewrite strtol_decimal by (unfold INT_MIN, INT_MAX in Hz; lia).
  now apply wrap32_id.
Qed.

Lemma atoi_not_a_number c rest :
  is_space c = false -> c <> "-"%char -> c <> "+"%char ->
  (let n := Z.of_N (N_of_ascii c) in (48 <=? n) && (n <=? 57)) = false ->
  atoi (String c rest) = 0.
Proof.
  destruct c as [[|] [|] [|] [|] [|] [|] [|] [|]]; intros Hs Hm Hp Hd;
    try discriminate Hs; try discriminate Hd; try congruence; reflexivity.
Qed.

(** X19. The launch shape read from the command line is the one written there:
    for [int]s B and T in decimal, the arguments [B T] give B blocks of T
    threads; the argument [B] alone gives B blocks of 256 threads; no argument
    gives one block of 256 threads; and an argument that starts with a
    character that is neither white space, a sign nor a digit gives 0 blocks. *)
Theorem launch_shape_is_the_one_written (nBlocks nThreadsPerBlock : Z) :
  INT_MIN <= nBlocks <= INT_MAX ->
  INT_MIN <= nThreadsPerBlock <= INT_MAX ->
  launch_shape [decimal nBlocks; decimal nThreadsPerBlock]
  = (nBlocks, nThreadsPerBlock) /\
  launch_shape [decimal nBlocks] = (nBlocks, 256) /\
  launch_shape [] = (1, 256) /\
  forall c rest,
    is_space c = false -> c <> "-"%char -> c <> "+"%char ->
    (let n := Z.of_N (N_of_ascii c) in (48 <=? n) && (n <=? 57)) = false ->
    launch_shape [String c rest] = (0, 256).
Proof.
  intros HB HT. unfold launch_shape.
  rewrite !atoi_decimal by assumption. do 3 (split; [reflexivity|]).
  intros c rest Hs Hm Hp Hd. now rewrite atoi_not_a_number.
Qed.

Lemma launch_shape_is_the_one_written_witness :
  launch_shape ["64"; "-128"]%string = (64, -128).
Proof.
  apply (launch_shape_is_the_one_written 64 (-128));
    unfold INT_MIN, INT_MAX; lia.
Defined.

(** ** The converter: every byte *)

(** X20. Every byte 0..255 comes back from the two conversions: normalized to
    a [float] on input and quantized on output, it is the same byte. *)
Theorem every_byte_is_restored (b : Z) :
  0 <= b <= 255 -> float_to_byte (byte_to_float b) = b.
Proof.
  intros Hb. pose proof all_bytes_round_trip as H.
  rewrite forallb_forall in H.
  apply Z.eqb_eq, H, list_elem_of_In, elem_of_seqZ. lia.
Qed.

Lemma every_byte_is_restored_witness : float_to_byte (byte_to_float 200) = 200.
Proof. apply every_byte_is_restored. lia. Defined.

Lemma byte_to_float_pairs :
  let samples := map (fun b => (b, byte_to_float b)) (seqZ 0 256) in
  forallb (fun x =>
             forallb (fun y => implb (fst x <? fst y) (SFltb (snd x) (snd y)))
                     samples)
          samples = true.
Proof. vm_compute. reflexivity. Qed.

(** X21. The normalization of the input is strictly increasing on the bytes: a
    larger byte gives a larger [float]; the byte 0 gives 0.0 and the byte 255
    gives 1.0 exactly, so every byte lands in [0.0, 1.0] and no two bytes give
    the same sample. *)
Theorem byte_to_float_is_increasing (b b' : Z) :
  0 <= b -> b < b' -> b' <= 255 ->
  SFltb (byte_to_float b) (byte_to_float b') = true /\
  byte_to_float 0 = F32.zero /\ byte_to_float 255 = F32.one /\
  SFleb F32.zero (byte_to_float b) = true /\
  SFleb (byte_to_float b') F32.one = true.
Proof.
  intros Hb Hlt Hb'. pose proof byte_to_float_pairs as H.
  rewrite forallb_forall in H.
  assert (Hlt' : forall x y, 0 <= x -> x < y -> y <= 255 ->
            SFltb (byte_to_float x) (byte_to_float y) = true).
  { intros x y Hx Hxy Hy.
    assert (Hin : forall z, 0 <= z <= 255 ->
              In (z, byte_to_float z)
                 (map (fun b => (b, byte_to_float b)) (seqZ 0 256))).
    { intros z Hz. apply (in_map (fun b => (b, byte_to_float b))).
      apply list_elem_of_In, elem_of_seqZ. lia. }
    specialize (H _ (Hin x ltac:(lia))). rewrite forallb_forall in H.
    specialize (H _ (Hin y ltac:(lia))). cbn [fst snd] in H.
    now rewrite (proj2 (Z.ltb_lt x y)) in H by assumption. }
  assert (H0 : byte_to_float 0 = F32.zero) by (vm_compute; reflexivity).
  assert (H1 : byte_to_float 255 = F32.one) by (vm_compute; reflexivity).
  assert (Hle : forall x y, SFltb x y = true -> SFleb x y = true).
  { intros x y. unfold SFltb, SFleb. now destruct (SFcompare x y) as [[| |]|]. }
  split; [now apply Hlt'|]. split; [exact H0|]. split; [exact H1|]. split.
  - destruct (Z.eq_dec b 0) as [->|Hne]; [rewrite H0; reflexivity|].
    rewrite <- H0. apply Hle, Hlt'; lia.
  - destruct (Z.eq_dec b' 255) as [->|Hne]; [rewrite H1; reflexivity|].
    rewrite <- H1. apply Hle, Hlt'; lia.
Qed.

Lemma byte_to_float_is_increasing_witness :
  SFltb (byte_to_float 127) (byte_to_float 128) = true.
Proof. apply (byte_to_float_is_increasing 127 128); lia. Defined.
